(** * Apollo v2 transaction builder: a shallow embedding and its properties

    The development follows the Go sources of the builder:
    - [models.go]   : [Unit], [Payment], min-UTxO adjustment;
    - the helpers file (values, script-data hash, min lovelace);
    - [apollo.go]   : the [Apollo] builder, coin selection, collateral,
                      redeemer indices, the fee/change loop, [Complete], [Clone];
    - [backend/base.go] : protocol parameters and the maximum fee.

    Go machine integers are modelled as [Z] with the wrap-around written out,
    byte strings and Go strings as [string], Go maps as [gmap], slices as
    lists, and [(T, error)] results with the [result] type.  Library code
    the builder calls (gouroboros' [MultiAsset], the CBOR encoder, Blake2b)
    is either modelled in its own module or taken as a section variable. *)

From Stdlib Require Import ZArith QArith_base Qround Lia List Permutation Sorted Ascii String DecimalString.
From Stdlib Require OrderedTypeEx.
From stdpp Require Import base option gmap strings list fin_maps sorting.

Set Warnings "-register-all".

Open Scope Z_scope.

(* ===================================================================== *)
(** * Go machine integers *)
(* ===================================================================== *)

Module GoInt.

Definition two64 : Z := 2 ^ 64.
Definition two63 : Z := 2 ^ 63.
Definition two32 : Z := 2 ^ 32.

Definition MaxUint64 : Z := two64 - 1.
Definition MaxInt64 : Z := two63 - 1.
Definition MinInt64 : Z := - two63.
Definition MaxUint32 : Z := two32 - 1.

(** Conversion to [uint64]: reduction modulo 2^64. *)
Definition uint64 (z : Z) : Z := z mod two64.

(** Conversion to [int64]: two's complement. *)
Definition int64 (z : Z) : Z := (z + two63) mod two64 - two63.

(** Conversion to [uint32]. *)
Definition uint32 (z : Z) : Z := z mod two32.

Definition is_uint64 (z : Z) : Prop := 0 <= z < two64.
Definition is_int64 (z : Z) : Prop := - two63 <= z < two63.
Definition is_uint32 (z : Z) : Prop := 0 <= z < two32.

Lemma uint64_id z : is_uint64 z -> uint64 z = z.
Proof. intros Hz. unfold uint64. apply Z.mod_small. exact Hz. Qed.


Lemma int64_id z : is_int64 z -> int64 z = z.
Proof.
  unfold is_int64, int64, two64, two63. intros Hz.
  rewrite Z.mod_small; lia.
Qed.


Lemma uint32_id z : is_uint32 z -> uint32 z = z.
Proof. intros Hz. unfold uint32. apply Z.mod_small. exact Hz. Qed.

(** An unsigned sum wraps exactly when it is smaller than an operand:
    the overflow test of [Value.Add]. *)
Lemma uint64_add_overflow a b :
  is_uint64 a -> is_uint64 b ->
  (uint64 (a + b) <? a) = (two64 <=? a + b).
Proof.
  unfold is_uint64, uint64, two64. intros Ha Hb.
  destruct (Z.leb_spec (2 ^ 64) (a + b)) as [Hov | Hfit].
  - apply Z.ltb_lt.
    replace (a + b) with ((a + b - 2 ^ 64) + 1 * 2 ^ 64) by lia.
    rewrite Z.mod_add by lia. rewrite Z.mod_small; lia.
  - apply Z.ltb_ge. rewrite Z.mod_small; lia.
Qed.





End GoInt.

Import GoInt.

(* ===================================================================== *)
(** * Go results: a value or an error *)
(* ===================================================================== *)

Inductive result (A : Type) : Type :=
| Ok (a : A)
| Err (msg : string).

Arguments Ok {A} a.
Arguments Err {A} msg.

#[global] Instance result_ret : MRet result := fun A a => Ok a.
#[global] Instance result_bind : MBind result := fun A B f r =>
  match r with
  | Ok a => f a
  | Err msg => Err msg
  end.

Definition is_Ok {A} (r : result A) : bool :=
  match r with Ok _ => true | Err _ => false end.


(** A nil test for pointers and interfaces. *)
Definition isNil {A} (o : option A) : bool :=
  match o with None => true | Some _ => false end.

(** [fmt.Errorf("ctx: %w", err)]: the error is kept, with a prefix. *)
Definition wrapErr {A} (ctx : string) (r : result A) : result A :=
  match r with
  | Ok a => Ok a
  | Err msg => Err (ctx ++ ": " ++ msg)%string
  end.

Lemma bind_Ok_inv {A B} (r : result A) (f : A -> result B) (b : B) :
  r ≫= f = Ok b -> exists a, r = Ok a /\ f a = Ok b.
Proof. destruct r as [a | msg]; simpl; [eauto | discriminate]. Qed.

Lemma wrapErr_Ok_inv {A} ctx (r : result A) (a : A) :
  wrapErr ctx r = Ok a -> r = Ok a.
Proof. destruct r; simpl; congruence. Qed.

Lemma wrapErr_is_Ok {A} ctx (r : result A) : is_Ok (wrapErr ctx r) = is_Ok r.
Proof. by destruct r. Qed.

(* ===================================================================== *)
(** * gouroboros [ledger/common]: multi-asset bundles *)
(* ===================================================================== *)

(** The builder only uses the [MultiAsset] container through its methods
    [Policies], [Assets], [Asset] and [Add].  Hashes and asset names are
    byte strings; quantities are [*big.Int], hence unbounded. *)
Module common.

Definition Blake2b224Size : Z := 28.
Definition Blake2b256Size : Z := 32.

(** [map[Blake2b224]map[cbor.ByteString]*big.Int] *)
Abbreviation MultiAsset := (gmap string (gmap string Z)).

Definition NewMultiAsset (data : MultiAsset) : MultiAsset := data.

Definition Policies (m : MultiAsset) : list string := (map_to_list m).*1.

Definition Assets (m : MultiAsset) (policyId : string) : list string :=
  match m !! policyId with
  | Some assets => (map_to_list assets).*1
  | None => []
  end.

(** [Asset] answers [nil] for an unknown policy or name. *)
Definition Asset (m : MultiAsset) (policyId assetName : string) : option Z :=
  m !! policyId ≫= fun assets => assets !! assetName.

(** [m.Add(other)]: quantities of [other] are added into [m], entry by
    entry; entries that only [other] has are copied. *)
Definition Add (m other : MultiAsset) : MultiAsset :=
  union_with
    (fun assets otherAssets =>
       Some (union_with (fun x y => Some (x + y)) assets otherAssets))
    m other.

Lemma Asset_Add m other p n :
  Asset (Add m other) p n =
  union_with (fun x y => Some (x + y)) (Asset m p n) (Asset other p n).
Proof.
  unfold Asset, Add. rewrite lookup_union_with.
  destruct (m !! p) as [am |], (other !! p) as [ao |]; simpl; try done.
  - by rewrite lookup_union_with.
  - by destruct (am !! n).
  - by destruct (ao !! n).
Qed.

Lemma elem_of_Policies m p : p ∈ Policies m <-> is_Some (m !! p).
Proof.
  unfold Policies. rewrite list_elem_of_fmap. split.
  - intros [[p' a] [-> Hin]]. apply elem_of_map_to_list in Hin. eauto.
  - intros [a Ha]. exists (p, a). split; [done |].
    by apply elem_of_map_to_list.
Qed.

Lemma elem_of_Assets m p n : n ∈ Assets m p <-> is_Some (Asset m p n).
Proof.
  unfold Assets, Asset. destruct (m !! p) as [am |]; simpl.
  - rewrite list_elem_of_fmap. split.
    + intros [[n' q] [-> Hin]]. apply elem_of_map_to_list in Hin. eauto.
    + intros [q Hq]. exists (n, q). split; [done |].
      by apply elem_of_map_to_list.
  - split; [by intros ?%elem_of_nil | by intros [? ?]].
Qed.

(** The nested loop [for _, p := range m.Policies() { for _, n := range
    m.Assets(p) { ... } }] used as a test: [true] when the body accepts
    every entry. *)
Definition allAssets (f : string -> string -> Z -> bool) (m : MultiAsset) : bool :=
  forallb (fun pa : string * gmap string Z =>
             forallb (fun nq : string * Z => f pa.1 nq.1 nq.2) (map_to_list pa.2))
          (map_to_list m).

Lemma forallb_false_exists {A} (f : A -> bool) (l : list A) :
  forallb f l = false -> exists x, In x l /\ f x = false.
Proof.
  induction l as [| x l IH]; simpl; [discriminate |].
  destruct (f x) eqn:Hx; simpl.
  - intros H. destruct (IH H) as (y & Hy & Hfy). eauto.
  - intros _. eauto.
Qed.

Lemma allAssets_true f m :
  allAssets f m = true <->
  forall p n q, Asset m p n = Some q -> f p n q = true.
Proof.
  unfold allAssets, Asset. rewrite forallb_forall. split.
  - intros H p n q Hq.
    destruct (m !! p) as [am |] eqn:Hp; simpl in Hq; [| done].
    assert (Hin : In (p, am) (map_to_list m))
      by (apply list_elem_of_In; by apply elem_of_map_to_list).
    specialize (H _ Hin). rewrite forallb_forall in H.
    apply (H (n, q)). apply list_elem_of_In. by apply elem_of_map_to_list.
  - intros H [p am] Hin%list_elem_of_In%elem_of_map_to_list.
    apply forallb_forall. intros [n q] Hnq%list_elem_of_In%elem_of_map_to_list.
    simpl. apply H. by rewrite Hin.
Qed.

Lemma allAssets_false f m :
  allAssets f m = false <->
  exists p n q, Asset m p n = Some q /\ f p n q = false.
Proof.
  split.
  - unfold allAssets, Asset. intros Hf.
    apply forallb_false_exists in Hf as ([p am] & Hin & Hf).
    apply forallb_false_exists in Hf as ([n q] & Hnq & Hf). simpl in *.
    apply list_elem_of_In, elem_of_map_to_list in Hin.
    apply list_elem_of_In, elem_of_map_to_list in Hnq.
    exists p, n, q. by rewrite Hin.
  - intros (p & n & q & Hq & Hfalse).
    destruct (allAssets f m) eqn:Hall; [| done].
    rewrite allAssets_true in Hall. rewrite (Hall _ _ _ Hq) in Hfalse. done.
Qed.

End common.

(* ===================================================================== *)
(** * Values: lovelace with optional native assets *)
(* ===================================================================== *)

(** [Assets] is a pointer in the source: [None] is the nil pointer. *)
Record Value : Type := mkValue {
  Coin : Z;                                   (* uint64 *)
  Assets : option common.MultiAsset
}.

Definition emptyValue : Value := mkValue 0 None.

Definition NewValue (coin : Z) (assets : option common.MultiAsset) : Value :=
  mkValue coin assets.

Definition NewSimpleValue (coin : Z) : Value := mkValue coin None.

(** A deep copy rebuilds both map levels with fresh integers. *)
Definition CloneMultiAsset (m : option common.MultiAsset)
  : option common.MultiAsset :=
  match m with
  | None => None
  | Some data =>
      Some (common.NewMultiAsset
              ((fun assetMap : gmap string Z => (fun val : Z => val) <$> assetMap)
                 <$> data))
  end.

(** True for the nil bundle and when no quantity is positive. *)
Definition MultiAssetIsEmpty (m : option common.MultiAsset) : bool :=
  match m with
  | None => true
  | Some data => common.allAssets (fun _ _ qty => negb (0 <? qty)) data
  end.

(** [SubMultiAsset] first checks every entry of [other] against [m] (a
    missing entry of [m] counts as zero), then adds the negated bundle.
    The in-place update of [m] is returned as the new bundle. *)
Definition SubMultiAsset (m other : option common.MultiAsset)
  : result (option common.MultiAsset) :=
  match other, m with
  | None, _ => Ok m
  | _, None => Ok m
  | Some o, Some d =>
      if common.allAssets
           (fun policyId assetName otherQty =>
              let myQty := default 0 (common.Asset d policyId assetName) in
              negb (myQty <? otherQty)) o
      then
        let negAssets :=
          common.NewMultiAsset
            ((fun assets : gmap string Z => Z.opp <$> assets) <$> o) in
        Ok (Some (common.Add d negAssets))
      else Err "asset underflow for policy"
  end.

(** One visit of the loop body of [subtractAssetsSaturating]: the asset
    [(policyId, assetName)] of the UTxO bundle, of quantity [utxoQty], is
    taken off the remaining requirement, never below zero. *)
Definition saturatingVisit (policyId assetName : string) (utxoQty : Z)
  (remaining : common.MultiAsset) : common.MultiAsset :=
  match common.Asset remaining policyId assetName with
  | None => remaining
  | Some reqQty =>
      if reqQty <=? 0 then remaining
      else
        let toSubtract := if reqQty <=? utxoQty then reqQty else utxoQty in
        let negAssets :=
          common.NewMultiAsset {[ policyId := {[ assetName := - toSubtract ]} ]} in
        common.Add remaining negAssets
  end.

(** [subtractAssetsSaturating remaining utxoAssets] updates [remaining]
    in place; the updated bundle is returned. *)
Definition subtractAssetsSaturating
  (remaining utxoAssets : option common.MultiAsset)
  : option common.MultiAsset :=
  match remaining, utxoAssets with
  | Some r, Some u =>
      Some (map_fold (fun policyId (assets : gmap string Z) acc =>
              map_fold (fun assetName utxoQty acc' =>
                          saturatingVisit policyId assetName utxoQty acc')
                       acc assets)
              r u)
  | _, _ => remaining
  end.

Module ValueOps.

(** [v.Add(other)] *)
Definition Add (v other : Value) : result Value :=
  let sum := uint64 (Coin v + Coin other) in
  if sum <? Coin v then Err "coin overflow"
  else
    let assets :=
      match Assets v, Assets other with
      | Some _, Some o =>
          match CloneMultiAsset (Assets v) with
          | Some c => Some (common.Add c o)
          | None => None
          end
      | Some _, None => CloneMultiAsset (Assets v)
      | None, Some _ => CloneMultiAsset (Assets other)
      | None, None => None
      end in
    Ok (mkValue sum assets).

(** [v.Sub(other)] *)
Definition Sub (v other : Value) : result Value :=
  if Coin v <? Coin other then Err "coin underflow"
  else
    let coin := uint64 (Coin v - Coin other) in
    match Assets v with
    | Some _ =>
        match Assets other with
        | Some _ =>
            assets ← SubMultiAsset (CloneMultiAsset (Assets v)) (Assets other);
            Ok (mkValue coin assets)
        | None => Ok (mkValue coin (CloneMultiAsset (Assets v)))
        end
    | None =>
        match Assets other with
        | Some _ =>
            if negb (MultiAssetIsEmpty (Assets other))
            then Err "asset underflow: no assets to subtract from"
            else Ok (mkValue coin None)
        | None => Ok (mkValue coin None)
        end
    end.

(** [v.GreaterOrEqual(other)] *)
Definition GreaterOrEqual (v other : Value) : bool :=
  if Coin v <? Coin other then false
  else
    match Assets other with
    | None => true
    | Some o =>
        match Assets v with
        | None => MultiAssetIsEmpty (Assets other)
        | Some d =>
            common.allAssets
              (fun policyId assetName otherQty =>
                 if otherQty <=? 0 then true
                 else
                   match common.Asset d policyId assetName with
                   | Some myQty => negb (myQty <? otherQty)
                   | None => false
                   end) o
        end
    end.

Definition GetCoin (v : Value) : Z := Coin v.

Definition HasAssets (v : Value) : bool :=
  match Assets v with
  | Some _ => negb (MultiAssetIsEmpty (Assets v))
  | None => false
  end.

Definition Clone (v : Value) : Value :=
  mkValue (Coin v)
    (match Assets v with
     | Some _ => CloneMultiAsset (Assets v)
     | None => None
     end).

End ValueOps.

(** The quantity a value holds of one asset, with an absent entry read
    as zero: the observation used to compare values. *)
Definition quantityOf (v : Value) (policyId assetName : string) : Z :=
  match Assets v with
  | Some m => default 0 (common.Asset m policyId assetName)
  | None => 0
  end.

(** The fields of a [Value] respect their Go types. *)
Definition wfValue (v : Value) : Prop := is_uint64 (Coin v).

(* --------------------------------------------------------------------- *)
(** ** Facts about bundles *)
(* --------------------------------------------------------------------- *)

#[global] Arguments SubMultiAsset : simpl never.
#[global] Arguments subtractAssetsSaturating : simpl never.

Lemma CloneMultiAsset_id m : CloneMultiAsset m = m.
Proof.
  destruct m as [data |]; simpl; [| done]. f_equal.
  unfold common.NewMultiAsset. apply map_eq. intros p.
  rewrite lookup_fmap. destruct (data !! p) as [am |]; simpl; [| done].
  f_equal. apply map_eq. intros n. rewrite lookup_fmap.
  by destruct (am !! n).
Qed.

Lemma Asset_negated (o : common.MultiAsset) p n :
  common.Asset ((fun assets : gmap string Z => Z.opp <$> assets) <$> o) p n
  = Z.opp <$> common.Asset o p n.
Proof.
  unfold common.Asset. rewrite lookup_fmap.
  destruct (o !! p) as [am |]; simpl; [| done]. by rewrite lookup_fmap.
Qed.

Lemma MultiAssetIsEmpty_true (data : common.MultiAsset) :
  MultiAssetIsEmpty (Some data) = true <->
  forall p n q, common.Asset data p n = Some q -> q <= 0.
Proof.
  simpl. rewrite common.allAssets_true. split; intros H p n q Hq.
  - specialize (H p n q Hq). apply negb_true_iff, Z.ltb_ge in H. lia.
  - apply negb_true_iff, Z.ltb_ge. by apply (H p n).
Qed.

Lemma SubMultiAsset_Ok_iff (d o : common.MultiAsset) :
  is_Ok (SubMultiAsset (Some d) (Some o)) = true <->
  forall p n q, common.Asset o p n = Some q ->
                q <= default 0 (common.Asset d p n).
Proof.
  unfold SubMultiAsset.
  destruct (common.allAssets _ o) eqn:Hall; cbn [is_Ok].
  - rewrite common.allAssets_true in Hall. split; [intros _ | done].
    intros p n q Hq. specialize (Hall p n q Hq). simpl in Hall.
    apply negb_true_iff, Z.ltb_ge in Hall. lia.
  - rewrite common.allAssets_false in Hall.
    destruct Hall as (p & n & q & Hq & Hlt). split; [done |].
    intros H. specialize (H p n q Hq). simpl in Hlt.
    apply negb_false_iff, Z.ltb_lt in Hlt. lia.
Qed.

Lemma SubMultiAsset_Asset (d o r : common.MultiAsset) p n :
  SubMultiAsset (Some d) (Some o) = Ok (Some r) ->
  default 0 (common.Asset r p n)
  = default 0 (common.Asset d p n) - default 0 (common.Asset o p n).
Proof.
  unfold SubMultiAsset. destruct (common.allAssets _ o); [| done].
  intros [= <-]. unfold common.NewMultiAsset.
  rewrite common.Asset_Add, Asset_negated.
  destruct (common.Asset d p n), (common.Asset o p n); simpl; lia.
Qed.

(* --------------------------------------------------------------------- *)
(** ** Adding then subtracting a value *)
(* --------------------------------------------------------------------- *)

(** The entry a value holds for an asset, [None] when the value has no
    bundle or the bundle has no such entry. *)
Definition assetOf (v : Value) (policyId assetName : string) : option Z :=
  Assets v ≫= fun m => common.Asset m policyId assetName.

Lemma quantityOf_assetOf v p n : quantityOf v p n = default 0 (assetOf v p n).
Proof. unfold quantityOf, assetOf. by destruct (Assets v). Qed.

Lemma Add_Ok_inv (a b s : Value) :
  wfValue a -> wfValue b -> ValueOps.Add a b = Ok s ->
  Coin s = Coin a + Coin b /\ Coin a + Coin b < two64 /\
  forall p n,
    assetOf s p n
    = union_with (fun x y => Some (x + y)) (assetOf a p n) (assetOf b p n).
Proof.
  unfold wfValue, ValueOps.Add. intros Ha Hb.
  rewrite uint64_add_overflow by done.
  destruct (Z.leb_spec two64 (Coin a + Coin b)) as [| Hfit]; [done |].
  intros [= <-]. simpl. split; [| split; [done |]].
  - apply uint64_id. unfold is_uint64 in *. lia.
  - intros p n. unfold assetOf. rewrite !CloneMultiAsset_id.
    destruct (Assets a) as [ma |], (Assets b) as [mb |]; simpl; try done.
    + apply common.Asset_Add.
    + by destruct (common.Asset ma p n).
    + by destruct (common.Asset mb p n).
Qed.

Example policyA : string := "aaaaaaaaaaaaaaaaaaaaaaaaaaaa".
Example tokenName : string := "token".

(** A value that burns 5 tokens (as [Unit.ToValue] builds for a negative
    mint quantity) and a value that holds 3 of the same token. *)
Example burnFive : Value :=
  mkValue 0 (Some {[ policyA := {[ tokenName := -5 ]} ]}).
Example holdThree : Value :=
  mkValue 0 (Some {[ policyA := {[ tokenName := 3 ]} ]}).

(** C4, as stated, fails: adding [holdThree] to [burnFive] succeeds, but
    subtracting it again reports an asset underflow, because the sum
    holds -2 tokens and [SubMultiAsset] refuses to go below what is held. *)
Lemma Add_Sub_negative_quantity_fails :
  wfValue burnFive /\ wfValue holdThree /\
  ValueOps.Add burnFive holdThree
    = Ok (mkValue 0 (Some {[ policyA := {[ tokenName := -2 ]} ]})) /\
  ValueOps.Sub (mkValue 0 (Some {[ policyA := {[ tokenName := -2 ]} ]})) holdThree
    = Err "asset underflow for policy".
Proof.
  repeat split; try (unfold wfValue, is_uint64, two64; simpl; lia);
    vm_compute; reflexivity.
Qed.

(** C4 (amended): for all values [a] and [b] whose sum [Add a b] does not
    overflow, and such that [a] holds no negative quantity of an asset
    that [b] also lists, [Sub (Add a b) b] succeeds and its result equals
    [a] on the coin and on every asset quantity. *)
Theorem Add_then_Sub_restores (a b s : Value) :
  wfValue a -> wfValue b ->
  ValueOps.Add a b = Ok s ->
  (forall p n qa qb,
      assetOf a p n = Some qa -> assetOf b p n = Some qb -> 0 <= qa) ->
  exists r,
    ValueOps.Sub s b = Ok r /\
    Coin r = Coin a /\
    forall p n, quantityOf r p n = quantityOf a p n.
Proof.
  intros Ha Hb Hadd Hneg.
  destruct (Add_Ok_inv a b s Ha Hb Hadd) as (Hcoin & Hfit & Hassets).
  assert (Hcoin' : uint64 (Coin s - Coin b) = Coin a).
  { rewrite Hcoin. replace (Coin a + Coin b - Coin b) with (Coin a) by lia.
    by apply uint64_id. }
  assert (Hge : (Coin s <? Coin b) = false).
  { apply Z.ltb_ge. unfold wfValue, is_uint64 in *. lia. }
  unfold ValueOps.Sub. rewrite Hge, Hcoin'. clear Hge Hcoin'.
  unfold ValueOps.Add in Hadd.
  destruct (_ <? _) in Hadd; [done |]. injection Hadd as <-. simpl.
  rewrite !CloneMultiAsset_id.
  unfold assetOf in Hneg, Hassets. simpl in Hassets.
  destruct (Assets a) as [ma |] eqn:HA, (Assets b) as [mb |] eqn:HB; simpl in *.
  - (* both bundles present *)
    assert (Hok : is_Ok (SubMultiAsset (Some (common.Add ma mb)) (Some mb)) = true).
    { apply SubMultiAsset_Ok_iff. intros p n q Hq.
      rewrite common.Asset_Add, Hq.
      destruct (common.Asset ma p n) as [qa |] eqn:Hqa; simpl; [| lia].
      specialize (Hneg p n qa q Hqa Hq). lia. }
    destruct (SubMultiAsset _ _) as [[r |] | msg] eqn:Hsub; try done.
    + eexists. split; [done |]. split; [done |]. intros p n.
      unfold quantityOf. simpl. rewrite HA.
      rewrite (SubMultiAsset_Asset _ _ _ p n Hsub), common.Asset_Add.
      destruct (common.Asset ma p n), (common.Asset mb p n); simpl; lia.
    + unfold SubMultiAsset in Hsub. by destruct (common.allAssets _ _).
  - (* only [a] has a bundle *)
    eexists. split; [done |]. split; [done |]. intros p n.
    unfold quantityOf. simpl. by rewrite HA.
  - (* only [b] has a bundle *)
    assert (Hok : is_Ok (SubMultiAsset (Some mb) (Some mb)) = true).
    { apply SubMultiAsset_Ok_iff. intros p n q Hq. rewrite Hq. simpl. lia. }
    destruct (SubMultiAsset _ _) as [[r |] | msg] eqn:Hsub; try done.
    + eexists. split; [done |]. split; [done |]. intros p n.
      unfold quantityOf. simpl. rewrite HA.
      rewrite (SubMultiAsset_Asset _ _ _ p n Hsub). lia.
    + unfold SubMultiAsset in Hsub. by destruct (common.allAssets _ _).
  - (* no bundle at all *)
    eexists. split; [done |]. split; [done |]. intros p n.
    unfold quantityOf. simpl. by rewrite HA.
Qed.

(** The amended law at a concrete pair: 100 lovelace with 50 tokens plus
    200 lovelace with 30 tokens, then minus the latter. *)
Lemma Add_then_Sub_restores_witness :
  exists r,
    ValueOps.Sub (mkValue 300 (Some {[ policyA := {[ tokenName := 80 ]} ]}))
                 (mkValue 200 (Some {[ policyA := {[ tokenName := 30 ]} ]}))
      = Ok r /\
    Coin r = 100 /\
    forall p n,
      quantityOf r p n
      = quantityOf (mkValue 100 (Some {[ policyA := {[ tokenName := 50 ]} ]})) p n.
Proof.
  apply (Add_then_Sub_restores
           (mkValue 100 (Some {[ policyA := {[ tokenName := 50 ]} ]}))
           (mkValue 200 (Some {[ policyA := {[ tokenName := 30 ]} ]}))).
  - unfold wfValue, is_uint64, two64. simpl. lia.
  - unfold wfValue, is_uint64, two64. simpl. lia.
  - vm_compute. reflexivity.
  - intros p n qa qb Ha _. unfold assetOf, common.Asset in Ha. simpl in Ha.
    destruct (decide (p = policyA)) as [-> |];
      [| by rewrite lookup_singleton_ne in Ha].
    rewrite lookup_singleton_eq in Ha. simpl in Ha.
    destruct (decide (n = tokenName)) as [-> |];
      [| by rewrite lookup_singleton_ne in Ha].
    rewrite lookup_singleton_eq in Ha. injection Ha as <-. lia.
Defined.

(* ===================================================================== *)
(** * Ledger data used by the builder *)
(* ===================================================================== *)

(** Hashes, keys, scripts and encoded data are byte strings.  A
    [common.Address] is seen through the methods the builder calls. *)
Record Address : Type := mkAddress {
  AddrBytes : result string;          (* Bytes() *)
  AddrString : string;                (* String(), the bech32 form *)
  PaymentKeyHash : string;
  StakeKeyHash : string
}.

Record Datum : Type := mkDatum { DatumCbor : string }.

Record ExUnits : Type := mkExUnits { Memory : Z; Steps : Z }.   (* int64 *)

Inductive RedeemerTag : Type :=
| RedeemerTagSpend
| RedeemerTagMint
| RedeemerTagCert
| RedeemerTagReward
| RedeemerTagVoting
| RedeemerTagProposing.

Record RedeemerKey : Type := mkRedeemerKey {
  Tag : RedeemerTag;
  Index : Z                            (* uint32 *)
}.

Record RedeemerValue : Type := mkRedeemerValue {
  Data : Datum;
  ValueExUnits : ExUnits
}.

#[global] Instance RedeemerTag_eq_dec : EqDecision RedeemerTag.
Proof. solve_decision. Defined.

#[global] Instance RedeemerKey_eq_dec : EqDecision RedeemerKey.
Proof. solve_decision. Defined.

Definition tagCode (t : RedeemerTag) : Z :=
  match t with
  | RedeemerTagSpend => 0
  | RedeemerTagMint => 1
  | RedeemerTagCert => 2
  | RedeemerTagReward => 3
  | RedeemerTagVoting => 4
  | RedeemerTagProposing => 5
  end.

Definition tagOfCode (z : Z) : RedeemerTag :=
  match z with
  | 0 => RedeemerTagSpend
  | 1 => RedeemerTagMint
  | 2 => RedeemerTagCert
  | 3 => RedeemerTagReward
  | 4 => RedeemerTagVoting
  | _ => RedeemerTagProposing
  end.

#[global] Program Instance RedeemerKey_countable : Countable RedeemerKey :=
  inj_countable' (fun k => (tagCode (Tag k), Index k))
                 (fun p => mkRedeemerKey (tagOfCode p.1) p.2) _.
Next Obligation. by intros [[] i]. Qed.

Record ShelleyTransactionInput : Type := mkInput {
  TxId : string;                       (* Blake2b256 *)
  OutputIndex : Z                      (* uint32 *)
}.

Inductive DatumOption : Type :=
| DatumOptionHash (hash : string)
| DatumOptionInline (datum : Datum).

Record ScriptRef : Type := mkScriptRef {
  ScriptType : Z;
  ScriptBytes : string
}.

Record MaryTransactionOutputValue : Type := mkMaryValue {
  Amount : Z;                          (* uint64 *)
  MaryAssets : option common.MultiAsset
}.

Record BabbageTransactionOutput : Type := mkBabbageOutput {
  OutputAddress : Address;
  OutputAmount : MaryTransactionOutputValue;
  OutputDatumOption : option DatumOption;
  TxOutScriptRef : option ScriptRef
}.

(** [common.TransactionOutput], the interface a UTxO's output is read
    through: [Amount()] and [Assets()] may answer nil. *)
Record TransactionOutput : Type := mkTransactionOutput {
  OutAddress : Address;
  OutAmount : option Z;                (* *big.Int *)
  OutAssets : option common.MultiAsset
}.

(** A Babbage output seen through that interface. *)
Definition asTransactionOutput (o : BabbageTransactionOutput) : TransactionOutput :=
  mkTransactionOutput (OutputAddress o) (Some (Amount (OutputAmount o)))
                      (MaryAssets (OutputAmount o)).

Record Utxo : Type := mkUtxo {
  Id : ShelleyTransactionInput;
  Output : TransactionOutput
}.

Record CertificateWrapper : Type := mkCertificate {
  CertType : Z;
  CertBody : string
}.

Module CertificateType.
Definition StakeRegistration : Z := 0.
Definition StakeDeregistration : Z := 1.
Definition StakeDelegation : Z := 2.
Definition PoolRegistration : Z := 3.
Definition PoolRetirement : Z := 4.
Definition Registration : Z := 7.
Definition Deregistration : Z := 8.
Definition VoteDelegation : Z := 9.
Definition StakeVoteDelegation : Z := 10.
Definition StakeRegistrationDelegation : Z := 11.
Definition VoteRegistrationDelegation : Z := 12.
Definition StakeVoteRegistrationDelegation : Z := 13.
End CertificateType.

Record VkeyWitness : Type := mkVkeyWitness {
  Vkey : string;
  Signature : string
}.

Record ConwayTransactionBody : Type := mkBody {
  TxInputs : list ShelleyTransactionInput;
  TxOutputs : list BabbageTransactionOutput;
  TxFee : Z;
  BodyTtl : Z;
  TxValidityIntervalStart : Z;
  TxMint : option common.MultiAsset;
  TxRequiredSigners : list string;
  TxReferenceInputs : list ShelleyTransactionInput;
  TxCertificates : list CertificateWrapper;
  TxWithdrawals : list (Address * Z);
  TxAuxDataHash : option string;
  TxCollateral : list ShelleyTransactionInput;
  TxTotalCollateral : Z;
  TxCollateralReturn : option BabbageTransactionOutput;
  TxScriptDataHash : option string;
  TxNetworkId : option Z
}.

Record ConwayTransactionWitnessSet : Type := mkWitnessSet {
  VkeyWitnesses : list VkeyWitness;
  WsNativeScripts : list string;
  WsPlutusV1Scripts : list string;
  WsPlutusV2Scripts : list string;
  WsPlutusV3Scripts : list string;
  WsPlutusData : list Datum;
  WsRedeemers : gmap RedeemerKey RedeemerValue
}.

(** Transaction metadata ([common.TransactionMetadatum]). *)
Inductive TransactionMetadatum : Type :=
| MetaInt (value : Z)
| MetaText (value : string)
| MetaBytes (value : string)
| MetaList (items : list TransactionMetadatum)
| MetaMapOf (pairs : list (TransactionMetadatum * TransactionMetadatum)).

Record MetaMap : Type := mkMetaMap {
  Pairs : list (TransactionMetadatum * TransactionMetadatum)
}.

Record ConwayTransaction : Type := mkTransaction {
  Body : ConwayTransactionBody;
  WitnessSet : ConwayTransactionWitnessSet;
  TxIsValid : bool;
  TxMetadata : option MetaMap
}.

(* ===================================================================== *)
(** * Package [backend]: protocol parameters and the chain context *)
(* ===================================================================== *)

Module strconv.

Definition digitOf (c : ascii) : option Z :=
  let n := Z.of_N (N_of_ascii c) in
  if (48 <=? n) && (n <=? 57) then Some (n - 48) else None.

Fixpoint parseDigits (acc : Z) (s : string) : option Z :=
  match s with
  | EmptyString => Some acc
  | String c rest =>
      match digitOf c with
      | Some d => parseDigits (10 * acc + d) rest
      | None => None
      end
  end.

(** [strconv.ParseInt(s, 10, 64)]: an optional sign, at least one digit,
    and a value in the [int64] range. *)
Definition ParseInt (s : string) : result Z :=
  let parseUnsigned (digits : string) : option Z :=
    match digits with
    | EmptyString => None
    | _ => parseDigits 0 digits
    end in
  let parsed :=
    match s with
    | String "-"%char rest => Z.opp <$> parseUnsigned rest
    | String "+"%char rest => parseUnsigned rest
    | _ => parseUnsigned s
    end in
  match parsed with
  | Some z => if (MinInt64 <=? z) && (z <=? MaxInt64) then Ok z
              else Err "strconv.ParseInt: value out of range"
  | None => Err "strconv.ParseInt: invalid syntax"
  end.

(** [strconv.Itoa] *)
Definition Itoa (z : Z) : string := NilZero.string_of_int (Z.to_int z).

End strconv.

Module backend.

(** Prices are [float64] in the source; the model carries them and
    leaves floating-point arithmetic to the library record below. *)
Record ProtocolParameters : Type := mkProtocolParameters {
  MinFeeConstant : Z;                  (* int64 *)
  MinFeeCoefficient : Z;               (* int64 *)
  MaxTxSize : Z;                       (* int *)
  KeyDeposits : string;
  PriceMem : Q;
  PriceStep : Q;
  CollateralPercent : Z;               (* int *)
  CoinsPerUtxoByte : string;
  CostModels : gmap string (list Z)
}.

Definition CoinsPerUtxoByteValue (p : ProtocolParameters) : Z :=
  if bool_decide (CoinsPerUtxoByte p <> ""%string) then
    match strconv.ParseInt (CoinsPerUtxoByte p) with
    | Ok v => v
    | Err _ => 4310
    end
  else 4310.

Definition ComputeMaxTxFee (pp : ProtocolParameters) : result Z :=
  if (MaxTxSize pp <? 0) || (MinFeeCoefficient pp <? 0) || (MinFeeConstant pp <? 0)
  then Err "invalid protocol parameters"
  else Ok (uint64 (uint64 (uint64 (MaxTxSize pp) * uint64 (MinFeeCoefficient pp))
                   + uint64 (MinFeeConstant pp))).

(** The [ChainContext] interface, restricted to what [Complete] calls.
    The answers are those of one backend at one moment. *)
Record ChainContext : Type := mkChainContext {
  ProtocolParams : result ProtocolParameters;
  NetworkId : Z;
  MaxTxFee : result Z;
  Utxos : Address -> result (list Utxo);
  EvaluateTx : string -> result (gmap RedeemerKey ExUnits)
}.

End backend.

Module constants.
Definition MinLovelace : Z := 1000000.
End constants.

(* ===================================================================== *)
(** * [encoding/hex] *)
(* ===================================================================== *)

Module hex.

Definition fromHexChar (c : ascii) : option N :=
  let n := N_of_ascii c in
  if (48 <=? n)%N && (n <=? 57)%N then Some (n - 48)%N
  else if (97 <=? n)%N && (n <=? 102)%N then Some (n - 87)%N
  else if (65 <=? n)%N && (n <=? 70)%N then Some (n - 55)%N
  else None.

Fixpoint decodePairs (s : string) : option string :=
  match s with
  | EmptyString => Some EmptyString
  | String hi (String lo rest) =>
      match fromHexChar hi, fromHexChar lo, decodePairs rest with
      | Some h, Some l, Some bytes =>
          Some (String (ascii_of_N (16 * h + l)) bytes)
      | _, _, _ => None
      end
  | String _ EmptyString => None
  end.

Definition DecodeString (s : string) : result string :=
  match decodePairs s with
  | Some bytes => Ok bytes
  | None => Err "encoding/hex: invalid byte or odd length hex string"
  end.

Definition hexDigit (n : N) : ascii :=
  if (n <? 10)%N then ascii_of_N (48 + n) else ascii_of_N (87 + n).

Fixpoint EncodeToString (bytes : string) : string :=
  match bytes with
  | EmptyString => EmptyString
  | String c rest =>
      let n := N_of_ascii c in
      String (hexDigit (n / 16)) (String (hexDigit (n mod 16)) (EncodeToString rest))
  end.

End hex.

(** [len(s)] for a string or a byte slice. *)
Definition len (s : string) : Z := Z.of_nat (String.length s).

(* ===================================================================== *)
(** * Library code the builder relies on *)
(* ===================================================================== *)

(** The CBOR encoder of gouroboros, Blake2b-256 and the two floating-point
    expressions of the fee code are not part of the builder; they are the
    fields of this record, and every statement below holds for any value
    of it. *)
(** [common.Script], by its dynamic type. *)
Inductive Script : Type :=
| NativeScript (bytes : string)
| PlutusV1Script (bytes : string)
| PlutusV2Script (bytes : string)
| PlutusV3Script (bytes : string).

Record Library : Type := mkLibrary {
  (** [cbor.Encode] at the types the builder encodes *)
  encodeOutput : BabbageTransactionOutput -> result string;
  encodeRedeemers : gmap RedeemerKey RedeemerValue -> result string;
  encodeDatums : list Datum -> result string;
  encodeEmptyCostModels : result string;
  encodeTransaction : ConwayTransaction -> result string;
  encodeMetadata : MetaMap -> result string;
  (** [common.EncodeLangViews(usedVersions, costModels)] *)
  EncodeLangViews : gset Z -> gmap Z (list Z) -> result string;
  (** [common.Blake2b256Hash] *)
  Blake2b256Hash : string -> string;
  (** [script.Hash().String()] *)
  scriptHash : Script -> string;
  (** [int64(math.Ceil(float64(priceMem)*float64(mem) + float64(priceStep)*float64(steps)))] *)
  exUnitFee : Q -> Q -> Z -> Z -> Z;
  (** [int64(float64(units) * (1 + buffer))] with the 0.2 buffers *)
  bufferExUnits : Z -> Z
}.

(* ===================================================================== *)
(** * [models.go]: units and payments *)
(* ===================================================================== *)

Record Unit : Type := mkUnit {
  PolicyId : string;
  Name : string;
  Quantity : Z                         (* int64 *)
}.

Definition NewUnit (policyId name : string) (quantity : Z) : Unit :=
  mkUnit policyId name quantity.

Module UnitOps.

Definition ToValue (u : Unit) : result Value :=
  if bool_decide (PolicyId u = ""%string) || bool_decide (PolicyId u = "lovelace"%string)
  then
    if Quantity u <? 0 then Err "negative lovelace quantity"
    else Ok (NewSimpleValue (uint64 (Quantity u)))
  else
    policyBytes ← wrapErr "invalid policy ID hex" (hex.DecodeString (PolicyId u));
    if negb (len policyBytes =? common.Blake2b224Size)
    then Err "invalid policy ID length"
    else
      nameBytes ← wrapErr "invalid asset name hex" (hex.DecodeString (Name u));
      let data : common.MultiAsset :=
        {[ policyBytes := {[ nameBytes := Quantity u ]} ]} in
      let assets := common.NewMultiAsset data in
      Ok (NewValue 0 (Some assets)).

End UnitOps.

(** [Datum], [DatumHash] and [ScriptRef] are nil when absent ([None],
    the empty string). *)
Record Payment : Type := mkPayment {
  Lovelace : Z;                        (* int64 *)
  Receiver : Address;
  Units : list Unit;
  PaymentDatum : option Datum;
  DatumHash : string;
  IsInline : bool;
  PaymentScriptRef : option ScriptRef
}.

Definition setLovelace (p : Payment) (lovelace : Z) : Payment :=
  mkPayment lovelace (Receiver p) (Units p) (PaymentDatum p) (DatumHash p)
            (IsInline p) (PaymentScriptRef p).

Definition NewDatumOptionHash (hash : string) : result DatumOption :=
  Ok (DatumOptionHash hash).

Definition NewDatumOptionInline (datum : option Datum) : result DatumOption :=
  match datum with
  | None => Err "datum cannot be nil"
  | Some d => Ok (DatumOptionInline d)
  end.

Definition ToMaryValue (v : Value) : MaryTransactionOutputValue :=
  mkMaryValue (Coin v) (CloneMultiAsset (Assets v)).

Definition ValueFromMaryValue (mv : MaryTransactionOutputValue) : Value :=
  mkValue (Amount mv) (CloneMultiAsset (MaryAssets mv)).

Definition NewBabbageOutputSimple (addr : Address) (coin : Z)
  : BabbageTransactionOutput :=
  mkBabbageOutput addr (mkMaryValue coin None) None None.

Definition NewBabbageOutput (addr : Address) (value : Value)
  (datumOpt : option DatumOption) (scriptRef : option ScriptRef)
  : BabbageTransactionOutput :=
  mkBabbageOutput addr (ToMaryValue value) datumOpt scriptRef.

Definition withDatumOption (o : BabbageTransactionOutput) (d : DatumOption)
  : BabbageTransactionOutput :=
  mkBabbageOutput (OutputAddress o) (OutputAmount o) (Some d) (TxOutScriptRef o).

Module PaymentOps.

(** The loop of [Payment.ToValue] over the units, from the value so far. *)
Fixpoint addUnits (v : Value) (units : list Unit) : result Value :=
  match units with
  | [] => Ok v
  | unit :: rest =>
      if Quantity unit <? 0 then Err "negative asset quantity"
      else
        uv ← wrapErr "invalid unit" (UnitOps.ToValue unit);
        v' ← ValueOps.Add v uv;
        addUnits v' rest
  end.

Definition ToValue (p : Payment) : result Value :=
  if Lovelace p <? 0 then Err "negative lovelace amount"
  else
    let coin := uint64 (Lovelace p) in
    addUnits (NewSimpleValue coin) (Units p).

Definition ToTxOut (p : Payment) : result BabbageTransactionOutput :=
  val ← wrapErr "failed to compute payment value" (ToValue p);
  let output := NewBabbageOutput (Receiver p) val None (PaymentScriptRef p) in
  if IsInline p && negb (isNil (PaymentDatum p)) then
    datumOpt ← wrapErr "failed to create inline datum"
                       (NewDatumOptionInline (PaymentDatum p));
    Ok (withDatumOption output datumOpt)
  else if 0 <? len (DatumHash p) then
    if negb (len (DatumHash p) =? common.Blake2b256Size)
    then Err "invalid datum hash length"
    else
      datumOpt ← wrapErr "failed to create datum hash"
                         (NewDatumOptionHash (DatumHash p));
      Ok (withDatumOption output datumOpt)
  else Ok output.

End PaymentOps.

(* ===================================================================== *)
(** * Output size and minimum lovelace *)
(* ===================================================================== *)

Section MinUtxo.

Variable lib : Library.

Definition OutputCborSize (output : BabbageTransactionOutput) : result Z :=
  cborBytes ← encodeOutput lib output;
  Ok (len cborBytes).

Definition MinLovelacePostAlonzo (output : BabbageTransactionOutput)
  (coinsPerUtxoByte : Z) : result Z :=
  outputSize ← OutputCborSize output;
  let minLovelace := int64 (coinsPerUtxoByte * int64 (outputSize + 160)) in
  Ok minLovelace.

(** The loop of [Payment.EnsureMinUTXO]: at most [rounds] rounds, each
    raising [Lovelace] to the threshold of the current output.  The
    payment is returned as the loop left it, also when it fails. *)
Fixpoint ensureRounds (rounds : nat) (coinsPerUtxoByte : Z) (p : Payment)
  : Payment * result bool :=
  match rounds with
  | O => (p, Ok false)
  | S rounds' =>
      match wrapErr "failed to build tx output" (PaymentOps.ToTxOut p) with
      | Err e => (p, Err e)
      | Ok txOut =>
          match wrapErr "failed to compute min UTxO"
                        (MinLovelacePostAlonzo txOut coinsPerUtxoByte) with
          | Err e => (p, Err e)
          | Ok coins =>
              if coins <=? Lovelace p then (p, Ok true)
              else ensureRounds rounds' coinsPerUtxoByte (setLovelace p coins)
          end
      end
  end.

Definition EnsureMinUTXO (cc : backend.ChainContext) (p : Payment)
  : Payment * result unit :=
  if (Z.of_nat (length (Units p)) =? 0) && (constants.MinLovelace <=? Lovelace p)
     && isNil (PaymentDatum p) && (len (DatumHash p) =? 0)
     && isNil (PaymentScriptRef p)
  then (p, Ok tt)
  else
    match wrapErr "failed to get protocol params" (backend.ProtocolParams cc) with
    | Err e => (p, Err e)
    | Ok pp =>
        let c := backend.CoinsPerUtxoByteValue pp in
        match ensureRounds 3 c p with
        | (p', Err e) => (p', Err e)
        | (p', Ok true) => (p', Ok tt)
        | (p', Ok false) =>
            match wrapErr "failed to build tx output" (PaymentOps.ToTxOut p') with
            | Err e => (p', Err e)
            | Ok txOut =>
                match wrapErr "failed to compute min UTxO"
                              (MinLovelacePostAlonzo txOut c) with
                | Err e => (p', Err e)
                | Ok coins =>
                    if Lovelace p' <? coins
                    then (p', Err "min UTxO did not converge after 3 iterations")
                    else (p', Ok tt)
                end
            end
        end
    end.

End MinUtxo.

Section MinUtxoFacts.

Variable lib : Library.


End MinUtxoFacts.

(* ===================================================================== *)
(** * [apollo.go]: the builder *)
(* ===================================================================== *)

Definition ExMemoryBuffer : Q := (2 # 10)%Q.
Definition ExStepBuffer : Q := (2 # 10)%Q.
Definition StakeDeposit : Z := 2000000.

Record redeemerEntry : Type := mkRedeemerEntry {
  EntryTag : RedeemerTag;
  EntryData : Datum;
  EntryExUnits : ExUnits
}.

Record withdrawalEntry : Type := mkWithdrawalEntry {
  WdAddress : Address;
  WdAmount : Z                         (* uint64 *)
}.

(** Go's [any], at the dynamic types [toMetadatum] distinguishes; a Go
    map is listed by its entries, each key once. *)
Inductive any : Type :=
| AnyMetadatum (m : TransactionMetadatum)
| AnyString (s : string)
| AnyInt (i : Z)
| AnyInt64 (i : Z)
| AnyUint64 (u : Z)
| AnyBytes (b : string)
| AnyMapString (entries : list (string * any))
| AnyMapUint64 (entries : list (Z * any))
| AnySlice (items : list any)
| AnyOther.

Record auxData : Type := mkAuxData { metadata : gmap Z any }.

(** The [Wallet] interface, as far as building a transaction needs it. *)
Record Wallet : Type := mkWallet {
  WalletAddress : Address;
  PubKeyHash : string;
  StakePubKeyHash : string
}.

(** The builder.  Pointers are options, slices are lists, maps are
    finite maps. *)
Record Apollo : Type := mkApollo {
  Context : backend.ChainContext;
  payments : list Payment;
  isEstimateRequired : bool;
  utxos : list Utxo;
  preselectedUtxos : list Utxo;
  inputAddresses : list Address;
  tx : option ConwayTransaction;
  datums : list Datum;
  requiredSigners : list string;
  v1scripts : list string;
  v2scripts : list string;
  v3scripts : list string;
  redeemers : gmap string redeemerEntry;   (* keyed by UTxO reference *)
  stakeRedeemers : gmap string redeemerEntry;   (* keyed by stake key hash, hex *)
  mintRedeemers : gmap string redeemerEntry;   (* keyed by policy id, hex *)
  mint : list Unit;
  collaterals : list Utxo;
  Fee : Z;   (* int64 *)
  FeePadding : Z;
  Ttl : Z;
  ValidityStart : Z;
  totalCollateral : Z;
  referenceInputs : list ShelleyTransactionInput;
  collateralReturn : option BabbageTransactionOutput;
  nativescripts : list string;
  usedUtxos : list string;
  wallet : option Wallet;
  certificates : list CertificateWrapper;
  withdrawals : gmap string withdrawalEntry;   (* keyed by bech32 address *)
  auxiliaryData : option auxData;
  collateralAmount : Z;
  scriptHashes : list string;
  changeAddress : option Address;
  estimateExUnits : bool;
  forceFee : bool
}.

(** Field updates ([a.f = x]). *)
Definition set_Context (a : Apollo) (x : backend.ChainContext) : Apollo :=
  mkApollo x (payments a) (isEstimateRequired a) (utxos a)
    (preselectedUtxos a) (inputAddresses a) (tx a) (datums a)
    (requiredSigners a) (v1scripts a) (v2scripts a) (v3scripts a)
    (redeemers a) (stakeRedeemers a) (mintRedeemers a) (mint a)
    (collaterals a) (Fee a) (FeePadding a) (Ttl a) (ValidityStart a)
    (totalCollateral a) (referenceInputs a) (collateralReturn a)
    (nativescripts a) (usedUtxos a) (wallet a) (certificates a)
    (withdrawals a) (auxiliaryData a) (collateralAmount a) (scriptHashes a)
    (changeAddress a) (estimateExUnits a) (forceFee a).

Definition set_payments (a : Apollo) (x : list Payment) : Apollo :=
  mkApollo (Context a) x (isEstimateRequired a) (utxos a) (preselectedUtxos a)
    (inputAddresses a) (tx a) (datums a) (requiredSigners a) (v1scripts a)
    (v2scripts a) (v3scripts a) (redeemers a) (stakeRedeemers a)
    (mintRedeemers a) (mint a) (collaterals a) (Fee a) (FeePadding a) (Ttl a)
    (ValidityStart a) (totalCollateral a) (referenceInputs a)
    (collateralReturn a) (nativescripts a) (usedUtxos a) (wallet a)
    (certificates a) (withdrawals a) (auxiliaryData a) (collateralAmount a)
    (scriptHashes a) (changeAddress a) (estimateExUnits a) (forceFee a).

Definition set_isEstimateRequired (a : Apollo) (x : bool) : Apollo :=
  mkApollo (Context a) (payments a) x (utxos a) (preselectedUtxos a)
    (inputAddresses a) (tx a) (datums a) (requiredSigners a) (v1scripts a)
    (v2scripts a) (v3scripts a) (redeemers a) (stakeRedeemers a)
    (mintRedeemers a) (mint a) (collaterals a) (Fee a) (FeePadding a) (Ttl a)
    (ValidityStart a) (totalCollateral a) (referenceInputs a)
    (collateralReturn a) (nativescripts a) (usedUtxos a) (wallet a)
    (certificates a) (withdrawals a) (auxiliaryData a) (collateralAmount a)
    (scriptHashes a) (changeAddress a) (estimateExUnits a) (forceFee a).

Definition set_utxos (a : Apollo) (x : list Utxo) : Apollo :=
  mkApollo (Context a) (payments a) (isEstimateRequired a) x
    (preselectedUtxos a) (inputAddresses a) (tx a) (datums a)
    (requiredSigners a) (v1scripts a) (v2scripts a) (v3scripts a)
    (redeemers a) (stakeRedeemers a) (mintRedeemers a) (mint a)
    (collaterals a) (Fee a) (FeePadding a) (Ttl a) (ValidityStart a)
    (totalCollateral a) (referenceInputs a) (collateralReturn a)
    (nativescripts a) (usedUtxos a) (wallet a) (certificates a)
    (withdrawals a) (auxiliaryData a) (collateralAmount a) (scriptHashes a)
    (changeAddress a) (estimateExUnits a) (forceFee a).

Definition set_preselectedUtxos (a : Apollo) (x : list Utxo) : Apollo :=
  mkApollo (Context a) (payments a) (isEstimateRequired a) (utxos a) x
    (inputAddresses a) (tx a) (datums a) (requiredSigners a) (v1scripts a)
    (v2scripts a) (v3scripts a) (redeemers a) (stakeRedeemers a)
    (mintRedeemers a) (mint a) (collaterals a) (Fee a) (FeePadding a) (Ttl a)
    (ValidityStart a) (totalCollateral a) (referenceInputs a)
    (collateralReturn a) (nativescripts a) (usedUtxos a) (wallet a)
    (certificates a) (withdrawals a) (auxiliaryData a) (collateralAmount a)
    (scriptHashes a) (changeAddress a) (estimateExUnits a) (forceFee a).

Definition set_inputAddresses (a : Apollo) (x : list Address) : Apollo :=
  mkApollo (Context a) (payments a) (isEstimateRequired a) (utxos a)
    (preselectedUtxos a) x (tx a) (datums a) (requiredSigners a) (v1scripts a)
    (v2scripts a) (v3scripts a) (redeemers a) (stakeRedeemers a)
    (mintRedeemers a) (mint a) (collaterals a) (Fee a) (FeePadding a) (Ttl a)
    (ValidityStart a) (totalCollateral a) (referenceInputs a)
    (collateralReturn a) (nativescripts a) (usedUtxos a) (wallet a)
    (certificates a) (withdrawals a) (auxiliaryData a) (collateralAmount a)
    (scriptHashes a) (changeAddress a) (estimateExUnits a) (forceFee a).

Definition set_tx (a : Apollo) (x : option ConwayTransaction) : Apollo :=
  mkApollo (Context a) (payments a) (isEstimateRequired a) (utxos a)
    (preselectedUtxos a) (inputAddresses a) x (datums a) (requiredSigners a)
    (v1scripts a) (v2scripts a) (v3scripts a) (redeemers a) (stakeRedeemers a)
    (mintRedeemers a) (mint a) (collaterals a) (Fee a) (FeePadding a) (Ttl a)
    (ValidityStart a) (totalCollateral a) (referenceInputs a)
    (collateralReturn a) (nativescripts a) (usedUtxos a) (wallet a)
    (certificates a) (withdrawals a) (auxiliaryData a) (collateralAmount a)
    (scriptHashes a) (changeAddress a) (estimateExUnits a) (forceFee a).

Definition set_datums (a : Apollo) (x : list Datum) : Apollo :=
  mkApollo (Context a) (payments a) (isEstimateRequired a) (utxos a)
    (preselectedUtxos a) (inputAddresses a) (tx a) x (requiredSigners a)
    (v1scripts a) (v2scripts a) (v3scripts a) (redeemers a) (stakeRedeemers a)
    (mintRedeemers a) (mint a) (collaterals a) (Fee a) (FeePadding a) (Ttl a)
    (ValidityStart a) (totalCollateral a) (referenceInputs a)
    (collateralReturn a) (nativescripts a) (usedUtxos a) (wallet a)
    (certificates a) (withdrawals a) (auxiliaryData a) (collateralAmount a)
    (scriptHashes a) (changeAddress a) (estimateExUnits a) (forceFee a).

Definition set_requiredSigners (a : Apollo) (x : list string) : Apollo :=
  mkApollo (Context a) (payments a) (isEstimateRequired a) (utxos a)
    (preselectedUtxos a) (inputAddresses a) (tx a) (datums a) x (v1scripts a)
    (v2scripts a) (v3scripts a) (redeemers a) (stakeRedeemers a)
    (mintRedeemers a) (mint a) (collaterals a) (Fee a) (FeePadding a) (Ttl a)
    (ValidityStart a) (totalCollateral a) (referenceInputs a)
    (collateralReturn a) (nativescripts a) (usedUtxos a) (wallet a)
    (certificates a) (withdrawals a) (auxiliaryData a) (collateralAmount a)
    (scriptHashes a) (changeAddress a) (estimateExUnits a) (forceFee a).

Definition set_v1scripts (a : Apollo) (x : list string) : Apollo :=
  mkApollo (Context a) (payments a) (isEstimateRequired a) (utxos a)
    (preselectedUtxos a) (inputAddresses a) (tx a) (datums a)
    (requiredSigners a) x (v2scripts a) (v3scripts a) (redeemers a)
    (stakeRedeemers a) (mintRedeemers a) (mint a) (collaterals a) (Fee a)
    (FeePadding a) (Ttl a) (ValidityStart a) (totalCollateral a)
    (referenceInputs a) (collateralReturn a) (nativescripts a) (usedUtxos a)
    (wallet a) (certificates a) (withdrawals a) (auxiliaryData a)
    (collateralAmount a) (scriptHashes a) (changeAddress a)
    (estimateExUnits a) (forceFee a).

Definition set_v2scripts (a : Apollo) (x : list string) : Apollo :=
  mkApollo (Context a) (payments a) (isEstimateRequired a) (utxos a)
    (preselectedUtxos a) (inputAddresses a) (tx a) (datums a)
    (requiredSigners a) (v1scripts a) x (v3scripts a) (redeemers a)
    (stakeRedeemers a) (mintRedeemers a) (mint a) (collaterals a) (Fee a)
    (FeePadding a) (Ttl a) (ValidityStart a) (totalCollateral a)
    (referenceInputs a) (collateralReturn a) (nativescripts a) (usedUtxos a)
    (wallet a) (certificates a) (withdrawals a) (auxiliaryData a)
    (collateralAmount a) (scriptHashes a) (changeAddress a)
    (estimateExUnits a) (forceFee a).

Definition set_v3scripts (a : Apollo) (x : list string) : Apollo :=
  mkApollo (Context a) (payments a) (isEstimateRequired a) (utxos a)
    (preselectedUtxos a) (inputAddresses a) (tx a) (datums a)
    (requiredSigners a) (v1scripts a) (v2scripts a) x (redeemers a)
    (stakeRedeemers a) (mintRedeemers a) (mint a) (collaterals a) (Fee a)
    (FeePadding a) (Ttl a) (ValidityStart a) (totalCollateral a)
    (referenceInputs a) (collateralReturn a) (nativescripts a) (usedUtxos a)
    (wallet a) (certificates a) (withdrawals a) (auxiliaryData a)
    (collateralAmount a) (scriptHashes a) (changeAddress a)
    (estimateExUnits a) (forceFee a).

Definition set_redeemers (a : Apollo) (x : gmap string redeemerEntry) : Apollo :=
  mkApollo (Context a) (payments a) (isEstimateRequired a) (utxos a)
    (preselectedUtxos a) (inputAddresses a) (tx a) (datums a)
    (requiredSigners a) (v1scripts a) (v2scripts a) (v3scripts a) x
    (stakeRedeemers a) (mintRedeemers a) (mint a) (collaterals a) (Fee a)
    (FeePadding a) (Ttl a) (ValidityStart a) (totalCollateral a)
    (referenceInputs a) (collateralReturn a) (nativescripts a) (usedUtxos a)
    (wallet a) (certificates a) (withdrawals a) (auxiliaryData a)
    (collateralAmount a) (scriptHashes a) (changeAddress a)
    (estimateExUnits a) (forceFee a).

Definition set_stakeRedeemers (a : Apollo) (x : gmap string redeemerEntry) : Apollo :=
  mkApollo (Context a) (payments a) (isEstimateRequired a) (utxos a)
    (preselectedUtxos a) (inputAddresses a) (tx a) (datums a)
    (requiredSigners a) (v1scripts a) (v2scripts a) (v3scripts a)
    (redeemers a) x (mintRedeemers a) (mint a) (collaterals a) (Fee a)
    (FeePadding a) (Ttl a) (ValidityStart a) (totalCollateral a)
    (referenceInputs a) (collateralReturn a) (nativescripts a) (usedUtxos a)
    (wallet a) (certificates a) (withdrawals a) (auxiliaryData a)
    (collateralAmount a) (scriptHashes a) (changeAddress a)
    (estimateExUnits a) (forceFee a).

Definition set_mintRedeemers (a : Apollo) (x : gmap string redeemerEntry) : Apollo :=
  mkApollo (Context a) (payments a) (isEstimateRequired a) (utxos a)
    (preselectedUtxos a) (inputAddresses a) (tx a) (datums a)
    (requiredSigners a) (v1scripts a) (v2scripts a) (v3scripts a)
    (redeemers a) (stakeRedeemers a) x (mint a) (collaterals a) (Fee a)
    (FeePadding a) (Ttl a) (ValidityStart a) (totalCollateral a)
    (referenceInputs a) (collateralReturn a) (nativescripts a) (usedUtxos a)
    (wallet a) (certificates a) (withdrawals a) (auxiliaryData a)
    (collateralAmount a) (scriptHashes a) (changeAddress a)
    (estimateExUnits a) (forceFee a).

Definition set_mint (a : Apollo) (x : list Unit) : Apollo :=
  mkApollo (Context a) (payments a) (isEstimateRequired a) (utxos a)
    (preselectedUtxos a) (inputAddresses a) (tx a) (datums a)
    (requiredSigners a) (v1scripts a) (v2scripts a) (v3scripts a)
    (redeemers a) (stakeRedeemers a) (mintRedeemers a) x (collaterals a)
    (Fee a) (FeePadding a) (Ttl a) (ValidityStart a) (totalCollateral a)
    (referenceInputs a) (collateralReturn a) (nativescripts a) (usedUtxos a)
    (wallet a) (certificates a) (withdrawals a) (auxiliaryData a)
    (collateralAmount a) (scriptHashes a) (changeAddress a)
    (estimateExUnits a) (forceFee a).

Definition set_collaterals (a : Apollo) (x : list Utxo) : Apollo :=
  mkApollo (Context a) (payments a) (isEstimateRequired a) (utxos a)
    (preselectedUtxos a) (inputAddresses a) (tx a) (datums a)
    (requiredSigners a) (v1scripts a) (v2scripts a) (v3scripts a)
    (redeemers a) (stakeRedeemers a) (mintRedeemers a) (mint a) x (Fee a)
    (FeePadding a) (Ttl a) (ValidityStart a) (totalCollateral a)
    (referenceInputs a) (collateralReturn a) (nativescripts a) (usedUtxos a)
    (wallet a) (certificates a) (withdrawals a) (auxiliaryData a)
    (collateralAmount a) (scriptHashes a) (changeAddress a)
    (estimateExUnits a) (forceFee a).

Definition set_Fee (a : Apollo) (x : Z) : Apollo :=
  mkApollo (Context a) (payments a) (isEstimateRequired a) (utxos a)
    (preselectedUtxos a) (inputAddresses a) (tx a) (datums a)
    (requiredSigners a) (v1scripts a) (v2scripts a) (v3scripts a)
    (redeemers a) (stakeRedeemers a) (mintRedeemers a) (mint a)
    (collaterals a) x (FeePadding a) (Ttl a) (ValidityStart a)
    (totalCollateral a) (referenceInputs a) (collateralReturn a)
    (nativescripts a) (usedUtxos a) (wallet a) (certificates a)
    (withdrawals a) (auxiliaryData a) (collateralAmount a) (scriptHashes a)
    (changeAddress a) (estimateExUnits a) (forceFee a).

Definition set_FeePadding (a : Apollo) (x : Z) : Apollo :=
  mkApollo (Context a) (payments a) (isEstimateRequired a) (utxos a)
    (preselectedUtxos a) (inputAddresses a) (tx a) (datums a)
    (requiredSigners a) (v1scripts a) (v2scripts a) (v3scripts a)
    (redeemers a) (stakeRedeemers a) (mintRedeemers a) (mint a)
    (collaterals a) (Fee a) x (Ttl a) (ValidityStart a) (totalCollateral a)
    (referenceInputs a) (collateralReturn a) (nativescripts a) (usedUtxos a)
    (wallet a) (certificates a) (withdrawals a) (auxiliaryData a)
    (collateralAmount a) (scriptHashes a) (changeAddress a)
    (estimateExUnits a) (forceFee a).

Definition set_Ttl (a : Apollo) (x : Z) : Apollo :=
  mkApollo (Context a) (payments a) (isEstimateRequired a) (utxos a)
    (preselectedUtxos a) (inputAddresses a) (tx a) (datums a)
    (requiredSigners a) (v1scripts a) (v2scripts a) (v3scripts a)
    (redeemers a) (stakeRedeemers a) (mintRedeemers a) (mint a)
    (collaterals a) (Fee a) (FeePadding a) x (ValidityStart a)
    (totalCollateral a) (referenceInputs a) (collateralReturn a)
    (nativescripts a) (usedUtxos a) (wallet a) (certificates a)
    (withdrawals a) (auxiliaryData a) (collateralAmount a) (scriptHashes a)
    (changeAddress a) (estimateExUnits a) (forceFee a).

Definition set_ValidityStart (a : Apollo) (x : Z) : Apollo :=
  mkApollo (Context a) (payments a) (isEstimateRequired a) (utxos a)
    (preselectedUtxos a) (inputAddresses a) (tx a) (datums a)
    (requiredSigners a) (v1scripts a) (v2scripts a) (v3scripts a)
    (redeemers a) (stakeRedeemers a) (mintRedeemers a) (mint a)
    (collaterals a) (Fee a) (FeePadding a) (Ttl a) x (totalCollateral a)
    (referenceInputs a) (collateralReturn a) (nativescripts a) (usedUtxos a)
    (wallet a) (certificates a) (withdrawals a) (auxiliaryData a)
    (collateralAmount a) (scriptHashes a) (changeAddress a)
    (estimateExUnits a) (forceFee a).

Definition set_totalCollateral (a : Apollo) (x : Z) : Apollo :=
  mkApollo (Context a) (payments a) (isEstimateRequired a) (utxos a)
    (preselectedUtxos a) (inputAddresses a) (tx a) (datums a)
    (requiredSigners a) (v1scripts a) (v2scripts a) (v3scripts a)
    (redeemers a) (stakeRedeemers a) (mintRedeemers a) (mint a)
    (collaterals a) (Fee a) (FeePadding a) (Ttl a) (ValidityStart a) x
    (referenceInputs a) (collateralReturn a) (nativescripts a) (usedUtxos a)
    (wallet a) (certificates a) (withdrawals a) (auxiliaryData a)
    (collateralAmount a) (scriptHashes a) (changeAddress a)
    (estimateExUnits a) (forceFee a).

Definition set_referenceInputs (a : Apollo) (x : list ShelleyTransactionInput) : Apollo :=
  mkApollo (Context a) (payments a) (isEstimateRequired a) (utxos a)
    (preselectedUtxos a) (inputAddresses a) (tx a) (datums a)
    (requiredSigners a) (v1scripts a) (v2scripts a) (v3scripts a)
    (redeemers a) (stakeRedeemers a) (mintRedeemers a) (mint a)
    (collaterals a) (Fee a) (FeePadding a) (Ttl a) (ValidityStart a)
    (totalCollateral a) x (collateralReturn a) (nativescripts a) (usedUtxos a)
    (wallet a) (certificates a) (withdrawals a) (auxiliaryData a)
    (collateralAmount a) (scriptHashes a) (changeAddress a)
    (estimateExUnits a) (forceFee a).

Definition set_collateralReturn (a : Apollo) (x : option BabbageTransactionOutput) : Apollo :=
  mkApollo (Context a) (payments a) (isEstimateRequired a) (utxos a)
    (preselectedUtxos a) (inputAddresses a) (tx a) (datums a)
    (requiredSigners a) (v1scripts a) (v2scripts a) (v3scripts a)
    (redeemers a) (stakeRedeemers a) (mintRedeemers a) (mint a)
    (collaterals a) (Fee a) (FeePadding a) (Ttl a) (ValidityStart a)
    (totalCollateral a) (referenceInputs a) x (nativescripts a) (usedUtxos a)
    (wallet a) (certificates a) (withdrawals a) (auxiliaryData a)
    (collateralAmount a) (scriptHashes a) (changeAddress a)
    (estimateExUnits a) (forceFee a).

Definition set_nativescripts (a : Apollo) (x : list string) : Apollo :=
  mkApollo (Context a) (payments a) (isEstimateRequired a) (utxos a)
    (preselectedUtxos a) (inputAddresses a) (tx a) (datums a)
    (requiredSigners a) (v1scripts a) (v2scripts a) (v3scripts a)
    (redeemers a) (stakeRedeemers a) (mintRedeemers a) (mint a)
    (collaterals a) (Fee a) (FeePadding a) (Ttl a) (ValidityStart a)
    (totalCollateral a) (referenceInputs a) (collateralReturn a) x
    (usedUtxos a) (wallet a) (certificates a) (withdrawals a)
    (auxiliaryData a) (collateralAmount a) (scriptHashes a) (changeAddress a)
    (estimateExUnits a) (forceFee a).

Definition set_usedUtxos (a : Apollo) (x : list string) : Apollo :=
  mkApollo (Context a) (payments a) (isEstimateRequired a) (utxos a)
    (preselectedUtxos a) (inputAddresses a) (tx a) (datums a)
    (requiredSigners a) (v1scripts a) (v2scripts a) (v3scripts a)
    (redeemers a) (stakeRedeemers a) (mintRedeemers a) (mint a)
    (collaterals a) (Fee a) (FeePadding a) (Ttl a) (ValidityStart a)
    (totalCollateral a) (referenceInputs a) (collateralReturn a)
    (nativescripts a) x (wallet a) (certificates a) (withdrawals a)
    (auxiliaryData a) (collateralAmount a) (scriptHashes a) (changeAddress a)
    (estimateExUnits a) (forceFee a).

Definition set_wallet (a : Apollo) (x : option Wallet) : Apollo :=
  mkApollo (Context a) (payments a) (isEstimateRequired a) (utxos a)
    (preselectedUtxos a) (inputAddresses a) (tx a) (datums a)
    (requiredSigners a) (v1scripts a) (v2scripts a) (v3scripts a)
    (redeemers a) (stakeRedeemers a) (mintRedeemers a) (mint a)
    (collaterals a) (Fee a) (FeePadding a) (Ttl a) (ValidityStart a)
    (totalCollateral a) (referenceInputs a) (collateralReturn a)
    (nativescripts a) (usedUtxos a) x (certificates a) (withdrawals a)
    (auxiliaryData a) (collateralAmount a) (scriptHashes a) (changeAddress a)
    (estimateExUnits a) (forceFee a).

Definition set_certificates (a : Apollo) (x : list CertificateWrapper) : Apollo :=
  mkApollo (Context a) (payments a) (isEstimateRequired a) (utxos a)
    (preselectedUtxos a) (inputAddresses a) (tx a) (datums a)
    (requiredSigners a) (v1scripts a) (v2scripts a) (v3scripts a)
    (redeemers a) (stakeRedeemers a) (mintRedeemers a) (mint a)
    (collaterals a) (Fee a) (FeePadding a) (Ttl a) (ValidityStart a)
    (totalCollateral a) (referenceInputs a) (collateralReturn a)
    (nativescripts a) (usedUtxos a) (wallet a) x (withdrawals a)
    (auxiliaryData a) (collateralAmount a) (scriptHashes a) (changeAddress a)
    (estimateExUnits a) (forceFee a).

Definition set_withdrawals (a : Apollo) (x : gmap string withdrawalEntry) : Apollo :=
  mkApollo (Context a) (payments a) (isEstimateRequired a) (utxos a)
    (preselectedUtxos a) (inputAddresses a) (tx a) (datums a)
    (requiredSigners a) (v1scripts a) (v2scripts a) (v3scripts a)
    (redeemers a) (stakeRedeemers a) (mintRedeemers a) (mint a)
    (collaterals a) (Fee a) (FeePadding a) (Ttl a) (ValidityStart a)
    (totalCollateral a) (referenceInputs a) (collateralReturn a)
    (nativescripts a) (usedUtxos a) (wallet a) (certificates a) x
    (auxiliaryData a) (collateralAmount a) (scriptHashes a) (changeAddress a)
    (estimateExUnits a) (forceFee a).

Definition set_auxiliaryData (a : Apollo) (x : option auxData) : Apollo :=
  mkApollo (Context a) (payments a) (isEstimateRequired a) (utxos a)
    (preselectedUtxos a) (inputAddresses a) (tx a) (datums a)
    (requiredSigners a) (v1scripts a) (v2scripts a) (v3scripts a)
    (redeemers a) (stakeRedeemers a) (mintRedeemers a) (mint a)
    (collaterals a) (Fee a) (FeePadding a) (Ttl a) (ValidityStart a)
    (totalCollateral a) (referenceInputs a) (collateralReturn a)
    (nativescripts a) (usedUtxos a) (wallet a) (certificates a)
    (withdrawals a) x (collateralAmount a) (scriptHashes a) (changeAddress a)
    (estimateExUnits a) (forceFee a).

Definition set_collateralAmount (a : Apollo) (x : Z) : Apollo :=
  mkApollo (Context a) (payments a) (isEstimateRequired a) (utxos a)
    (preselectedUtxos a) (inputAddresses a) (tx a) (datums a)
    (requiredSigners a) (v1scripts a) (v2scripts a) (v3scripts a)
    (redeemers a) (stakeRedeemers a) (mintRedeemers a) (mint a)
    (collaterals a) (Fee a) (FeePadding a) (Ttl a) (ValidityStart a)
    (totalCollateral a) (referenceInputs a) (collateralReturn a)
    (nativescripts a) (usedUtxos a) (wallet a) (certificates a)
    (withdrawals a) (auxiliaryData a) x (scriptHashes a) (changeAddress a)
    (estimateExUnits a) (forceFee a).

Definition set_scriptHashes (a : Apollo) (x : list string) : Apollo :=
  mkApollo (Context a) (payments a) (isEstimateRequired a) (utxos a)
    (preselectedUtxos a) (inputAddresses a) (tx a) (datums a)
    (requiredSigners a) (v1scripts a) (v2scripts a) (v3scripts a)
    (redeemers a) (stakeRedeemers a) (mintRedeemers a) (mint a)
    (collaterals a) (Fee a) (FeePadding a) (Ttl a) (ValidityStart a)
    (totalCollateral a) (referenceInputs a) (collateralReturn a)
    (nativescripts a) (usedUtxos a) (wallet a) (certificates a)
    (withdrawals a) (auxiliaryData a) (collateralAmount a) x (changeAddress a)
    (estimateExUnits a) (forceFee a).

Definition set_changeAddress (a : Apollo) (x : option Address) : Apollo :=
  mkApollo (Context a) (payments a) (isEstimateRequired a) (utxos a)
    (preselectedUtxos a) (inputAddresses a) (tx a) (datums a)
    (requiredSigners a) (v1scripts a) (v2scripts a) (v3scripts a)
    (redeemers a) (stakeRedeemers a) (mintRedeemers a) (mint a)
    (collaterals a) (Fee a) (FeePadding a) (Ttl a) (ValidityStart a)
    (totalCollateral a) (referenceInputs a) (collateralReturn a)
    (nativescripts a) (usedUtxos a) (wallet a) (certificates a)
    (withdrawals a) (auxiliaryData a) (collateralAmount a) (scriptHashes a) x
    (estimateExUnits a) (forceFee a).

Definition set_estimateExUnits (a : Apollo) (x : bool) : Apollo :=
  mkApollo (Context a) (payments a) (isEstimateRequired a) (utxos a)
    (preselectedUtxos a) (inputAddresses a) (tx a) (datums a)
    (requiredSigners a) (v1scripts a) (v2scripts a) (v3scripts a)
    (redeemers a) (stakeRedeemers a) (mintRedeemers a) (mint a)
    (collaterals a) (Fee a) (FeePadding a) (Ttl a) (ValidityStart a)
    (totalCollateral a) (referenceInputs a) (collateralReturn a)
    (nativescripts a) (usedUtxos a) (wallet a) (certificates a)
    (withdrawals a) (auxiliaryData a) (collateralAmount a) (scriptHashes a)
    (changeAddress a) x (forceFee a).

Definition set_forceFee (a : Apollo) (x : bool) : Apollo :=
  mkApollo (Context a) (payments a) (isEstimateRequired a) (utxos a)
    (preselectedUtxos a) (inputAddresses a) (tx a) (datums a)
    (requiredSigners a) (v1scripts a) (v2scripts a) (v3scripts a)
    (redeemers a) (stakeRedeemers a) (mintRedeemers a) (mint a)
    (collaterals a) (Fee a) (FeePadding a) (Ttl a) (ValidityStart a)
    (totalCollateral a) (referenceInputs a) (collateralReturn a)
    (nativescripts a) (usedUtxos a) (wallet a) (certificates a)
    (withdrawals a) (auxiliaryData a) (collateralAmount a) (scriptHashes a)
    (changeAddress a) (estimateExUnits a) x.

(* --------------------------------------------------------------------- *)
(** ** Sorting *)
(* --------------------------------------------------------------------- *)

(** [sort.Slice], [sort.Strings] and [slices.Sort] are modelled by
    insertion with the given [less].  Where [less] orders the elements
    totally, as for strings and integers, the sorted slice is unique;
    elsewhere Go leaves the order of ties open and the model fixes one. *)
Fixpoint insertSorted {A} (less : A -> A -> bool) (x : A) (l : list A) : list A :=
  match l with
  | [] => [x]
  | y :: rest => if less y x then y :: insertSorted less x rest else x :: y :: rest
  end.

Definition sortSlice {A} (less : A -> A -> bool) (l : list A) : list A :=
  foldr (insertSorted less) [] l.

Definition sortStrings (l : list string) : list string := sortSlice String.ltb l.

Definition sortUint64 (l : list Z) : list Z := sortSlice Z.ltb l.

(** [slices.Contains] on strings. *)
Definition containsString (l : list string) (s : string) : bool :=
  existsb (String.eqb s) l.

(** The position of the first element a linear scan accepts. *)
Fixpoint findIndex {A} (p : A -> bool) (l : list A) : option nat :=
  match l with
  | [] => None
  | x :: rest => if p x then Some O else S <$> findIndex p rest
  end.

(* --------------------------------------------------------------------- *)
(** ** The utilities file: sorting UTxOs *)
(* --------------------------------------------------------------------- *)

Definition cmpGt (x y : Z) : bool := y <? x.      (* x.Cmp(y) > 0 *)

(** The [less] of [SortUtxos]: ADA-only outputs first, larger amounts
    first within each group. *)
Definition lessUtxos (i j : Utxo) : bool :=
  let iHasAssets := negb (isNil (OutAssets (Output i))) in
  let jHasAssets := negb (isNil (OutAssets (Output j))) in
  let byAmount :=
    match OutAmount (Output i), OutAmount (Output j) with
    | Some iAmt, Some jAmt => cmpGt iAmt jAmt
    | _, _ => false
    end in
  if negb iHasAssets && negb jHasAssets then byAmount
  else if iHasAssets && jHasAssets then byAmount
  else jHasAssets.

Definition SortUtxos (utxos : list Utxo) : list Utxo := sortSlice lessUtxos utxos.

(** The [less] of [SortInputs]: by hex transaction id, then by index. *)
Definition lessInputs (i j : Utxo) : bool :=
  let iId := hex.EncodeToString (TxId (Id i)) in
  let jId := hex.EncodeToString (TxId (Id j)) in
  if negb (String.eqb iId jId) then String.ltb iId jId
  else OutputIndex (Id i) <? OutputIndex (Id j).

Definition SortInputs (inputs : list Utxo) : list Utxo := sortSlice lessInputs inputs.

(* --------------------------------------------------------------------- *)
(** ** Builder methods *)
(* --------------------------------------------------------------------- *)

Definition New (cc : backend.ChainContext) : Apollo :=
  mkApollo cc [] false [] [] [] None [] [] [] [] [] ∅ ∅ ∅ [] [] 0 0 0 0 0 []
           None [] [] None [] ∅ None 0 [] None true false.

Definition SetWallet (a : Apollo) (w : Wallet) : Apollo := set_wallet a (Some w).

Definition AddPayment (a : Apollo) (payment : Payment) : Apollo :=
  set_payments a (payments a ++ [payment]).

Definition AddLoadedUTxOs (a : Apollo) (us : list Utxo) : Apollo :=
  set_utxos a (utxos a ++ us).

Definition AddInput (a : Apollo) (utxo : Utxo) : Apollo :=
  set_preselectedUtxos a (preselectedUtxos a ++ [utxo]).

Definition AddInputAddress (a : Apollo) (addr : Address) : Apollo :=
  set_inputAddresses a (inputAddresses a ++ [addr]).

Definition AddRequiredSigner (a : Apollo) (pkh : string) : Apollo :=
  set_requiredSigners a (requiredSigners a ++ [pkh]).

Definition SetTtl (a : Apollo) (ttl : Z) : Apollo := set_Ttl a ttl.

Definition SetValidityStart (a : Apollo) (start : Z) : Apollo :=
  set_ValidityStart a start.

Definition SetFee (a : Apollo) (fee : Z) : Apollo := set_Fee a fee.

Definition SetFeePadding (a : Apollo) (padding : Z) : Apollo :=
  set_FeePadding a padding.

Definition ForceFee (a : Apollo) (fee : Z) : Apollo :=
  set_forceFee (set_Fee a fee) true.

Definition SetChangeAddress (a : Apollo) (addr : Address) : Apollo :=
  set_changeAddress a (Some addr).

Definition AddCollateral (a : Apollo) (utxo : Utxo) : Apollo :=
  set_collaterals a (collaterals a ++ [utxo]).

Definition AddDatum (a : Apollo) (datum : option Datum) : Apollo :=
  match datum with
  | Some d => set_datums a (datums a ++ [d])
  | None => a
  end.

Definition SetCollateralAmount (a : Apollo) (amount : Z) : Apollo :=
  set_collateralAmount a amount.

Definition DisableExecutionUnitsEstimation (a : Apollo) : Apollo :=
  set_estimateExUnits a false.

Definition SetShelleyMetadata (a : Apollo) (md : gmap Z any) : Apollo :=
  set_auxiliaryData a (Some (mkAuxData md)).

(** [Mint]: the unit joins the mint list; with a redeemer, its entry is
    stored under the unit's policy id. *)
Definition Mint (a : Apollo) (unit : Unit) (redeemer : option Datum)
  (exUnits : option ExUnits) : Apollo :=
  let a := set_mint a (mint a ++ [unit]) in
  match redeemer with
  | Some r =>
      let eu := match exUnits with Some e => e | None => mkExUnits 0 0 end in
      let a := set_mintRedeemers a
                 (<[PolicyId unit := mkRedeemerEntry RedeemerTagMint r eu]>
                    (mintRedeemers a)) in
      set_isEstimateRequired a true
  | None => a
  end.

Definition utxoRef (utxo : Utxo) : string :=
  (hex.EncodeToString (TxId (Id utxo)) ++ "#"
     ++ strconv.Itoa (OutputIndex (Id utxo)))%string.

Definition CollectFrom (a : Apollo) (utxo : Utxo) (redeemer : Datum)
  (exUnits : ExUnits) : Apollo :=
  let a := set_isEstimateRequired a true in
  let a := set_preselectedUtxos a (preselectedUtxos a ++ [utxo]) in
  let ref := utxoRef utxo in
  set_redeemers a
    (<[ref := mkRedeemerEntry RedeemerTagSpend redeemer exUnits]> (redeemers a)).

Definition AddWithdrawal (a : Apollo) (address : Address) (amount : Z)
  (redeemerData : option Datum) (exUnits : option ExUnits) : Apollo :=
  let a := set_withdrawals a
             (<[AddrString address := mkWithdrawalEntry address amount]>
                (withdrawals a)) in
  match redeemerData with
  | Some r =>
      let key := hex.EncodeToString (StakeKeyHash address) in
      let eu := match exUnits with Some e => e | None => mkExUnits 0 0 end in
      let a := set_stakeRedeemers a
                 (<[key := mkRedeemerEntry RedeemerTagReward r eu]>
                    (stakeRedeemers a)) in
      set_isEstimateRequired a true
  | None => a
  end.

Definition hasScriptHash (a : Apollo) (hash : string) : bool :=
  containsString (scriptHashes a) hash.

(** [AttachScript]: a script not attached before joins the list of its
    kind. *)
Definition AttachScript (lib : Library) (a : Apollo) (script : Script) : Apollo :=
  let hash := scriptHash lib script in
  if hasScriptHash a hash then a
  else
    let a := set_scriptHashes a (scriptHashes a ++ [hash]) in
    match script with
    | PlutusV1Script s => set_v1scripts a (v1scripts a ++ [s])
    | PlutusV2Script s => set_v2scripts a (v2scripts a ++ [s])
    | PlutusV3Script s => set_v3scripts a (v3scripts a ++ [s])
    | NativeScript s => set_nativescripts a (nativescripts a ++ [s])
    end.

Definition GetUsedUTxOs (a : Apollo) : list string := usedUtxos a.

Definition GetTx (a : Apollo) : option ConwayTransaction := tx a.

(* --------------------------------------------------------------------- *)
(** ** Internal helpers of [Complete] *)
(* --------------------------------------------------------------------- *)

Definition isUsed (a : Apollo) (ref : string) : bool :=
  if containsString (usedUtxos a) ref then true
  else existsb (fun utxo => String.eqb (utxoRef utxo) ref) (preselectedUtxos a).

(** The nil wallet makes the Go method panic; [Complete] rules it out
    before any call, and the model answers [None] there. *)
Definition getChangeAddress (a : Apollo) : option Address :=
  match changeAddress a with
  | Some addr => Some addr
  | None => WalletAddress <$> wallet a
  end.

Definition hasScripts (a : Apollo) : bool :=
  (0 <? Z.of_nat (length (v1scripts a))) || (0 <? Z.of_nat (length (v2scripts a)))
  || (0 <? Z.of_nat (length (v3scripts a)))
  || (0 <? Z.of_nat (size (redeemers a))) || (0 <? Z.of_nat (size (mintRedeemers a)))
  || (0 <? Z.of_nat (size (stakeRedeemers a))).

Definition hasMint (a : Apollo) : bool := 0 <? Z.of_nat (length (mint a)).

(** The loop of [mintValue], from the total so far. *)
Fixpoint addMintUnits (total : Value) (units : list Unit) : result Value :=
  match units with
  | [] => Ok total
  | unit :: rest =>
      uv ← wrapErr "invalid mint unit" (UnitOps.ToValue unit);
      total' ← wrapErr "mint value overflow" (ValueOps.Add total uv);
      addMintUnits total' rest
  end.

Definition mintValue (a : Apollo) : result Value := addMintUnits emptyValue (mint a).

Definition GetBurns (a : Apollo) : result Value := mintValue a.
Definition GetMints (a : Apollo) : result Value := mintValue a.

(** The loop of [buildMintAsset], from the map built so far. *)
Fixpoint addMintAssets (data : common.MultiAsset) (units : list Unit)
  : result common.MultiAsset :=
  match units with
  | [] => Ok data
  | unit :: rest =>
      policyBytes ← wrapErr "invalid mint policy ID hex" (hex.DecodeString (PolicyId unit));
      if negb (len policyBytes =? common.Blake2b224Size)
      then Err "invalid policy ID length"
      else
        nameBytes ← wrapErr "invalid asset name hex" (hex.DecodeString (Name unit));
        let assets := default ∅ (data !! policyBytes) in
        let qty :=
          match assets !! nameBytes with
          | Some existing => existing + Quantity unit
          | None => Quantity unit
          end in
        addMintAssets (<[policyBytes := <[nameBytes := qty]> assets]> data) rest
  end.

Definition buildMintAsset (a : Apollo) : result common.MultiAsset :=
  data ← addMintAssets ∅ (mint a);
  Ok (common.NewMultiAsset data).

(** The loop of [sortedMintPolicyIds]: the policy ids in order of first
    appearance, each once. *)
Fixpoint uniquePolicies (seen : list string) (units : list Unit) : list string :=
  match units with
  | [] => []
  | unit :: rest =>
      if containsString seen (PolicyId unit) then uniquePolicies seen rest
      else PolicyId unit :: uniquePolicies (PolicyId unit :: seen) rest
  end.

Definition sortedMintPolicyIds (a : Apollo) : list string :=
  let policies := uniquePolicies [] (mint a) in
  sortStrings policies.

(** [totalWithdrawalValue]: the sum saturates at the largest [uint64]. *)
Definition totalWithdrawalValue (a : Apollo) : Value :=
  let total :=
    map_fold (fun (_ : string) (wd : withdrawalEntry) (total : Z) =>
                if total =? MaxUint64 then total
                else
                  let sum := uint64 (total + WdAmount wd) in
                  if sum <? total then MaxUint64 else sum)
             0 (withdrawals a) in
  NewSimpleValue total.

(** [bytes.Compare(x, y) < 0]; an address that fails to encode sorts as
    the empty byte string. *)
Definition lessWithdrawals (x y : string * string) : bool := String.ltb x.2 y.2.

Definition sortedWithdrawalKeys (a : Apollo) : list string :=
  let entries :=
    (fun kw : string * withdrawalEntry =>
       (kw.1, match AddrBytes (WdAddress kw.2) with
              | Ok b => b
              | Err _ => ""%string
              end)) <$> map_to_list (withdrawals a) in
  (sortSlice lessWithdrawals entries).*1.

Definition certificateDepositAdjustment (a : Apollo) (depositPerCert : Z) : Z :=
  foldl (fun (adjustment : Z) (cert : CertificateWrapper) =>
           let t := CertType cert in
           if (t =? CertificateType.StakeRegistration)
              || (t =? CertificateType.Registration)
              || (t =? CertificateType.StakeRegistrationDelegation)
              || (t =? CertificateType.VoteRegistrationDelegation)
              || (t =? CertificateType.StakeVoteRegistrationDelegation)
           then int64 (adjustment + depositPerCert)
           else if (t =? CertificateType.StakeDeregistration)
                   || (t =? CertificateType.Deregistration)
           then int64 (adjustment - depositPerCert)
           else adjustment)
        0 (certificates a).

Definition adjustForCertificateDeposits (a : Apollo) (required : Value)
  (depositPerCert : Z) : Value :=
  let adj := certificateDepositAdjustment a depositPerCert in
  if 0 <? adj then mkValue (uint64 (Coin required + uint64 adj)) (Assets required)
  else required.

Definition certificateRefundValue (a : Apollo) (depositPerCert : Z) : Value :=
  let adj := certificateDepositAdjustment a depositPerCert in
  if adj <? 0 then NewSimpleValue (uint64 (int64 (- adj)))
  else NewSimpleValue 0.

(** [sumUtxoValues]: the coin saturates, quantities add up. *)
Definition sumUtxoValues (us : list Utxo) : Value :=
  foldl (fun (total : Value) (utxo : Utxo) =>
           let coin :=
             match OutAmount (Output utxo) with
             | Some amt =>
                 let sum := uint64 (Coin total + uint64 amt) in
                 if sum <? Coin total then MaxUint64 else sum
             | None => Coin total
             end in
           let assets :=
             match OutAssets (Output utxo) with
             | Some ua =>
                 match Assets total with
                 | None => CloneMultiAsset (OutAssets (Output utxo))
                 | Some ta => Some (common.Add ta ua)
                 end
             | None => Assets total
             end in
           mkValue coin assets)
        emptyValue us.

Definition totalPreselectedValue (a : Apollo) : Value :=
  sumUtxoValues (preselectedUtxos a).

Definition totalOutputValue (outputs : list BabbageTransactionOutput) : result Value :=
  foldl (fun (acc : result Value) (out : BabbageTransactionOutput) =>
           total ← acc;
           wrapErr "output value overflow"
                   (ValueOps.Add total (ValueFromMaryValue (OutputAmount out))))
        (Ok emptyValue) outputs.

(** [loadUtxos]: the UTxOs of every input address join the pool; with
    nothing loaded and nothing preselected, the wallet's UTxOs are the
    pool.  An error leaves what was loaded before it. *)
Fixpoint loadAddresses (a : Apollo) (addrs : list Address) : Apollo * result unit :=
  match addrs with
  | [] => (a, Ok tt)
  | addr :: rest =>
      match wrapErr "failed to load UTxOs" (backend.Utxos (Context a) addr) with
      | Err e => (a, Err e)
      | Ok us => loadAddresses (set_utxos a (utxos a ++ us)) rest
      end
  end.

Definition loadUtxos (a : Apollo) : Apollo * result unit :=
  match loadAddresses a (inputAddresses a) with
  | (a, Err e) => (a, Err e)
  | (a, Ok _) =>
      match wallet a with
      | Some w =>
          if (Z.of_nat (length (utxos a)) =? 0)
             && (Z.of_nat (length (preselectedUtxos a)) =? 0)
          then
            match wrapErr "failed to load wallet UTxOs"
                          (backend.Utxos (Context a) (WalletAddress w)) with
            | Err e => (a, Err e)
            | Ok us => (set_utxos a us, Ok tt)
            end
          else (a, Ok tt)
      | None => (a, Ok tt)
      end
  end.

(** The collateral target of [setCollateral] (its variable
    [minCollateral]): the caller's amount when positive, else
    [maxFee * collateralPercent / 100] in [int64] arithmetic when the
    parameters are available and that is positive, else 5 ADA. *)
Definition minCollateral (a : Apollo) : Z :=
  let fallback := 5000000 in
  if 0 <? collateralAmount a then collateralAmount a
  else
    match backend.ProtocolParams (Context a) with
    | Ok pp =>
        match backend.MaxTxFee (Context a) with
        | Ok maxFee =>
            if 0 <? backend.CollateralPercent pp then
              let computed :=
                (int64 (int64 maxFee * int64 (backend.CollateralPercent pp))) ÷ 100 in
              if 0 <? computed then computed else fallback
            else fallback
        | Err _ => fallback
        end
    | Err _ => fallback
    end.

(** The scan of [setCollateral] over the candidates. *)
Fixpoint pickCollateral (a : Apollo) (target : Z) (candidates : list Utxo) : Apollo :=
  match candidates with
  | [] => a
  | utxo :: rest =>
      if isUsed a (utxoRef utxo) then pickCollateral a target rest
      else if negb (isNil (OutAssets (Output utxo))) then pickCollateral a target rest
      else
        match OutAmount (Output utxo) with
        | None => pickCollateral a target rest
        | Some amt =>
            if negb ((MinInt64 <=? amt) && (amt <=? MaxInt64))
            then pickCollateral a target rest
            else
              let lovelace := amt in
              if target <=? lovelace then
                let a := set_collaterals a (collaterals a ++ [utxo]) in
                let a := set_usedUtxos a (usedUtxos a ++ [utxoRef utxo]) in
                let a := set_totalCollateral a target in
                let remainder := int64 (lovelace - target) in
                if 0 <? remainder then
                  match getChangeAddress a with
                  | Some changeAddr =>
                      let returnVal := mkValue (uint64 remainder) None in
                      let ret := NewBabbageOutput changeAddr returnVal None None in
                      set_collateralReturn a (Some ret)
                  | None => a
                  end
                else a
              else pickCollateral a target rest
        end
  end.

Definition setCollateral (a : Apollo) : Apollo :=
  if (0 <? Z.of_nat (length (collaterals a))) || negb (hasScripts a) then a
  else
    let target := minCollateral a in
    let candidates :=
      match wallet a with
      | Some w =>
          if Z.of_nat (length (utxos a)) =? 0 then
            match backend.Utxos (Context a) (WalletAddress w) with
            | Ok loaded => loaded
            | Err _ => utxos a
            end
          else utxos a
      | None => utxos a
      end in
    pickCollateral a target candidates.

(** What one selected UTxO leaves of the remaining requirement. *)
Definition consume (remaining : Value) (utxo : Utxo) : Value :=
  let coin :=
    match OutAmount (Output utxo) with
    | Some amt =>
        if Coin remaining <=? uint64 amt then 0
        else uint64 (Coin remaining - uint64 amt)
    | None => Coin remaining
    end in
  let assets :=
    match Assets remaining, OutAssets (Output utxo) with
    | Some _, Some _ => subtractAssetsSaturating (Assets remaining) (OutAssets (Output utxo))
    | _, _ => Assets remaining
    end in
  mkValue coin assets.

(** The loop of [selectCoins] over the sorted pool.  The references are
    appended to [usedUtxos] only when the selection succeeds. *)
Fixpoint selectLoop (a : Apollo) (sorted : list Utxo) (remaining : Value)
  (selected : list Utxo) (selectedRefs : list string)
  : Apollo * result (list Utxo) :=
  match sorted with
  | [] =>
      if (0 <? Coin remaining) || ValueOps.HasAssets remaining
      then (a, Err "insufficient UTxOs to cover required value")
      else (set_usedUtxos a (usedUtxos a ++ selectedRefs), Ok selected)
  | utxo :: rest =>
      let ref := utxoRef utxo in
      if isUsed a ref then selectLoop a rest remaining selected selectedRefs
      else
        let selected := selected ++ [utxo] in
        let selectedRefs := selectedRefs ++ [ref] in
        let remaining := consume remaining utxo in
        if (Coin remaining =? 0) && negb (ValueOps.HasAssets remaining)
        then (set_usedUtxos a (usedUtxos a ++ selectedRefs), Ok selected)
        else selectLoop a rest remaining selected selectedRefs
  end.

(** The requirement [selectCoins] starts from: what [required] asks
    beyond [currentInput], by saturating subtraction. *)
Definition initialRemaining (required currentInput : Value) : Value :=
  let coin :=
    if Coin currentInput <? Coin required
    then uint64 (Coin required - Coin currentInput) else 0 in
  let assets :=
    match Assets required with
    | Some _ =>
        let cloned := CloneMultiAsset (Assets required) in
        match Assets currentInput with
        | Some _ => subtractAssetsSaturating cloned (Assets currentInput)
        | None => cloned
        end
    | None => None
    end in
  mkValue coin assets.

Definition selectCoins (a : Apollo) (required currentInput : Value)
  : Apollo * result (list Utxo) :=
  if ValueOps.GreaterOrEqual currentInput required then (a, Ok [])
  else
    let remaining := initialRemaining required currentInput in
    let sorted := SortUtxos (utxos a) in
    selectLoop a sorted remaining [] [].

(** [buildOutputs]: every payment is raised to its minimum in place and
    turned into an output.  The payments are returned as the loop left
    them: adjusted up to the failing one, untouched after it. *)
Fixpoint buildOutputsLoop (lib : Library) (cc : backend.ChainContext)
  (pending : list Payment) : list Payment * result (list BabbageTransactionOutput) :=
  match pending with
  | [] => ([], Ok [])
  | payment :: rest =>
      match EnsureMinUTXO lib cc payment with
      | (payment', Err e) =>
          (payment' :: rest, Err ("failed to ensure min UTxO: " ++ e)%string)
      | (payment', Ok _) =>
          match wrapErr "failed to build payment output" (PaymentOps.ToTxOut payment') with
          | Err e => (payment' :: rest, Err e)
          | Ok txOut =>
              match buildOutputsLoop lib cc rest with
              | (rest', Err e) => (payment' :: rest', Err e)
              | (rest', Ok outputs) => (payment' :: rest', Ok (txOut :: outputs))
              end
          end
      end
  end.

Definition buildOutputs (lib : Library) (a : Apollo)
  : Apollo * result (list BabbageTransactionOutput) :=
  let '(ps, r) := buildOutputsLoop lib (Context a) (payments a) in
  (set_payments a ps, r).

(* --------------------------------------------------------------------- *)
(** ** Redeemer indices *)
(* --------------------------------------------------------------------- *)

(** One of the three loops of [buildRedeemerMap]: every entry whose key
    [position] finds gets the redeemer key of its tag and position. *)
Definition addRedeemers (position : string -> option nat)
  (tagOf : redeemerEntry -> RedeemerTag) (entries : gmap string redeemerEntry)
  (result : gmap RedeemerKey RedeemerValue) : gmap RedeemerKey RedeemerValue :=
  map_fold (fun (k : string) (entry : redeemerEntry) res =>
              match position k with
              | Some i =>
                  let idx := uint32 (Z.of_nat i) in
                  let key := mkRedeemerKey (tagOf entry) idx in
                  <[key := mkRedeemerValue (EntryData entry) (EntryExUnits entry)]> res
              | None => res
              end)
           result entries.

Definition buildRedeemerMap (a : Apollo) (inputs : list Utxo)
  : gmap RedeemerKey RedeemerValue :=
  let result : gmap RedeemerKey RedeemerValue := ∅ in
  (* spending redeemers: position of the reference among the inputs *)
  let result :=
    addRedeemers (fun ref => findIndex (fun utxo => String.eqb (utxoRef utxo) ref) inputs)
                 EntryTag (redeemers a) result in
  (* mint redeemers: position of the policy among the sorted policies *)
  let result :=
    if 0 <? Z.of_nat (size (mintRedeemers a)) then
      let sortedPolicies := sortedMintPolicyIds a in
      addRedeemers (fun policyHex => findIndex (fun p => String.eqb p policyHex) sortedPolicies)
                   (fun _ => RedeemerTagMint) (mintRedeemers a) result
    else result in
  (* stake redeemers: position of the stake key among the sorted withdrawals *)
  let result :=
    if 0 <? Z.of_nat (size (stakeRedeemers a)) then
      let sortedWdAddrs := sortedWithdrawalKeys a in
      addRedeemers
        (fun skhHex =>
           findIndex (fun addrKey =>
                        match withdrawals a !! addrKey with
                        | Some wd =>
                            String.eqb (hex.EncodeToString (StakeKeyHash (WdAddress wd))) skhHex
                        | None => String.eqb (hex.EncodeToString "") skhHex
                        end) sortedWdAddrs)
        (fun _ => RedeemerTagReward) (stakeRedeemers a) result
    else result in
  result.

(* --------------------------------------------------------------------- *)
(** ** The script-data hash *)
(* --------------------------------------------------------------------- *)

Definition languageVersion (lang : string) : result Z :=
  if String.eqb lang "PlutusV1" then Ok 0
  else if String.eqb lang "PlutusV2" then Ok 1
  else if String.eqb lang "PlutusV3" then Ok 2
  else Err "unsupported cost model language".

(** The loop of [ComputeScriptDataHash] over the cost models: every
    language of the map is entered into [usedVersions] and
    [numericCostModels]. *)
Definition languageViews (costModels : gmap string (list Z))
  : result (gset Z * gmap Z (list Z)) :=
  foldr (fun (lc : string * list Z) (acc : result (gset Z * gmap Z (list Z))) =>
           views ← acc;
           version ← languageVersion lc.1;
           Ok ({[version]} ∪ views.1, <[version := lc.2]> views.2))
        (Ok (∅, ∅)) (map_to_list costModels).

(** The bytes [ComputeScriptDataHash] hashes (its variable [combined]):
    redeemers, then datums, then the language views. *)
Definition combined (lib : Library) (rdmrs : gmap RedeemerKey RedeemerValue)
  (dats : list Datum) (costModels : gmap string (list Z)) : result string :=
  redeemerBytes ← wrapErr "failed to encode redeemers"
    (if 0 <? Z.of_nat (size rdmrs) then encodeRedeemers lib rdmrs
     else encodeRedeemers lib ∅);
  datumBytes ← wrapErr "failed to encode datums"
    (if 0 <? Z.of_nat (length dats) then encodeDatums lib dats
     else encodeDatums lib []);
  views ← languageViews costModels;
  let usedVersions := views.1 in
  let numericCostModels := views.2 in
  costModelBytes ← wrapErr "failed to encode cost models"
    (if 0 <? Z.of_nat (size usedVersions)
     then EncodeLangViews lib usedVersions numericCostModels
     else encodeEmptyCostModels lib);
  Ok (redeemerBytes ++ datumBytes ++ costModelBytes)%string.

Definition ComputeScriptDataHash (lib : Library)
  (rdmrs : gmap RedeemerKey RedeemerValue) (dats : list Datum)
  (costModels : gmap string (list Z)) : result (option string) :=
  if (Z.of_nat (size rdmrs) =? 0) && (Z.of_nat (length dats) =? 0) then Ok None
  else
    bytes ← combined lib rdmrs dats costModels;
    let hash := Blake2b256Hash lib bytes in
    Ok (Some hash).

(* --------------------------------------------------------------------- *)
(** ** Metadata *)
(* --------------------------------------------------------------------- *)

(** The conversion loops of [toMetadatum]: the entries, already
    converted and in key order, are collected up to the first error. *)
Fixpoint collectPairs {K} (mkKey : K -> TransactionMetadatum)
  (entries : list (K * result TransactionMetadatum))
  : result (list (TransactionMetadatum * TransactionMetadatum)) :=
  match entries with
  | [] => Ok []
  | (k, r) :: rest =>
      val ← wrapErr "map key" r;
      pairs ← collectPairs mkKey rest;
      Ok ((mkKey k, val) :: pairs)
  end.

Fixpoint toMetadatum (v : any) : result TransactionMetadatum :=
  match v with
  | AnyMetadatum tv => Ok tv
  | AnyString tv => Ok (MetaText tv)
  | AnyInt tv => Ok (MetaInt (int64 tv))
  | AnyInt64 tv => Ok (MetaInt tv)
  | AnyUint64 tv => Ok (MetaInt tv)
  | AnyBytes tv => Ok (MetaBytes tv)
  | AnyMapString tv =>
      let converted :=
        (fix convert (l : list (string * any)) :=
           match l with
           | [] => []
           | (mk, x) :: rest => (mk, toMetadatum x) :: convert rest
           end) tv in
      let sorted := sortSlice (fun x y : string * _ => String.ltb x.1 y.1) converted in
      pairs ← collectPairs MetaText sorted;
      Ok (MetaMapOf pairs)
  | AnyMapUint64 tv =>
      let converted :=
        (fix convert (l : list (Z * any)) :=
           match l with
           | [] => []
           | (mk, x) :: rest => (mk, toMetadatum x) :: convert rest
           end) tv in
      let sorted := sortSlice (fun x y : Z * _ => x.1 <? y.1) converted in
      pairs ← collectPairs MetaInt sorted;
      Ok (MetaMapOf pairs)
  | AnySlice tv =>
      items ← (fix convert (l : list any) : result (list TransactionMetadatum) :=
                 match l with
                 | [] => Ok []
                 | item :: rest =>
                     m ← wrapErr "list index" (toMetadatum item);
                     ms ← convert rest;
                     Ok (m :: ms)
                 end) tv;
      Ok (MetaList items)
  | AnyOther => Err "unsupported metadata value type"
  end.

Definition buildMetadata (a : Apollo) : result (option MetaMap) :=
  match auxiliaryData a with
  | None => Ok None
  | Some aux =>
      let keys := sortUint64 (map_to_list (metadata aux)).*1 in
      pairs ← foldr (fun (k : Z) (acc : result (list (TransactionMetadatum * TransactionMetadatum))) =>
                       match metadata aux !! k with
                       | Some v =>
                           val ← wrapErr "metadata key" (toMetadatum v);
                           rest ← acc;
                           Ok ((MetaInt k, val) :: rest)
                       | None => acc
                       end) (Ok []) keys;
      Ok (Some (mkMetaMap pairs))
  end.

Definition computeAuxDataHash (lib : Library) (a : Apollo) : result (option string) :=
  match auxiliaryData a with
  | None => Ok None
  | Some _ =>
      md ← wrapErr "failed to build metadata" (buildMetadata a);
      match md with
      | None => Ok None
      | Some m =>
          mdBytes ← wrapErr "failed to encode metadata" (encodeMetadata lib m);
          Ok (Some (Blake2b256Hash lib mdBytes))
      end
  end.

(* --------------------------------------------------------------------- *)
(** ** Body, witness set, fee *)
(* --------------------------------------------------------------------- *)

Definition inputOf (utxo : Utxo) : ShelleyTransactionInput :=
  mkInput (TxId (Id utxo)) (OutputIndex (Id utxo)).

Definition buildBody (lib : Library) (a : Apollo) (inputs : list Utxo)
  (outputs : list BabbageTransactionOutput) (fee : Z) : result ConwayTransactionBody :=
  let txInputs := inputOf <$> inputs in
  let ttl := if 0 <? Ttl a then uint64 (Ttl a) else 0 in
  let validityStart := if 0 <? ValidityStart a then uint64 (ValidityStart a) else 0 in
  txMint ← (if hasMint a then mintAsset ← buildMintAsset a; Ok (Some mintAsset)
            else Ok None);
  let wdList :=
    if 0 <? Z.of_nat (size (withdrawals a))
    then (fun kw : string * withdrawalEntry => (WdAddress kw.2, WdAmount kw.2))
           <$> map_to_list (withdrawals a)
    else [] in
  auxHash ← (if isNil (auxiliaryData a) then Ok None
             else wrapErr "failed to compute aux data hash" (computeAuxDataHash lib a));
  let hasCollateral := 0 <? Z.of_nat (length (collaterals a)) in
  let collInputs := if hasCollateral then inputOf <$> collaterals a else [] in
  let totalColl :=
    if hasCollateral && (0 <? totalCollateral a) then uint64 (totalCollateral a) else 0 in
  let collReturn := if hasCollateral then collateralReturn a else None in
  scriptDataHash ←
    (if (0 <? Z.of_nat (size (redeemers a))) || (0 <? Z.of_nat (size (mintRedeemers a)))
        || (0 <? Z.of_nat (size (stakeRedeemers a))) || (0 <? Z.of_nat (length (datums a)))
     then
       pp ← backend.ProtocolParams (Context a);
       let redeemerMap := buildRedeemerMap a inputs in
       ComputeScriptDataHash lib redeemerMap (datums a) (backend.CostModels pp)
     else Ok None);
  let netId := backend.NetworkId (Context a) in
  Ok (mkBody txInputs outputs fee ttl validityStart txMint (requiredSigners a)
             (referenceInputs a) (certificates a) wdList auxHash collInputs
             totalColl collReturn scriptDataHash (Some netId)).

Definition buildWitnessSet (a : Apollo) (inputs : list Utxo)
  : ConwayTransactionWitnessSet :=
  let redeemerMap := buildRedeemerMap a inputs in
  mkWitnessSet [] (nativescripts a) (v1scripts a) (v2scripts a) (v3scripts a)
               (datums a) redeemerMap.

Definition withVkeyWitnesses (ws : ConwayTransactionWitnessSet)
  (witnesses : list VkeyWitness) : ConwayTransactionWitnessSet :=
  mkWitnessSet witnesses (WsNativeScripts ws) (WsPlutusV1Scripts ws)
               (WsPlutusV2Scripts ws) (WsPlutusV3Scripts ws) (WsPlutusData ws)
               (WsRedeemers ws).

(** [make([]byte, n)] *)
Fixpoint zeroBytes (n : nat) : string :=
  match n with
  | O => EmptyString
  | S n' => String zero (zeroBytes n')
  end.

(** One placeholder witness for the wallet and one per required signer. *)
Definition fakeWitnesses (a : Apollo) : list VkeyWitness :=
  let witnessCount := S (length (requiredSigners a)) in
  repeat (mkVkeyWitness (zeroBytes 32) (zeroBytes 64)) witnessCount.

(** The transaction [estimateFee] and [estimateExecutionUnits] encode. *)
Definition dummyTransaction (lib : Library) (a : Apollo) (inputs : list Utxo)
  (outputs : list BabbageTransactionOutput) : result ConwayTransaction :=
  body ← buildBody lib a inputs outputs 0;
  let ws := withVkeyWitnesses (buildWitnessSet a inputs) (fakeWitnesses a) in
  md ← (if isNil (auxiliaryData a) then Ok None else buildMetadata a);
  Ok (mkTransaction body ws true md).

Definition estimateFee (lib : Library) (a : Apollo) (inputs : list Utxo)
  (outputs : list BabbageTransactionOutput) : result Z :=
  pp ← backend.ProtocolParams (Context a);
  dummyTx ← dummyTransaction lib a inputs outputs;
  txBytes ← wrapErr "failed to encode dummy tx" (encodeTransaction lib dummyTx);
  let txSize := len txBytes in
  let fee := int64 (int64 (int64 txSize * backend.MinFeeCoefficient pp)
                    + backend.MinFeeConstant pp) in
  let redeemerMap := buildRedeemerMap a inputs in
  if 0 <? Z.of_nat (size redeemerMap) then
    let totalMem :=
      map_fold (fun _ (rv : RedeemerValue) acc => int64 (acc + Memory (ValueExUnits rv)))
               0 redeemerMap in
    let totalSteps :=
      map_fold (fun _ (rv : RedeemerValue) acc => int64 (acc + Steps (ValueExUnits rv)))
               0 redeemerMap in
    let fee' := exUnitFee lib (backend.PriceMem pp) (backend.PriceStep pp) totalMem totalSteps in
    Ok (int64 (fee + fee'))
  else Ok fee.

(** The update [estimateExecutionUnits] makes for one evaluated key. *)
Definition applyEvaluation (lib : Library) (inputs : list Utxo)
  (evalKey : RedeemerKey) (evalUnits : ExUnits) (a : Apollo) : Apollo :=
  let bufferedUnits :=
    mkExUnits (bufferExUnits lib (Memory evalUnits)) (bufferExUnits lib (Steps evalUnits)) in
  let withUnits (entry : redeemerEntry) :=
    mkRedeemerEntry (EntryTag entry) (EntryData entry) bufferedUnits in
  match Tag evalKey with
  | RedeemerTagSpend =>
      match inputs !! Z.to_nat (Index evalKey) with
      | Some utxo =>
          let ref := utxoRef utxo in
          match redeemers a !! ref with
          | Some entry => set_redeemers a (<[ref := withUnits entry]> (redeemers a))
          | None => a
          end
      | None => a
      end
  | RedeemerTagMint =>
      let sortedPolicies := sortedMintPolicyIds a in
      match sortedPolicies !! Z.to_nat (Index evalKey) with
      | Some policyHex =>
          match mintRedeemers a !! policyHex with
          | Some entry =>
              set_mintRedeemers a (<[policyHex := withUnits entry]> (mintRedeemers a))
          | None => a
          end
      | None => a
      end
  | RedeemerTagReward =>
      let sortedWdAddrs := sortedWithdrawalKeys a in
      match sortedWdAddrs !! Z.to_nat (Index evalKey) with
      | Some addrKey =>
          let skhHex :=
            match withdrawals a !! addrKey with
            | Some wd => hex.EncodeToString (StakeKeyHash (WdAddress wd))
            | None => hex.EncodeToString ""
            end in
          match stakeRedeemers a !! skhHex with
          | Some entry =>
              set_stakeRedeemers a (<[skhHex := withUnits entry]> (stakeRedeemers a))
          | None => a
          end
      | None => a
      end
  | _ => a
  end.

Definition estimateExecutionUnits (lib : Library) (a : Apollo) (inputs : list Utxo)
  (outputs : list BabbageTransactionOutput) : Apollo * result unit :=
  match
    (prelimTx ← wrapErr "failed to build preliminary tx body"
                        (dummyTransaction lib a inputs outputs);
     txBytes ← wrapErr "failed to encode preliminary tx" (encodeTransaction lib prelimTx);
     wrapErr "EvaluateTx failed" (backend.EvaluateTx (Context a) txBytes))
  with
  | Err e => (a, Err e)
  | Ok evalResult => (map_fold (applyEvaluation lib inputs) a evalResult, Ok tt)
  end.

(* --------------------------------------------------------------------- *)
(** ** [Complete]: the fee/change loop and the final assembly *)
(* --------------------------------------------------------------------- *)

Definition withCoin (v : Value) (coin : Z) : Value := mkValue coin (Assets v).

(** The first half of one round of the fee loop: from the base outputs
    and the current fee, the outputs of this round, with or without a
    change output. *)
Definition changeStep (lib : Library) (a : Apollo) (stakeDeposit : Z)
  (totalRequired totalInput : Value) (changeAddr : Address)
  (baseOutputs : list BabbageTransactionOutput) (fee : Z)
  : result (list BabbageTransactionOutput) :=
  let outputs := baseOutputs in
  let feeValue := NewSimpleValue (uint64 fee) in
  totalNeeded ← wrapErr "required value overflow" (ValueOps.Add totalRequired feeValue);
  changeValue ← wrapErr "insufficient funds" (ValueOps.Sub totalInput totalNeeded);
  if (0 <? Coin changeValue) || ValueOps.HasAssets changeValue then
    let changeOutput := NewBabbageOutput changeAddr changeValue None None in
    pp ← wrapErr "failed to get protocol params for change output"
                 (backend.ProtocolParams (Context a));
    let c := backend.CoinsPerUtxoByteValue pp in
    minChange ← wrapErr "failed to compute min UTxO for change output"
                        (MinLovelacePostAlonzo lib changeOutput c);
    if minChange <=? int64 (Coin changeValue) then Ok (outputs ++ [changeOutput])
    else if ValueOps.HasAssets changeValue then
      (* change has assets but too little ADA: raise it to the minimum *)
      let changeValue := withCoin changeValue (uint64 minChange) in
      let changeOutput := NewBabbageOutput changeAddr changeValue None None in
      actualMin ← wrapErr "failed to compute actual min UTxO for change output"
                          (MinLovelacePostAlonzo lib changeOutput c);
      let changeValue :=
        if minChange <? actualMin then withCoin changeValue (uint64 actualMin)
        else changeValue in
      let changeOutput := NewBabbageOutput changeAddr changeValue None None in
      (* the raised outputs must still be covered by the inputs *)
      let totalInputCoin := Coin totalInput in
      let totalOutputCoin :=
        foldl (fun acc out => uint64 (acc + Amount (OutputAmount out))) 0 outputs in
      let totalOutputCoin :=
        uint64 (totalOutputCoin + uint64 (Coin changeValue + uint64 fee)) in
      let depositAdj := certificateDepositAdjustment a stakeDeposit in
      let totalOutputCoin :=
        if 0 <? depositAdj then uint64 (totalOutputCoin + uint64 depositAdj)
        else totalOutputCoin in
      if totalInputCoin <? totalOutputCoin
      then Err "insufficient funds: need more lovelace for change output min UTxO"
      else Ok (outputs ++ [changeOutput])
    else
      (* ADA-only change below the minimum: no output *)
      Ok outputs
  else Ok outputs.

(** [newFee += a.FeePadding; if newFee < 0 { newFee = 0 }] *)
Definition padFee (a : Apollo) (fee : Z) : Z :=
  let fee := int64 (fee + FeePadding a) in
  if fee <? 0 then 0 else fee.

(** The fee loop, [rounds] rounds at most ([maxFeeIterations] is 3).  It
    answers the outputs and the fee the loop ends with. *)
Fixpoint feeLoop (lib : Library) (a : Apollo) (stakeDeposit : Z)
  (totalRequired totalInput : Value) (changeAddr : Address)
  (allInputUtxos : list Utxo) (baseOutputs : list BabbageTransactionOutput)
  (rounds : nat) (outputs : list BabbageTransactionOutput) (fee : Z)
  : result (list BabbageTransactionOutput * Z) :=
  match rounds with
  | O => Ok (outputs, fee)
  | S rounds' =>
      outputs ← changeStep lib a stakeDeposit totalRequired totalInput changeAddr
                           baseOutputs fee;
      if 0 <? Fee a then Ok (outputs, fee)
      else
        newFee ← wrapErr "fee re-estimation failed"
                         (estimateFee lib a allInputUtxos outputs);
        let newFee := padFee a newFee in
        if newFee <=? fee then Ok (outputs, fee)
        else feeLoop lib a stakeDeposit totalRequired totalInput changeAddr
                     allInputUtxos baseOutputs rounds' outputs newFee
  end.

Definition maxFeeIterations : nat := 3.

(** The deposit per certificate: the protocol parameter when it parses
    to a positive number, else the constant. *)
Definition stakeDepositOf (cc : backend.ChainContext) : Z :=
  match backend.ProtocolParams cc with
  | Ok pp =>
      match strconv.ParseInt (backend.KeyDeposits pp) with
      | Ok d => if 0 <? d then d else StakeDeposit
      | Err _ => StakeDeposit
      end
  | Err _ => StakeDeposit
  end.

(** The implicit inputs [Complete] adds to a sum of UTxO values:
    withdrawals, mints and deregistration refunds, in the order of the
    first computation ([mintFirst = false]) or of the second. *)
Definition addImplicitInputs (a : Apollo) (refundValue : Value) (mintFirst : bool)
  (totalInput : Value) : result Value :=
  let addWithdrawals (v : Value) : result Value :=
    if 0 <? Z.of_nat (size (withdrawals a))
    then wrapErr "withdrawal value overflow" (ValueOps.Add v (totalWithdrawalValue a))
    else Ok v in
  let addMint (v : Value) : result Value :=
    if hasMint a then
      mv ← mintValue a;
      wrapErr "mint value overflow" (ValueOps.Add v mv)
    else Ok v in
  v ← (if mintFirst then addMint totalInput else addWithdrawals totalInput);
  v ← (if mintFirst then addWithdrawals v else addMint v);
  if 0 <? Coin refundValue
  then wrapErr "refund value overflow" (ValueOps.Add v refundValue)
  else Ok v.

(** Everything [Complete] does between coin selection and the assembly
    of the transaction, on the builder as coin selection left it. *)
Definition balance (lib : Library) (a : Apollo) (w : Wallet) (stakeDeposit : Z)
  (totalRequired refundValue : Value) (outputs : list BabbageTransactionOutput)
  (allInputUtxos : list Utxo) : result ConwayTransaction :=
  let baseOutputs := outputs in
  fee ← (if forceFee a then Ok (Fee a)
         else
           fee ← wrapErr "fee estimation failed" (estimateFee lib a allInputUtxos outputs);
           Ok (if 0 <? Fee a then Fee a else fee));
  let fee := padFee a fee in
  totalInput ← addImplicitInputs a refundValue true (sumUtxoValues allInputUtxos);
  let changeAddr := default (WalletAddress w) (getChangeAddress a) in
  '(outputs, fee) ← feeLoop lib a stakeDeposit totalRequired totalInput changeAddr
                            allInputUtxos baseOutputs maxFeeIterations outputs fee;
  body ← buildBody lib a allInputUtxos outputs (uint64 fee);
  let witnessSet := buildWitnessSet a allInputUtxos in
  Ok (mkTransaction body witnessSet true None).

Definition withMetadata (t : ConwayTransaction) (md : MetaMap) : ConwayTransaction :=
  mkTransaction (Body t) (WitnessSet t) (TxIsValid t) (Some md).

Definition Complete (lib : Library) (a : Apollo) : Apollo * result unit :=
  match tx a with
  | Some _ => (a, Err "transaction already built - call Complete() only once")
  | None =>
  match wallet a with
  | None => (a, Err "wallet is required to complete transaction")
  | Some w =>
  (* load UTxOs, then pick collateral *)
  match loadUtxos a with
  | (a, Err e) => (a, Err e)
  | (a, Ok _) =>
  let a := setCollateral a in
  (* outputs and the total they require *)
  match buildOutputs lib a with
  | (a, Err e) => (a, Err e)
  | (a, Ok outputs) =>
  match totalOutputValue outputs with
  | Err e => (a, Err e)
  | Ok totalRequired =>
  let stakeDeposit := stakeDepositOf (Context a) in
  let totalRequired := adjustForCertificateDeposits a totalRequired stakeDeposit in
  let refundValue := certificateRefundValue a stakeDeposit in
  (* what is already committed: preselected inputs and implicit inputs *)
  match addImplicitInputs a refundValue false (totalPreselectedValue a) with
  | Err e => (a, Err e)
  | Ok totalInput =>
  match wrapErr "failed to compute max tx fee for coin selection"
                (backend.MaxTxFee (Context a)) with
  | Err e => (a, Err e)
  | Ok maxFee =>
  let prelimFee := int64 maxFee in
  match wrapErr "selection target overflow"
                (ValueOps.Add totalRequired (NewSimpleValue (uint64 prelimFee))) with
  | Err e => (a, Err e)
  | Ok selectionTarget =>
  (* coin selection *)
  match selectCoins a selectionTarget totalInput with
  | (a, Err e) => (a, Err ("coin selection failed: " ++ e)%string)
  | (a, Ok selectedUtxos) =>
  let allInputUtxos := SortInputs (preselectedUtxos a ++ selectedUtxos) in
  (* execution units *)
  match (if isEstimateRequired a && estimateExUnits a
         then estimateExecutionUnits lib a allInputUtxos outputs
         else (a, Ok tt)) with
  | (a, Err e) => (a, Err ("ExUnit estimation failed: " ++ e)%string)
  | (a, Ok _) =>
  (* fee, change, body and witnesses *)
  match balance lib a w stakeDeposit totalRequired refundValue outputs allInputUtxos with
  | Err e => (a, Err e)
  | Ok t =>
  let a := set_tx a (Some t) in
  (* metadata *)
  match auxiliaryData a with
  | None => (a, Ok tt)
  | Some _ =>
      match wrapErr "failed to build metadata" (buildMetadata a) with
      | Err e => (a, Err e)
      | Ok None => (a, Ok tt)
      | Ok (Some md) => (set_tx a (Some (withMetadata t md)), Ok tt)
      end
  end end end end end end end end end end end end.

(* ===================================================================== *)
(** * Properties of coin selection: what is committed *)
(* ===================================================================== *)

Lemma set_usedUtxos_same a : set_usedUtxos a (usedUtxos a) = a.
Proof. by destruct a. Qed.

(** The loop returns the builder untouched on failure; on success it
    has selected [extra] on top of [selected], all taken from the sorted
    pool and none of them used, and has appended exactly their
    references to [usedUtxos]. *)
Lemma selectLoop_outcome a sorted :
  forall remaining selected selectedRefs a' r,
    selectLoop a sorted remaining selected selectedRefs = (a', r) ->
    match r with
    | Err e => a' = a /\ e = "insufficient UTxOs to cover required value"%string
    | Ok s =>
        exists extra,
          s = selected ++ extra /\
          a' = set_usedUtxos a (usedUtxos a ++ selectedRefs ++ (utxoRef <$> extra)) /\
          extra `sublist_of` filter (fun u => isUsed a (utxoRef u) = false) sorted
    end.
Proof.
  induction sorted as [| utxo rest IH]; intros remaining selected selectedRefs a' r; simpl.
  - destruct (_ || _); intros [= <- <-]; [done |].
    exists []. by rewrite !app_nil_r.
  - destruct (isUsed a (utxoRef utxo)) eqn:Hused.
    + intros H. specialize (IH _ _ _ _ _ H). destruct r as [s | e]; [| done].
      destruct IH as (extra & -> & -> & Hsub). exists extra.
      split; [done |]. split; [done |].
      rewrite filter_cons_False; [done |]. by rewrite Hused.
    + rewrite filter_cons_True by done.
      destruct (_ && _).
      * intros [= <- <-]. exists [utxo]. split; [done |]. split; [done |].
        by apply sublist_skip, sublist_nil_l.
      * intros H. specialize (IH _ _ _ _ _ H). destruct r as [s | e]; [| done].
        destruct IH as (extra & -> & -> & Hsub). exists (utxo :: extra).
        rewrite <- !app_assoc. simpl. split; [done |]. split; [done |].
        by apply sublist_skip.
Qed.

(** C10: whenever coin selection fails, the builder, and so its list of
    used UTxO references, is exactly as it was before the attempt, and
    the failure is the insufficient-UTxOs error; the references of the
    selected UTxOs are appended to the used list only when the selection
    succeeds. *)
Theorem selectCoins_commits_only_on_success (a : Apollo) (required currentInput : Value) :
  match selectCoins a required currentInput with
  | (a', Err e) =>
      a' = a /\ usedUtxos a' = usedUtxos a /\
      e = "insufficient UTxOs to cover required value"%string
  | (a', Ok selected) =>
      a' = set_usedUtxos a (usedUtxos a ++ (utxoRef <$> selected)) /\
      usedUtxos a' = usedUtxos a ++ (utxoRef <$> selected)
  end.
Proof.
  unfold selectCoins. destruct (ValueOps.GreaterOrEqual currentInput required).
  - simpl. rewrite app_nil_r. by rewrite set_usedUtxos_same.
  - destruct (selectLoop _ _ _ _ _) as [a' r] eqn:Hloop.
    apply selectLoop_outcome in Hloop. destruct r as [s | e].
    + destruct Hloop as (extra & -> & -> & _). simpl. done.
    + destruct Hloop as [-> ->]. done.
Qed.

(* ===================================================================== *)
(** * [Complete] runs once *)
(* ===================================================================== *)

Lemma tx_set_tx a t : tx (set_tx a t) = t.
Proof. done. Qed.

(** A successful [Complete] leaves a built transaction in the builder. *)
Lemma Complete_Ok_builds (lib : Library) (a a' : Apollo) :
  Complete lib a = (a', Ok tt) -> exists t, tx a' = Some t.
Proof.
  unfold Complete. intros H.
  repeat match type of H with
         | context [match ?x with _ => _ end] => destruct x eqn:?; try discriminate H
         end;
    injection H as <-; rewrite tx_set_tx; eauto.
Qed.

(** On a builder that holds a transaction, [Complete] only reports the
    error and changes nothing. *)
Lemma Complete_of_built (lib : Library) (a : Apollo) (t : ConwayTransaction) :
  tx a = Some t ->
  Complete lib a = (a, Err "transaction already built - call Complete() only once").
Proof. intros Ht. unfold Complete. by rewrite Ht. Qed.

(** C9: once [Complete] has succeeded on a builder, a further call on
    that builder returns an error and leaves the builder, and with it the
    transaction built before, unchanged. *)
Theorem Complete_only_once (lib : Library) (a a' : Apollo) :
  Complete lib a = (a', Ok tt) ->
  exists t,
    tx a' = Some t /\
    exists msg, Complete lib a' = (a', Err msg) /\
                tx (Complete lib a').1 = Some t.
Proof.
  intros Hok. destruct (Complete_Ok_builds lib a a' Hok) as [t Ht].
  exists t. split; [done |]. eexists. rewrite (Complete_of_built lib a' t Ht).
  split; [reflexivity | done].
Qed.

(* ===================================================================== *)
(** * An instance of the library and a fixed chain context *)
(* ===================================================================== *)

(** The theorems hold for every [Library].  To run the builder on
    concrete inputs, this module gives one: CBOR heads and the
    post-Alonzo output layout after RFC 8949 and the Conway CDDL, a
    transaction encoding that keeps the sizes of the parts, exact
    rational arithmetic in place of the two float expressions, and, in
    place of Blake2b-256, a function that leaves the hashed bytes
    visible. *)
Module cbor.

Definition byte (z : Z) : string := String (ascii_of_N (Z.to_N (z mod 256))) EmptyString.

(** Big-endian bytes of [z], [n] of them. *)
Fixpoint bigEndian (n : nat) (z : Z) : string :=
  match n with
  | O => EmptyString
  | S n' => (bigEndian n' (z / 256) ++ byte z)%string
  end.

(** The head of an item: major type and argument. *)
Definition head (major : Z) (arg : Z) : string :=
  if arg <? 24 then byte (32 * major + arg)
  else if arg <? 256 then (byte (32 * major + 24) ++ bigEndian 1 arg)%string
  else if arg <? 65536 then (byte (32 * major + 25) ++ bigEndian 2 arg)%string
  else if arg <? 4294967296 then (byte (32 * major + 26) ++ bigEndian 4 arg)%string
  else (byte (32 * major + 27) ++ bigEndian 8 arg)%string.

Definition uint (z : Z) : string := head 0 z.
Definition int (z : Z) : string := if z <? 0 then head 1 (- 1 - z) else head 0 z.
Definition bytes (s : string) : string := (head 2 (len s) ++ s)%string.
Definition array (items : list string) : string :=
  (head 4 (Z.of_nat (length items)) ++ String.concat "" items)%string.
Definition map (entries : list (string * string)) : string :=
  (head 5 (Z.of_nat (length entries))
   ++ String.concat "" ((fun kv : string * string => (kv.1 ++ kv.2)%string) <$> entries))%string.
Definition tag (number : Z) (content : string) : string :=
  (head 6 number ++ content)%string.

Definition multiAsset (m : common.MultiAsset) : string :=
  map ((fun pa : string * gmap string Z =>
          (bytes pa.1,
           map ((fun nq : string * Z => (bytes nq.1, int nq.2)) <$> map_to_list pa.2)))
         <$> map_to_list m).

Definition value (v : MaryTransactionOutputValue) : string :=
  match MaryAssets v with
  | None => uint (Amount v)
  | Some m => array [uint (Amount v); multiAsset m]
  end.

Definition datumOption (d : DatumOption) : string :=
  match d with
  | DatumOptionHash h => array [uint 0; bytes h]
  | DatumOptionInline dat => array [uint 1; tag 24 (bytes (DatumCbor dat))]
  end.

Definition scriptRef (r : ScriptRef) : string :=
  tag 24 (bytes (array [uint (ScriptType r); bytes (ScriptBytes r)])).

Definition output (o : BabbageTransactionOutput) : result string :=
  addr ← AddrBytes (OutputAddress o);
  Ok (map ([(uint 0, bytes addr); (uint 1, value (OutputAmount o))]
           ++ match OutputDatumOption o with
              | Some d => [(uint 2, datumOption d)]
              | None => []
              end
           ++ match TxOutScriptRef o with
              | Some r => [(uint 3, scriptRef r)]
              | None => []
              end)).

Definition input (i : ShelleyTransactionInput) : string :=
  array [bytes (TxId i); uint (OutputIndex i)].

Definition exUnits (e : ExUnits) : string := array [int (Memory e); int (Steps e)].

Definition redeemers (m : gmap RedeemerKey RedeemerValue) : result string :=
  Ok (map ((fun kv : RedeemerKey * RedeemerValue =>
              (array [uint (tagCode (Tag kv.1)); uint (Index kv.1)],
               array [DatumCbor (Data kv.2); exUnits (ValueExUnits kv.2)]))
             <$> map_to_list m)).

Definition datumList (l : list Datum) : result string :=
  Ok (array (DatumCbor <$> l)).

(** One language view per used version: the version and its cost model. *)
Definition langViews (used : gset Z) (costModels : gmap Z (list Z)) : result string :=
  Ok (map ((fun v : Z => (uint v, array (int <$> default [] (costModels !! v))))
             <$> elements used)).

Fixpoint metadatum (m : TransactionMetadatum) : string :=
  match m with
  | MetaInt z => int z
  | MetaText s => (head 3 (len s) ++ s)%string
  | MetaBytes b => bytes b
  | MetaList items => array (metadatum <$> items)
  | MetaMapOf pairs =>
      map ((fun kv : TransactionMetadatum * TransactionMetadatum =>
              (metadatum kv.1, metadatum kv.2)) <$> pairs)
  end.

Definition metaMap (m : MetaMap) : result string := Ok (metadatum (MetaMapOf (Pairs m))).

Definition witness (w : VkeyWitness) : string := array [bytes (Vkey w); bytes (Signature w)].

Definition optional (key : Z) (present : bool) (item : string) : list (string * string) :=
  if present then [(uint key, item)] else [].

Definition transaction (t : ConwayTransaction) : result string :=
  let b := Body t in
  let ws := WitnessSet t in
  outs ← foldr (fun o acc => rest ← acc; e ← output o; Ok (e :: rest)) (Ok []) (TxOutputs b);
  rdmrs ← redeemers (WsRedeemers ws);
  md ← match TxMetadata t with
       | Some m => metaMap m
       | None => Ok (byte 246)
       end;
  let nonEmpty {A} (l : list A) := 0 <? Z.of_nat (length l) in
  let bodyBytes :=
    map ([(uint 0, array (input <$> TxInputs b)); (uint 1, array outs);
          (uint 2, uint (TxFee b))]
         ++ optional 3 (0 <? BodyTtl b) (uint (BodyTtl b))
         ++ optional 4 (nonEmpty (TxCertificates b)) (array (CertBody <$> TxCertificates b))
         ++ optional 5 (nonEmpty (TxWithdrawals b))
              (map ((fun aw : Address * Z =>
                       (bytes (match AddrBytes aw.1 with Ok x => x | Err _ => "" end),
                        uint aw.2)) <$> TxWithdrawals b))
         ++ optional 7 (negb (isNil (TxAuxDataHash b))) (bytes (default "" (TxAuxDataHash b)))
         ++ optional 8 (0 <? TxValidityIntervalStart b) (uint (TxValidityIntervalStart b))
         ++ optional 9 (negb (isNil (TxMint b))) (multiAsset (default ∅ (TxMint b)))
         ++ optional 11 (negb (isNil (TxScriptDataHash b)))
              (bytes (default "" (TxScriptDataHash b)))
         ++ optional 13 (nonEmpty (TxCollateral b)) (array (input <$> TxCollateral b))
         ++ optional 14 (nonEmpty (TxRequiredSigners b)) (array (bytes <$> TxRequiredSigners b))
         ++ optional 15 (negb (isNil (TxNetworkId b))) (uint (default 0 (TxNetworkId b)))
         ++ match TxCollateralReturn b with
            | Some o => optional 16 true (match output o with Ok x => x | Err _ => "" end)
            | None => []
            end
         ++ optional 17 (0 <? TxTotalCollateral b) (uint (TxTotalCollateral b))
         ++ optional 18 (nonEmpty (TxReferenceInputs b)) (array (input <$> TxReferenceInputs b))) in
  let witnessBytes :=
    map (optional 0 (nonEmpty (VkeyWitnesses ws)) (array (witness <$> VkeyWitnesses ws))
         ++ optional 1 (nonEmpty (WsNativeScripts ws)) (array (WsNativeScripts ws))
         ++ optional 3 (nonEmpty (WsPlutusV1Scripts ws)) (array (bytes <$> WsPlutusV1Scripts ws))
         ++ optional 4 (nonEmpty (WsPlutusData ws)) (array (DatumCbor <$> WsPlutusData ws))
         ++ optional 5 (0 <? Z.of_nat (size (WsRedeemers ws))) rdmrs
         ++ optional 6 (nonEmpty (WsPlutusV2Scripts ws)) (array (bytes <$> WsPlutusV2Scripts ws))
         ++ optional 7 (nonEmpty (WsPlutusV3Scripts ws)) (array (bytes <$> WsPlutusV3Scripts ws))) in
  Ok (array [bodyBytes; witnessBytes; byte (if TxIsValid t then 245 else 244); md]).

End cbor.

Definition exampleLibrary : Library :=
  mkLibrary cbor.output cbor.redeemers cbor.datumList (Ok (cbor.map []))
            cbor.transaction cbor.metaMap cbor.langViews
            (fun preimage => preimage)
            (fun script =>
               hex.EncodeToString
                 match script with
                 | NativeScript s => cbor.byte 0 ++ s
                 | PlutusV1Script s => cbor.byte 1 ++ s
                 | PlutusV2Script s => cbor.byte 2 ++ s
                 | PlutusV3Script s => cbor.byte 3 ++ s
                 end%string)
            (fun priceMem priceStep mem steps =>
               int64 (Qceiling (priceMem * inject_Z mem + priceStep * inject_Z steps)%Q))
            (fun units => int64 ((units * 12) ÷ 10)).

Module Example.

(** The parameters of [NewEmptyFixedChainContext]. *)
Definition preprodParameters : backend.ProtocolParameters :=
  backend.mkProtocolParameters 155381 44 16384 "2000000" (577 # 10000) (721 # 10000000)
                               150 "4310" ∅.

Definition keyHash (first : Z) : string := (cbor.byte first ++ zeroBytes 27)%string.

Definition walletAddress : Address :=
  mkAddress (Ok (cbor.byte 0 ++ keyHash 170 ++ keyHash 187)%string)
            "addr_test1_wallet" (keyHash 170) (keyHash 187).

Definition exampleWallet : Wallet := mkWallet walletAddress (keyHash 170) (keyHash 187).

Definition txHash (first : Z) : string := (cbor.byte first ++ zeroBytes 31)%string.

(** An ADA-only UTxO at the wallet address. *)
Definition adaUtxo (first : Z) (index : Z) (lovelace : Z) : Utxo :=
  mkUtxo (mkInput (txHash first) index)
         (mkTransactionOutput walletAddress (Some lovelace) None).

(** A fixed chain context: the given parameters and UTxOs, the maximum
    fee computed from the parameters, no evaluator. *)
Definition fixedContext (pp : backend.ProtocolParameters) (pool : list Utxo)
  : backend.ChainContext :=
  backend.mkChainContext (Ok pp) 0 (backend.ComputeMaxTxFee pp)
    (fun _ => Ok pool)
    (fun _ => Err "cannot evaluate tx with fixed chain context").

Definition payTo (addr : Address) (lovelace : Z) (units : list Unit) : Payment :=
  mkPayment lovelace addr units None "" false None.

(** One UTxO of 10 ADA, one payment of 2 ADA, no scripts. *)
Definition simpleTransfer : Apollo :=
  AddPayment
    (SetWallet (New (fixedContext preprodParameters [adaUtxo 1 0 10000000])) exampleWallet)
    (payTo walletAddress 2000000 []).

End Example.

(** C9 at the simple transfer: the first [Complete] succeeds, the second
    one is refused and changes nothing. *)
Lemma Complete_only_once_witness :
  exists t,
    tx (Complete exampleLibrary Example.simpleTransfer).1 = Some t /\
    exists msg,
      Complete exampleLibrary (Complete exampleLibrary Example.simpleTransfer).1
      = ((Complete exampleLibrary Example.simpleTransfer).1, Err msg) /\
      tx (Complete exampleLibrary (Complete exampleLibrary Example.simpleTransfer).1).1
      = Some t.
Proof.
  apply (Complete_only_once exampleLibrary Example.simpleTransfer).
  vm_compute. reflexivity.
Defined.

(* ===================================================================== *)
(** * The collateral target *)
(* ===================================================================== *)






Module ScriptExample.
Import Example.

Definition scriptAddress : Address :=
  mkAddress (Ok (cbor.byte 112 ++ keyHash 204)%string)
            "addr_test1_script" (keyHash 204) "".

(** A UTxO locked by a script, holding 5 ADA. *)
Definition scriptUtxo : Utxo :=
  mkUtxo (mkInput (txHash 2) 0)
         (mkTransactionOutput scriptAddress (Some 5000000) None).

Definition unitDatum : Datum := mkDatum (cbor.tag 121 (cbor.array [])).

(** A Plutus V2 script is attached and one script UTxO is collected; the
    pool holds one ADA-only UTxO of 10 ADA. *)
Definition scriptSpend (pp : backend.ProtocolParameters) : Apollo :=
  CollectFrom
    (AttachScript exampleLibrary
       (AddLoadedUTxOs
          (SetWallet (New (fixedContext pp [adaUtxo 1 0 10000000])) exampleWallet)
          [adaUtxo 1 0 10000000])
       (PlutusV2Script "validator"))
    scriptUtxo unitDatum (mkExUnits 1000 2000).

End ScriptExample.



(* ===================================================================== *)
(** * What the script-data hash covers *)
(* ===================================================================== *)

(** The versions handed to [EncodeLangViews] are those of all languages
    of the cost-model map, whatever scripts the builder holds. *)
Lemma languageViews_versions (costModels : gmap string (list Z)) views :
  languageViews costModels = Ok views ->
  forall v, v ∈ views.1 <->
            exists lang costs, costModels !! lang = Some costs /\
                               languageVersion lang = Ok v.
Proof.
  unfold languageViews. intros H v.
  transitivity (exists lang costs, (lang, costs) ∈ map_to_list costModels /\
                                   languageVersion lang = Ok v).
  2: { split; intros (lang & costs & Hin & Hv); exists lang, costs;
       (split; [by apply elem_of_map_to_list | done]). }
  revert views H. induction (map_to_list costModels) as [| [lang costs] l IH];
    simpl; intros views H.
  - injection H as <-. simpl. split; [set_solver |].
    by intros (? & ? & ?%elem_of_nil & _).
  - apply bind_Ok_inv in H as (views' & Hviews' & H).
    apply bind_Ok_inv in H as (version & Hversion & H).
    injection H as <-. simpl in *. specialize (IH _ Hviews').
    rewrite elem_of_union, elem_of_singleton, IH. split.
    + intros [-> | (lang' & costs' & Hin & Hv)].
      * exists lang, costs. split; [apply list_elem_of_here | done].
      * exists lang', costs'. split; [by apply list_elem_of_further | done].
    + intros (lang' & costs' & Hin & Hv).
      apply elem_of_cons in Hin as [[= -> ->] | Hin].
      * left. congruence.
      * right. eauto.
Qed.

(** The script-data hash of a body: whenever redeemers or datums are
    present, it is the hash of the encoded redeemers, datums and the
    language views of all cost models of the protocol parameters. *)
Lemma buildBody_script_data_hash lib a inputs outputs fee body pp :
  buildBody lib a inputs outputs fee = Ok body ->
  backend.ProtocolParams (Context a) = Ok pp ->
  (0 <? Z.of_nat (size (redeemers a))) || (0 <? Z.of_nat (size (mintRedeemers a)))
  || (0 <? Z.of_nat (size (stakeRedeemers a))) || (0 <? Z.of_nat (length (datums a))) = true ->
  ComputeScriptDataHash lib (buildRedeemerMap a inputs) (datums a) (backend.CostModels pp)
  = Ok (TxScriptDataHash body).
Proof.
  unfold buildBody. intros H Hpp Hany.
  apply bind_Ok_inv in H as (txMint & _ & H).
  apply bind_Ok_inv in H as (auxHash & _ & H).
  apply bind_Ok_inv in H as (sdh & Hsdh & H).
  injection H as <-. simpl. rewrite Hany, Hpp in Hsdh. exact Hsdh.
Qed.

Module CostModelExample.
Import Example ScriptExample.

(** Protocol parameters that carry cost models for Plutus V1 and V2, as
    the backends return them. *)
Definition twoModels : gmap string (list Z) :=
  {[ "PlutusV1"%string := [100; 200]; "PlutusV2"%string := [300; 400] ]}.

Definition onlyV2 : gmap string (list Z) := {[ "PlutusV2"%string := [300; 400] ]}.

Definition parameters : backend.ProtocolParameters :=
  backend.mkProtocolParameters 155381 44 16384 "2000000" (577 # 10000) (721 # 10000000)
                               150 "4310" twoModels.

(** The inputs of the transaction: the script UTxO and the pool UTxO. *)
Definition inputs : list Utxo := SortInputs [scriptUtxo; adaUtxo 1 0 10000000].

End CostModelExample.

(** C1 at a builder that holds one Plutus V2 script and no other: the
    protocol parameters list cost models for V1 and V2, and the bytes
    that are hashed contain the language views of both, not those of V2
    alone; the V1 cost model, which no script of the transaction uses, is
    part of the hashed bytes. *)
Theorem unused_cost_model_is_hashed :
  let a := ScriptExample.scriptSpend CostModelExample.parameters in
  let rdmrs := buildRedeemerMap a CostModelExample.inputs in
  v1scripts a = [] /\ v2scripts a = ["validator"%string] /\ v3scripts a = [] /\
  referenceInputs a = [] /\
  (views ← languageViews CostModelExample.twoModels; Ok views.1) = Ok {[0; 1]} /\
  (exists bytes withV2Only,
      combined exampleLibrary rdmrs (datums a) CostModelExample.twoModels = Ok bytes /\
      combined exampleLibrary rdmrs (datums a) CostModelExample.onlyV2 = Ok withV2Only /\
      bytes <> withV2Only /\
      (body ← buildBody exampleLibrary a CostModelExample.inputs [] 0;
       Ok (TxScriptDataHash body))
      = Ok (Some (Blake2b256Hash exampleLibrary bytes))).
Proof.
  cbv zeta. repeat split; try (vm_compute; reflexivity).
  eexists _, _. split; [vm_compute; reflexivity |].
  split; [vm_compute; reflexivity |].
  split; [by vm_compute |]. vm_compute. reflexivity.
Qed.

(* ===================================================================== *)
(** * Sorting facts *)
(* ===================================================================== *)

Section SortFacts.

Context {A : Type} (less : A -> A -> bool).

Lemma insertSorted_Permutation x l : insertSorted less x l ≡ₚ x :: l.
Proof.
  induction l as [| y l IH]; simpl; [done |].
  destruct (less y x); [| done]. rewrite IH. apply perm_swap.
Qed.

Lemma sortSlice_Permutation l : sortSlice less l ≡ₚ l.
Proof.
  induction l as [| x l IH]; simpl; [done |].
  unfold sortSlice in *. simpl. rewrite insertSorted_Permutation. by rewrite IH.
Qed.

Lemma elem_of_sortSlice x l : x ∈ sortSlice less l <-> x ∈ l.
Proof. by rewrite sortSlice_Permutation. Qed.

(** [x] does not come after [y]. *)
Definition notAfter (x y : A) : Prop := less y x = false.

Hypothesis less_irrefl : forall x, less x x = false.
Hypothesis less_trans : forall x y z, less x y = true -> less y z = true -> less x z = true.
Hypothesis less_total : forall x y, less x y = true \/ x = y \/ less y x = true.

Lemma less_asym x y : less x y = true -> less y x = false.
Proof.
  intros Hxy. destruct (less y x) eqn:Hyx; [| done].
  by rewrite <- (less_irrefl x), (less_trans x y x).
Qed.

Lemma notAfter_trans x y z : notAfter x y -> notAfter y z -> notAfter x z.
Proof.
  unfold notAfter. intros Hxy Hyz.
  destruct (less z x) eqn:Hzx; [| done].
  destruct (less_total x y) as [Hlt | [-> | Hlt]]; [| congruence | congruence].
  destruct (less_total y z) as [Hlt' | [-> | Hlt']]; [| congruence | congruence].
  pose proof (less_trans _ _ _ Hlt Hlt') as Hxz.
  by rewrite (less_asym _ _ Hxz) in Hzx.
Qed.

Lemma insertSorted_sorted x l :
  StronglySorted notAfter l -> StronglySorted notAfter (insertSorted less x l).
Proof.
  induction 1 as [| y l Hsorted IH Hall]; simpl.
  - by repeat constructor.
  - destruct (less y x) eqn:Hyx.
    + constructor; [done |].
      rewrite List.Forall_forall. intros z Hz%list_elem_of_In.
      rewrite (insertSorted_Permutation x l) in Hz.
      apply elem_of_cons in Hz as [-> | Hz].
      * by apply less_asym.
      * rewrite List.Forall_forall in Hall. by apply Hall, list_elem_of_In.
    + constructor; [by constructor |].
      constructor; [done |].
      eapply Forall_impl; [exact Hall |]. intros z Hz.
      by apply (notAfter_trans x y z).
Qed.

Lemma sortSlice_sorted l : StronglySorted notAfter (sortSlice less l).
Proof.
  induction l as [| x l IH]; [constructor |].
  unfold sortSlice in *. simpl. by apply insertSorted_sorted.
Qed.

(** Without duplicates the sorted list is strictly increasing. *)
Lemma sortSlice_strictly_sorted l :
  NoDup l -> StronglySorted (fun x y => less x y = true) (sortSlice less l).
Proof.
  intros Hnodup.
  assert (Hnd : NoDup (sortSlice less l)) by by rewrite sortSlice_Permutation.
  pose proof (sortSlice_sorted l) as Hsorted.
  induction Hsorted as [| x s Hs IH Hall]; [constructor |].
  apply NoDup_cons in Hnd as [Hx Hnd]. constructor; [by apply IH |].
  rewrite List.Forall_forall in Hall |- *. intros y Hy.
  specialize (Hall y Hy). unfold notAfter in Hall.
  destruct (less_total x y) as [Hlt | [-> | Hlt]]; [done | | congruence].
  by apply list_elem_of_In in Hy.
Qed.


End SortFacts.

(** Go compares strings byte by byte; so does [String.ltb]. *)
Lemma string_ltb_irrefl x : String.ltb x x = false.
Proof.
  unfold String.ltb. destruct (String.compare x x) eqn:H; try done.
  pose proof (String.compare_antisym x x) as Ha. rewrite H in Ha. done.
Qed.

Lemma string_ltb_trans x y z :
  String.ltb x y = true -> String.ltb y z = true -> String.ltb x z = true.
Proof.
  unfold String.ltb.
  destruct (String.compare x y) eqn:Hxy; try done.
  destruct (String.compare y z) eqn:Hyz; try done. intros _ _.
  apply OrderedTypeEx.String_as_OT.cmp_lt in Hxy, Hyz.
  pose proof (OrderedTypeEx.String_as_OT.lt_trans _ _ _ Hxy Hyz) as Hxz.
  apply OrderedTypeEx.String_as_OT.cmp_lt in Hxz.
  unfold OrderedTypeEx.String_as_OT.cmp in Hxz. by rewrite Hxz.
Qed.

Lemma string_ltb_total x y :
  String.ltb x y = true \/ x = y \/ String.ltb y x = true.
Proof.
  unfold String.ltb. destruct (String.compare x y) eqn:Hxy.
  - right. left. by apply String.compare_eq_iff.
  - by left.
  - right. right. rewrite String.compare_antisym, Hxy. done.
Qed.

Lemma containsString_true l s : containsString l s = true <-> s ∈ l.
Proof.
  unfold containsString. rewrite existsb_exists. split.
  - intros (x & Hin & Heq). apply String.eqb_eq in Heq as ->.
    by apply list_elem_of_In.
  - intros Hin. exists s. split; [by apply list_elem_of_In | apply String.eqb_refl].
Qed.

Lemma containsString_false l s : containsString l s = false <-> s ∉ l.
Proof.
  rewrite <- containsString_true. by destruct (containsString l s).
Qed.

(* ===================================================================== *)
(** * Mint redeemer indices *)
(* ===================================================================== *)








Lemma findIndex_Some {A} (f : A -> bool) (l : list A) :
  forall i, findIndex f l = Some i -> exists x, l !! i = Some x /\ f x = true.
Proof.
  induction l as [| x l IH]; intros i; simpl; [done |].
  destruct (f x) eqn:Hfx.
  - intros [= <-]. eauto.
  - destruct (findIndex f l) as [j |]; simpl; [| done].
    intros [= <-]. by apply IH.
Qed.

(** An entry whose position is found gets its key, provided no other
    entry of the map is given the same key. *)
Lemma addRedeemers_lookup position tagOf (entries : gmap string redeemerEntry) res :
  forall k entry i,
    entries !! k = Some entry -> position k = Some i ->
    (forall k' entry' i',
        entries !! k' = Some entry' -> position k' = Some i' ->
        mkRedeemerKey (tagOf entry') (uint32 (Z.of_nat i'))
        = mkRedeemerKey (tagOf entry) (uint32 (Z.of_nat i)) -> k' = k) ->
    addRedeemers position tagOf entries res
      !! mkRedeemerKey (tagOf entry) (uint32 (Z.of_nat i))
    = Some (mkRedeemerValue (EntryData entry) (EntryExUnits entry)).
Proof.
  unfold addRedeemers.
  apply (map_fold_weak_ind
    (fun r (m : gmap string redeemerEntry) =>
       forall k entry i,
         m !! k = Some entry -> position k = Some i ->
         (forall k' entry' i',
             m !! k' = Some entry' -> position k' = Some i' ->
             mkRedeemerKey (tagOf entry') (uint32 (Z.of_nat i'))
             = mkRedeemerKey (tagOf entry) (uint32 (Z.of_nat i)) -> k' = k) ->
         r !! mkRedeemerKey (tagOf entry) (uint32 (Z.of_nat i))
         = Some (mkRedeemerValue (EntryData entry) (EntryExUnits entry)))).
  - intros k entry i Hk. by rewrite lookup_empty in Hk.
  - intros j x m r Hj IH k entry i Hk Hpos Hinj.
    destruct (decide (j = k)) as [-> | Hne].
    + rewrite lookup_insert_eq in Hk. injection Hk as ->.
      rewrite Hpos. by rewrite lookup_insert_eq.
    + rewrite lookup_insert_ne in Hk by done.
      assert (IH' : r !! mkRedeemerKey (tagOf entry) (uint32 (Z.of_nat i))
                    = Some (mkRedeemerValue (EntryData entry) (EntryExUnits entry))).
      { apply (IH k); [done | done |]. intros k' entry' i' Hk' Hpos' Hkey.
        apply (Hinj k' entry' i'); [| done | done].
        rewrite lookup_insert_ne; [done |]. intros ->. congruence. }
      destruct (position j) as [i' |] eqn:Hposj; [| done].
      rewrite lookup_insert_ne; [done |]. intros Hkey.
      apply Hne. apply (Hinj j x i'); [by rewrite lookup_insert_eq | done | done].
Qed.

(** A key that no entry is given is left as it was. *)
Lemma addRedeemers_other position tagOf (entries : gmap string redeemerEntry) res key :
  (forall k entry i,
      entries !! k = Some entry -> position k = Some i ->
      mkRedeemerKey (tagOf entry) (uint32 (Z.of_nat i)) <> key) ->
  addRedeemers position tagOf entries res !! key = res !! key.
Proof.
  unfold addRedeemers.
  apply (map_fold_weak_ind
    (fun r (m : gmap string redeemerEntry) =>
       (forall k entry i,
           m !! k = Some entry -> position k = Some i ->
           mkRedeemerKey (tagOf entry) (uint32 (Z.of_nat i)) <> key) ->
       r !! key = res !! key)).
  - done.
  - intros j x m r Hj IH Hother.
    assert (IH' : r !! key = res !! key).
    { apply IH. intros k entry i Hk. apply (Hother k).
      rewrite lookup_insert_ne; [done |]. intros ->. congruence. }
    destruct (position j) as [i |] eqn:Hposj; [| done].
    rewrite lookup_insert_ne; [done |].
    apply (Hother j x i); [by rewrite lookup_insert_eq | done].
Qed.




Module MintExample.
Import Example.

Definition policyHex (c : string) : string :=
  String.concat "" (repeat c 56).

(** Two policies, attached in descending order of their hex ids. *)
Definition mintDescending : Apollo :=
  Mint
    (Mint (SetWallet (New (fixedContext preprodParameters [])) exampleWallet)
          (mkUnit (policyHex "b") "746f6b656e" 1) (Some (mkDatum "redeemerB"))
          (Some (mkExUnits 10 20)))
    (mkUnit (policyHex "a") "746f6b656e" 1) (Some (mkDatum "redeemerA"))
    (Some (mkExUnits 30 40)).

End MintExample.


(** The same scenario, evaluated: the units are listed b then a, the
    redeemer of policy a gets index 0 and that of policy b index 1. *)
Example mint_descending_indices :
  PolicyId <$> mint MintExample.mintDescending
    = [MintExample.policyHex "b"; MintExample.policyHex "a"] /\
  sortedMintPolicyIds MintExample.mintDescending
    = [MintExample.policyHex "a"; MintExample.policyHex "b"] /\
  buildRedeemerMap MintExample.mintDescending []
    = {[ mkRedeemerKey RedeemerTagMint 0
           := mkRedeemerValue (mkDatum "redeemerA") (mkExUnits 30 40);
         mkRedeemerKey RedeemerTagMint 1
           := mkRedeemerValue (mkDatum "redeemerB") (mkExUnits 10 20) ]}.
Proof. vm_compute. repeat split; reflexivity. Qed.

(** The redeemers of a finalized transaction are those of
    [buildRedeemerMap] on the finished builder. *)
Lemma balance_witnesses lib a w stakeDeposit totalRequired refundValue outputs inputs t :
  balance lib a w stakeDeposit totalRequired refundValue outputs inputs = Ok t ->
  WitnessSet t = buildWitnessSet a inputs.
Proof.
  unfold balance. intros H.
  apply bind_Ok_inv in H as (fee & _ & H).
  apply bind_Ok_inv in H as (totalInput & _ & H).
  apply bind_Ok_inv in H as ([outs fee'] & _ & H).
  apply bind_Ok_inv in H as (body & _ & H).
  by injection H as <-.
Qed.

Lemma Complete_redeemers (lib : Library) (a a' : Apollo) :
  Complete lib a = (a', Ok tt) ->
  exists t inputs,
    tx a' = Some t /\
    WsRedeemers (WitnessSet t) = buildRedeemerMap a' inputs.
Proof.
  unfold Complete. intros H.
  repeat match type of H with
         | context [match ?x with _ => _ end] => destruct x eqn:?; try discriminate H
         end;
    injection H as <-;
    match goal with
    | Hb : balance _ _ _ _ _ _ _ ?inputs = Ok ?t |- _ =>
        apply balance_witnesses in Hb; eexists _, inputs;
        (split; [apply tx_set_tx |]); simpl; by rewrite ?Hb
    end.
Qed.

(* ===================================================================== *)
(** * Saturating subtraction, entry by entry *)
(* ===================================================================== *)

(** What is left of a required quantity after a bundle that offers
    [offered] of the asset (or does not list it). *)
Definition leftAfter (reqQty : Z) (offered : option Z) : Z :=
  match offered with
  | Some utxoQty =>
      if reqQty <=? 0 then reqQty
      else reqQty - (if reqQty <=? utxoQty then reqQty else utxoQty)
  | None => reqQty
  end.

Lemma Asset_singleton (p0 n0 : string) (x : Z) p n :
  common.Asset {[ p0 := {[ n0 := x ]} ]} p n
  = if decide (p = p0 /\ n = n0) then Some x else None.
Proof.
  unfold common.Asset. destruct (decide (p = p0)) as [-> | Hp].
  - rewrite lookup_singleton_eq. simpl. destruct (decide (n = n0)) as [-> | Hn].
    + rewrite lookup_singleton_eq. by rewrite decide_True.
    + rewrite lookup_singleton_ne by done. rewrite decide_False; [done | by intros [_ ?]].
  - rewrite lookup_singleton_ne by done. simpl.
    rewrite decide_False; [done | by intros [? _]].
Qed.

Lemma saturatingVisit_Asset p0 n0 utxoQty (remaining : common.MultiAsset) p n :
  common.Asset (saturatingVisit p0 n0 utxoQty remaining) p n
  = if decide (p = p0 /\ n = n0)
    then (fun req => leftAfter req (Some utxoQty)) <$> common.Asset remaining p n
    else common.Asset remaining p n.
Proof.
  unfold saturatingVisit.
  destruct (common.Asset remaining p0 n0) as [reqQty |] eqn:Hreq.
  - destruct (Z.leb_spec reqQty 0) as [Hle | Hgt].
    + destruct (decide (p = p0 /\ n = n0)) as [[-> ->] |]; [| done].
      rewrite Hreq. simpl. destruct (Z.leb_spec reqQty 0); [done | lia].
    + unfold common.NewMultiAsset. rewrite common.Asset_Add, Asset_singleton.
      destruct (decide (p = p0 /\ n = n0)) as [[-> ->] |].
      * rewrite Hreq. simpl.
        destruct (Z.leb_spec reqQty 0); [lia |]. done.
      * by destruct (common.Asset remaining p n).
  - destruct (decide (p = p0 /\ n = n0)) as [[-> ->] |]; [| done]. by rewrite Hreq.
Qed.

Lemma Asset_insert_policy (m : common.MultiAsset) j (x : gmap string Z) p n :
  common.Asset (<[j := x]> m) p n
  = if decide (p = j) then x !! n else common.Asset m p n.
Proof.
  unfold common.Asset. destruct (decide (p = j)) as [-> | Hp].
  - by rewrite lookup_insert_eq.
  - by rewrite lookup_insert_ne.
Qed.

(** Every entry of the requirement is reduced by what the other bundle
    offers for it; no entry is added or removed. *)
Lemma subtractAssetsSaturating_Asset (r u : common.MultiAsset) :
  exists r',
    subtractAssetsSaturating (Some r) (Some u) = Some r' /\
    forall p n,
      common.Asset r' p n
      = (fun req => leftAfter req (common.Asset u p n)) <$> common.Asset r p n.
Proof.
  unfold subtractAssetsSaturating. eexists. split; [reflexivity |].
  apply (map_fold_weak_ind
    (fun (acc : common.MultiAsset) (m : common.MultiAsset) =>
       forall p n,
         common.Asset acc p n
         = (fun req => leftAfter req (common.Asset m p n)) <$> common.Asset r p n)).
  - intros p n. unfold common.Asset at 2. rewrite lookup_empty. simpl.
    by destruct (common.Asset r p n).
  - intros j x m acc Hj IH.
    assert (Hinner : forall p n,
      common.Asset (map_fold (fun assetName utxoQty acc' =>
                                saturatingVisit j assetName utxoQty acc') acc x) p n
      = if decide (p = j)
        then (fun req => leftAfter req (x !! n)) <$> common.Asset acc p n
        else common.Asset acc p n).
    { apply (map_fold_weak_ind
        (fun (acc' : common.MultiAsset) (am : gmap string Z) =>
           forall p n,
             common.Asset acc' p n
             = if decide (p = j)
               then (fun req => leftAfter req (am !! n)) <$> common.Asset acc p n
               else common.Asset acc p n)).
      - intros p n. rewrite lookup_empty. simpl.
        destruct (decide (p = j)); [| done]. by destruct (common.Asset acc p n).
      - intros n0 uq am acc' Hn0 IH' p n. rewrite saturatingVisit_Asset, IH'.
        destruct (decide (p = j)) as [-> | Hp].
        + destruct (decide (n = n0)) as [-> | Hn].
          * rewrite decide_True by done. rewrite lookup_insert_eq, Hn0.
            by destruct (common.Asset acc j n0).
          * rewrite decide_False by (by intros [_ ?]). by rewrite lookup_insert_ne.
        + rewrite decide_False by (by intros [? _]). done. }
    intros p n. rewrite Hinner, Asset_insert_policy, IH.
    destruct (decide (p = j)) as [-> |]; [| done].
    assert (Hm : common.Asset m j n = None) by (unfold common.Asset; by rewrite Hj).
    rewrite Hm. by destruct (common.Asset r j n).
Qed.

(* ===================================================================== *)
(** * Coin selection covers the requirement *)
(* ===================================================================== *)

Definition utxoCoin (u : Utxo) : Z := default 0 (OutAmount (Output u)).

Definition utxoQuantity (u : Utxo) (policyId assetName : string) : Z :=
  match OutAssets (Output u) with
  | Some m => default 0 (common.Asset m policyId assetName)
  | None => 0
  end.

Definition coinSum (l : list Utxo) : Z := foldr (fun u s => utxoCoin u + s) 0 l.

Definition quantitySum (l : list Utxo) (policyId assetName : string) : Z :=
  foldr (fun u s => utxoQuantity u policyId assetName + s) 0 l.

(** [covers required currentInput l]: the committed value together with
    the UTxOs of [l] is greater or equal to the requirement, on the coin
    and on every asset the requirement lists with a positive quantity.
    This is [GreaterOrEqual] with the sums written out. *)
Definition covers (required currentInput : Value) (l : list Utxo) : bool :=
  (Coin required <=? Coin currentInput + coinSum l)
  && match Assets required with
     | None => true
     | Some m =>
         common.allAssets
           (fun p n q =>
              (q <=? 0) || (q <=? quantityOf currentInput p n + quantitySum l p n)) m
     end.

(** A UTxO as the ledger has them: an amount that fits [uint64] and no
    negative quantity. *)
Definition wfUtxo (u : Utxo) : Prop :=
  (forall amt, OutAmount (Output u) = Some amt -> is_uint64 amt) /\
  match OutAssets (Output u) with
  | Some m => common.allAssets (fun _ _ q => 0 <=? q) m = true
  | None => True
  end.

Lemma utxoQuantity_nonneg u p n : wfUtxo u -> 0 <= utxoQuantity u p n.
Proof.
  intros [_ Hassets]. unfold utxoQuantity.
  destruct (OutAssets (Output u)) as [m |]; [| done].
  destruct (common.Asset m p n) as [q |] eqn:Hq; simpl; [| done].
  rewrite common.allAssets_true in Hassets. specialize (Hassets p n q Hq). lia.
Qed.

Lemma utxoCoin_range u : wfUtxo u -> is_uint64 (utxoCoin u).
Proof.
  intros [Hamt _]. unfold utxoCoin.
  destruct (OutAmount (Output u)) as [amt |]; simpl; [by apply Hamt |].
  unfold is_uint64, two64. lia.
Qed.

(** What is still required of an asset listed with quantity [q] once
    [supplied] of it has been supplied. *)
Definition need (q supplied : Z) : Z :=
  if q <=? 0 then q else Z.max 0 (q - supplied).

Lemma need_step q supplied offered :
  0 <= default 0 offered \/ supplied = 0 ->
  leftAfter (need q supplied) offered = need q (supplied + default 0 offered).
Proof.
  unfold leftAfter, need. intros H.
  destruct offered as [uq |]; simpl in *;
    repeat match goal with
           | |- context [?x <=? ?y] => destruct (Z.leb_spec x y)
           end; lia.
Qed.

Lemma coinSum_app l1 l2 : coinSum (l1 ++ l2) = coinSum l1 + coinSum l2.
Proof. induction l1 as [| u l1 IH]; simpl; [done |]. rewrite IH. lia. Qed.

Lemma quantitySum_app l1 l2 p n :
  quantitySum (l1 ++ l2) p n = quantitySum l1 p n + quantitySum l2 p n.
Proof. induction l1 as [| u l1 IH]; simpl; [done |]. rewrite IH. lia. Qed.

Lemma coinSum_nonneg l : (forall u, u ∈ l -> wfUtxo u) -> 0 <= coinSum l.
Proof.
  induction l as [| u l IH]; intros Hwf; simpl; [done |].
  pose proof (utxoCoin_range u (Hwf u (list_elem_of_here _ _))) as Hrange.
  unfold is_uint64 in Hrange.
  assert (0 <= coinSum l) by (apply IH; intros; by apply Hwf, list_elem_of_further).
  lia.
Qed.

Lemma quantitySum_nonneg l p n :
  (forall u, u ∈ l -> wfUtxo u) -> 0 <= quantitySum l p n.
Proof.
  induction l as [| u l IH]; intros Hwf; simpl; [done |].
  pose proof (utxoQuantity_nonneg u p n (Hwf u (list_elem_of_here _ _))) as Hq.
  assert (0 <= quantitySum l p n) by (apply IH; intros; by apply Hwf, list_elem_of_further).
  lia.
Qed.

Lemma coinSum_sublist l1 l2 :
  l1 `sublist_of` l2 -> (forall u, u ∈ l2 -> wfUtxo u) -> coinSum l1 <= coinSum l2.
Proof.
  induction 1 as [| u l1 l2 Hsub IH | u l1 l2 Hsub IH]; intros Hwf; simpl.
  - done.
  - assert (coinSum l1 <= coinSum l2) by (apply IH; intros; by apply Hwf, list_elem_of_further).
    lia.
  - assert (coinSum l1 <= coinSum l2) by (apply IH; intros; by apply Hwf, list_elem_of_further).
    pose proof (utxoCoin_range u (Hwf u (list_elem_of_here _ _))) as Hrange.
    unfold is_uint64 in Hrange. lia.
Qed.

Lemma quantitySum_sublist l1 l2 p n :
  l1 `sublist_of` l2 -> (forall u, u ∈ l2 -> wfUtxo u) ->
  quantitySum l1 p n <= quantitySum l2 p n.
Proof.
  induction 1 as [| u l1 l2 Hsub IH | u l1 l2 Hsub IH]; intros Hwf; simpl.
  - done.
  - assert (quantitySum l1 p n <= quantitySum l2 p n)
      by (apply IH; intros; by apply Hwf, list_elem_of_further).
    lia.
  - assert (quantitySum l1 p n <= quantitySum l2 p n)
      by (apply IH; intros; by apply Hwf, list_elem_of_further).
    pose proof (utxoQuantity_nonneg u p n (Hwf u (list_elem_of_here _ _))) as Hq. lia.
Qed.

Lemma covers_true required currentInput l :
  covers required currentInput l = true <->
  Coin required <= Coin currentInput + coinSum l /\
  forall p n q, assetOf required p n = Some q -> 0 < q ->
                q <= quantityOf currentInput p n + quantitySum l p n.
Proof.
  unfold covers, assetOf. rewrite andb_true_iff, Z.leb_le.
  destruct (Assets required) as [m |]; simpl.
  - rewrite common.allAssets_true. split; intros [Hc Ha]; (split; [done |]).
    + intros p n q Hq Hpos. specialize (Ha p n q Hq).
      apply orb_true_iff in Ha as [Ha | Ha]; apply Z.leb_le in Ha; lia.
    + intros p n q Hq. apply orb_true_iff.
      destruct (Z.leb_spec q 0); [by left | right].
      apply Z.leb_le. by apply Ha.
  - split; intros [Hc _]; (split; [done |]); done.
Qed.

(** More UTxOs cover at least as much. *)
Lemma covers_sublist required currentInput l1 l2 :
  l1 `sublist_of` l2 -> (forall u, u ∈ l2 -> wfUtxo u) ->
  covers required currentInput l1 = true -> covers required currentInput l2 = true.
Proof.
  intros Hsub Hwf. rewrite !covers_true. intros [Hc Ha]. split.
  - pose proof (coinSum_sublist _ _ Hsub Hwf). lia.
  - intros p n q Hq Hpos. specialize (Ha p n q Hq Hpos).
    pose proof (quantitySum_sublist _ _ p n Hsub Hwf). lia.
Qed.

Lemma allAssets_ext f g (m : common.MultiAsset) :
  (forall p n q, common.Asset m p n = Some q -> f p n q = g p n q) ->
  common.allAssets f m = common.allAssets g m.
Proof.
  intros Hfg. destruct (common.allAssets g m) eqn:Hg.
  - rewrite common.allAssets_true in Hg |- *. intros p n q Hq.
    rewrite Hfg by done. by apply Hg.
  - rewrite common.allAssets_false in Hg |- *.
    destruct Hg as (p & n & q & Hq & Hfalse). exists p, n, q.
    split; [done |]. by rewrite Hfg.
Qed.

(** [GreaterOrEqual] is [covers] without any UTxO. *)
Lemma GreaterOrEqual_covers currentInput required :
  ValueOps.GreaterOrEqual currentInput required = covers required currentInput [].
Proof.
  unfold ValueOps.GreaterOrEqual, covers. simpl. rewrite Z.add_0_r.
  destruct (Z.ltb_spec (Coin currentInput) (Coin required)) as [Hlt | Hge].
  - destruct (Z.leb_spec (Coin required) (Coin currentInput)); [lia | done].
  - destruct (Z.leb_spec (Coin required) (Coin currentInput)); [| lia]. simpl.
    destruct (Assets required) as [o |] eqn:Ho; [| done].
    unfold quantityOf. destruct (Assets currentInput) as [d |] eqn:Hd.
    + apply allAssets_ext. intros p n q Hq.
      destruct (Z.leb_spec q 0); [done |]. simpl.
      destruct (common.Asset d p n) as [my |]; simpl.
      * rewrite Z.add_0_r. destruct (Z.ltb_spec my q), (Z.leb_spec q my); done || lia.
      * destruct (Z.leb_spec q 0); done || lia.
    + unfold MultiAssetIsEmpty. apply allAssets_ext. intros p n q Hq.
      destruct (Z.ltb_spec 0 q), (Z.leb_spec q 0); simpl; try done; try lia.
Qed.

Lemma HasAssets_false v :
  ValueOps.HasAssets v = false <->
  forall p n x, assetOf v p n = Some x -> x <= 0.
Proof.
  unfold ValueOps.HasAssets, assetOf.
  destruct (Assets v) as [m |]; simpl; [| done].
  rewrite negb_false_iff. fold (MultiAssetIsEmpty (Some m)).
  apply MultiAssetIsEmpty_true.
Qed.

Section SelectionInvariant.

Variables required currentInput : Value.
Hypothesis wf_required : wfValue required.
Hypothesis wf_currentInput : wfValue currentInput.

(** The remaining requirement after the UTxOs of [l] have been consumed. *)
Definition remainingAfter (l : list Utxo) (remaining : Value) : Prop :=
  (0 <= coinSum l /\
   Coin remaining = Z.max 0 (Coin required - Coin currentInput - coinSum l)) /\
  forall p n,
    assetOf remaining p n
    = (fun q => need q (quantityOf currentInput p n + quantitySum l p n))
        <$> assetOf required p n.

Lemma need_fresh q : need q 0 = q.
Proof. unfold need. destruct (Z.leb_spec q 0); lia. Qed.

Lemma initialRemaining_spec :
  remainingAfter [] (initialRemaining required currentInput).
Proof.
  unfold remainingAfter, initialRemaining, wfValue, is_uint64 in *. simpl. split.
  - split; [done |].
    destruct (Z.ltb_spec (Coin currentInput) (Coin required)); [| lia].
    rewrite uint64_id by (unfold is_uint64; lia). lia.
  - intros p n. unfold assetOf, quantityOf. cbn [Assets quantitySum foldr].
    rewrite CloneMultiAsset_id.
    destruct (Assets required) as [r |]; [| done].
    destruct (Assets currentInput) as [c |].
    + destruct (subtractAssetsSaturating_Asset r c) as (r' & -> & Hr'). simpl.
      rewrite Hr'. destruct (common.Asset r p n) as [q |]; simpl; [| done].
      f_equal. rewrite <- (need_fresh q) at 1. rewrite need_step by (by right).
      f_equal. lia.
    + simpl. destruct (common.Asset r p n) as [q |]; simpl; [| done].
      f_equal. by rewrite need_fresh.
Qed.

Lemma consume_assetOf remaining u p n :
  assetOf (consume remaining u) p n
  = (fun x => leftAfter x (OutAssets (Output u) ≫= fun m => common.Asset m p n))
      <$> assetOf remaining p n.
Proof.
  unfold consume, assetOf. cbn [Assets].
  destruct (Assets remaining) as [r |]; [| done].
  destruct (OutAssets (Output u)) as [m |].
  - destruct (subtractAssetsSaturating_Asset r m) as (r' & -> & Hr'). simpl.
    by rewrite Hr'.
  - simpl. by destruct (common.Asset r p n).
Qed.

Lemma consume_spec l remaining u :
  wfUtxo u -> remainingAfter l remaining -> remainingAfter (l ++ [u]) (consume remaining u).
Proof.
  intros Hu [[Hsum Hcoin] Hassets]. pose proof (utxoCoin_range u Hu) as Hrange.
  pose proof (fun p n => utxoQuantity_nonneg u p n Hu) as Hq. clear Hu. split.
  - unfold consume. cbn [Coin]. rewrite coinSum_app. simpl.
    unfold utxoCoin in *. unfold wfValue, is_uint64 in *.
    destruct (OutAmount (Output u)) as [amt |]; simpl in *; [| lia].
    rewrite (uint64_id amt) by done. split; [lia |].
    destruct (Z.leb_spec (Coin remaining) amt); [lia |].
    rewrite uint64_id by (unfold is_uint64; lia). lia.
  - intros p n. rewrite consume_assetOf, Hassets, quantitySum_app. simpl.
    destruct (assetOf required p n) as [q |]; simpl; [| done]. f_equal.
    specialize (Hq p n). unfold utxoQuantity in *.
    rewrite need_step.
    + f_equal. destruct (OutAssets (Output u)); simpl; lia.
    + left. by destruct (OutAssets (Output u)).
Qed.

(** The loop stops exactly when what was consumed covers the requirement. *)
Lemma satisfied_covers l remaining :
  remainingAfter l remaining ->
  (Coin remaining =? 0) && negb (ValueOps.HasAssets remaining)
  = covers required currentInput l.
Proof.
  intros [[Hsum Hcoin] Hassets].
  destruct (covers required currentInput l) eqn:Hcov.
  - apply covers_true in Hcov as [Hc Ha]. apply andb_true_iff. split.
    + apply Z.eqb_eq. lia.
    + apply negb_true_iff, HasAssets_false. intros p n x. rewrite Hassets.
      destruct (assetOf required p n) as [q |] eqn:Hq; simpl; [| done].
      intros [= <-]. unfold need. destruct (Z.leb_spec q 0); [done |].
      specialize (Ha p n q Hq). lia.
  - apply andb_false_iff.
    destruct (Z.eqb_spec (Coin remaining) 0) as [Hzero | Hnz]; [| by left]. right.
    apply negb_false_iff. destruct (ValueOps.HasAssets remaining) eqn:Hhas; [done |].
    rewrite HasAssets_false in Hhas.
    assert (covers required currentInput l = true); [| congruence].
    apply covers_true. split; [lia |]. intros p n q Hq Hpos.
    specialize (Hhas p n). rewrite Hassets, Hq in Hhas. simpl in Hhas.
    specialize (Hhas _ eq_refl). unfold need in Hhas.
    destruct (Z.leb_spec q 0); lia.
Qed.

Lemma unsatisfied_covers l remaining :
  remainingAfter l remaining ->
  (0 <? Coin remaining) || ValueOps.HasAssets remaining
  = negb (covers required currentInput l).
Proof.
  intros Hrem. rewrite <- (satisfied_covers l remaining Hrem).
  destruct Hrem as [[_ Hcoin] _].
  destruct (Z.ltb_spec 0 (Coin remaining)), (Z.eqb_spec (Coin remaining) 0);
    simpl; try lia; try done.
  by destruct (ValueOps.HasAssets remaining).
Qed.

(** The loop, from a point where [consumed] has been consumed: a
    success has selected UTxOs that cover the requirement, a failure
    means that not even all unused UTxOs of the rest would. *)
Lemma selectLoop_covers a sorted :
  (forall u, u ∈ sorted -> wfUtxo u) ->
  forall consumed remaining selected selectedRefs,
    remainingAfter consumed remaining ->
    match selectLoop a sorted remaining selected selectedRefs with
    | (_, Ok s) =>
        exists extra, s = selected ++ extra /\
                      covers required currentInput (consumed ++ extra) = true
    | (_, Err _) =>
        covers required currentInput
               (consumed ++ filter (fun u => isUsed a (utxoRef u) = false) sorted) = false
    end.
Proof.
  induction sorted as [| utxo rest IH]; intros Hwf consumed remaining selected selectedRefs Hrem;
    cbn [selectLoop].
  - rewrite (unsatisfied_covers consumed remaining Hrem). rewrite app_nil_r.
    destruct (covers required currentInput consumed) eqn:Hcov; simpl; [| done].
    exists []. by rewrite !app_nil_r.
  - assert (Hwf' : forall u, u ∈ rest -> wfUtxo u)
      by (intros; by apply Hwf, list_elem_of_further).
    destruct (isUsed a (utxoRef utxo)) eqn:Hused.
    + rewrite filter_cons_False by (by rewrite Hused). by apply IH.
    + rewrite filter_cons_True by done.
      pose proof (consume_spec consumed remaining utxo
                    (Hwf utxo (list_elem_of_here _ _)) Hrem) as Hrem'.
      rewrite (satisfied_covers _ _ Hrem').
      destruct (covers required currentInput (consumed ++ [utxo])) eqn:Hcov.
      * by exists [utxo].
      * specialize (IH Hwf' (consumed ++ [utxo]) (consume remaining utxo)
                       (selected ++ [utxo]) (selectedRefs ++ [utxoRef utxo]) Hrem').
        destruct (selectLoop a rest _ _ _) as [a' [s | e]].
        -- destruct IH as (extra & -> & Hc). exists (utxo :: extra).
           rewrite <- !app_assoc in *. done.
        -- by rewrite <- app_assoc in IH.
Qed.

End SelectionInvariant.

(* --------------------------------------------------------------------- *)
(** ** The order of the pool does not matter for what it covers *)
(* --------------------------------------------------------------------- *)

Lemma coinSum_Permutation l1 l2 : l1 ≡ₚ l2 -> coinSum l1 = coinSum l2.
Proof. induction 1; simpl; lia. Qed.

Lemma quantitySum_Permutation l1 l2 p n :
  l1 ≡ₚ l2 -> quantitySum l1 p n = quantitySum l2 p n.
Proof. induction 1; simpl; lia. Qed.

Lemma covers_Permutation required currentInput l1 l2 :
  l1 ≡ₚ l2 -> covers required currentInput l1 = covers required currentInput l2.
Proof.
  intros Hperm. unfold covers. rewrite (coinSum_Permutation l1 l2 Hperm). f_equal.
  destruct (Assets required) as [m |]; [| done].
  apply allAssets_ext. intros p n q _.
  by rewrite (quantitySum_Permutation l1 l2 p n Hperm).
Qed.

(* --------------------------------------------------------------------- *)
(** ** The value of the selected UTxOs *)
(* --------------------------------------------------------------------- *)

Lemma sumUtxoValues_snoc l u :
  sumUtxoValues (l ++ [u])
  = let total := sumUtxoValues l in
    mkValue
      match OutAmount (Output u) with
      | Some amt =>
          let sum := uint64 (Coin total + uint64 amt) in
          if sum <? Coin total then MaxUint64 else sum
      | None => Coin total
      end
      match OutAssets (Output u) with
      | Some ua =>
          match Assets total with
          | None => CloneMultiAsset (OutAssets (Output u))
          | Some ta => Some (common.Add ta ua)
          end
      | None => Assets total
      end.
Proof. unfold sumUtxoValues. by rewrite foldl_app. Qed.

Lemma sumUtxoValues_quantity l p n :
  quantityOf (sumUtxoValues l) p n = quantitySum l p n.
Proof.
  induction l as [| u l IH] using rev_ind; [done |].
  rewrite sumUtxoValues_snoc, quantitySum_app. cbn zeta. simpl quantitySum.
  rewrite <- IH. unfold quantityOf, utxoQuantity. cbn [Assets].
  destruct (OutAssets (Output u)) as [ua |] eqn:Hua; [| lia].
  destruct (Assets (sumUtxoValues l)) as [ta |].
  - rewrite common.Asset_Add.
    destruct (common.Asset ta p n), (common.Asset ua p n); simpl; lia.
  - rewrite CloneMultiAsset_id. lia.
Qed.

(** The coin of the sum is the sum of the coins, or the largest [uint64]
    where that does not fit. *)
Lemma sumUtxoValues_coin l :
  (forall u, u ∈ l -> wfUtxo u) ->
  Coin (sumUtxoValues l) = Z.min MaxUint64 (coinSum l).
Proof.
  induction l as [| u l IH] using rev_ind; intros Hwf.
  - simpl. unfold MaxUint64, two64. lia.
  - assert (Hl : forall v, v ∈ l -> wfUtxo v)
      by (intros v Hv; apply Hwf, elem_of_app; by left).
    assert (Hu : wfUtxo u) by (apply Hwf, elem_of_app; right; apply list_elem_of_here).
    pose proof (coinSum_nonneg l Hl) as Hnonneg.
    pose proof (utxoCoin_range u Hu) as Hrange.
    rewrite sumUtxoValues_snoc, coinSum_app. cbn zeta. cbn [Coin]. rewrite (IH Hl).
    simpl coinSum. unfold utxoCoin, is_uint64, MaxUint64 in *.
    destruct (OutAmount (Output u)) as [amt |]; simpl in *; [| lia].
    rewrite (uint64_id amt) by done.
    set (t := Z.min (two64 - 1) (coinSum l)).
    assert (Ht : 0 <= t < two64) by (unfold t, two64; lia).
    destruct (Z.lt_ge_cases (t + amt) two64) as [Hfit | Hover].
    + rewrite uint64_id by (unfold is_uint64; lia).
      destruct (Z.ltb_spec (t + amt) t); lia.
    + assert (Hwrap : uint64 (t + amt) = t + amt - two64).
      { unfold uint64. symmetry. apply (Z.mod_unique _ _ 1); unfold two64 in *; lia. }
      rewrite Hwrap. destruct (Z.ltb_spec (t + amt - two64) t); lia.
Qed.

(** [GreaterOrEqual] on any value that holds what [covers] adds up. *)
Lemma covers_GreaterOrEqual required currentInput l total :
  covers required currentInput l = true ->
  (Coin required <= Coin currentInput + coinSum l -> Coin required <= Coin total) ->
  (forall p n, quantityOf total p n = quantityOf currentInput p n + quantitySum l p n) ->
  ValueOps.GreaterOrEqual total required = true.
Proof.
  intros Hcov Hcoin Hq. rewrite GreaterOrEqual_covers.
  apply covers_true in Hcov as [Hc Ha]. apply covers_true. simpl. split; [lia |].
  intros p n q Hasset Hpos. specialize (Ha p n q Hasset Hpos). rewrite Hq. lia.
Qed.

(* --------------------------------------------------------------------- *)
(** ** What [selectCoins] returns *)
(* --------------------------------------------------------------------- *)

Lemma selectCoins_Ok a required currentInput a' selected :
  selectCoins a required currentInput = (a', Ok selected) ->
  a' = set_usedUtxos a (usedUtxos a ++ (utxoRef <$> selected)) /\
  selected `sublist_of`
    filter (fun u => isUsed a (utxoRef u) = false) (SortUtxos (utxos a)).
Proof.
  unfold selectCoins. destruct (ValueOps.GreaterOrEqual currentInput required).
  - intros [= <- <-]. simpl. rewrite app_nil_r, set_usedUtxos_same.
    split; [done | apply sublist_nil_l].
  - intros Hloop. apply selectLoop_outcome in Hloop.
    by destruct Hloop as (extra & -> & -> & Hsub).
Qed.

Lemma selectCoins_Err a required currentInput a' e :
  selectCoins a required currentInput = (a', Err e) ->
  a' = a /\ e = "insufficient UTxOs to cover required value"%string.
Proof.
  unfold selectCoins. destruct (ValueOps.GreaterOrEqual currentInput required); [done |].
  intros Hloop. by apply selectLoop_outcome in Hloop.
Qed.

Lemma wfUtxo_SortUtxos l :
  (forall u, u ∈ l -> wfUtxo u) -> forall u, u ∈ SortUtxos l -> wfUtxo u.
Proof. intros Hwf u Hu. apply Hwf. by apply elem_of_sortSlice in Hu. Qed.

Lemma wfUtxo_filter (P : Utxo -> Prop) `{!forall u, Decision (P u)} (l : list Utxo) :
  (forall u, u ∈ l -> wfUtxo u) -> forall u, u ∈ filter P l -> wfUtxo u.
Proof. intros Hwf u Hu. apply Hwf. by apply list_elem_of_filter in Hu as [_ ?]. Qed.

(** The unused UTxOs of the pool, in the order of the pool or sorted,
    cover the same. *)
Lemma covers_available a required currentInput :
  covers required currentInput
    (filter (fun u => isUsed a (utxoRef u) = false) (SortUtxos (utxos a)))
  = covers required currentInput
      (filter (fun u => isUsed a (utxoRef u) = false) (utxos a)).
Proof.
  apply covers_Permutation, filter_Permutation. apply sortSlice_Permutation.
Qed.

(** A selection covers the requirement; a failure means that the unused
    UTxOs of the pool, all together, do not. *)
Lemma selectCoins_covers a required currentInput :
  wfValue required -> wfValue currentInput ->
  (forall u, u ∈ utxos a -> wfUtxo u) ->
  match selectCoins a required currentInput with
  | (_, Ok selected) => covers required currentInput selected = true
  | (_, Err _) =>
      covers required currentInput
        (filter (fun u => isUsed a (utxoRef u) = false) (utxos a)) = false
  end.
Proof.
  intros Hreq Hcur Hwf. unfold selectCoins.
  destruct (ValueOps.GreaterOrEqual currentInput required) eqn:Hge.
  - by rewrite <- GreaterOrEqual_covers.
  - pose proof (selectLoop_covers required currentInput Hreq Hcur a
                  (SortUtxos (utxos a)) (wfUtxo_SortUtxos _ Hwf) []
                  (initialRemaining required currentInput) [] []
                  (initialRemaining_spec required currentInput Hreq Hcur)) as Hloop.
    destruct (selectLoop a _ _ _ _) as [a' [s | e]].
    + by destruct Hloop as (extra & -> & Hcov).
    + simpl in Hloop. by rewrite covers_available in Hloop.
Qed.

Lemma usedUtxos_set_usedUtxos a l : usedUtxos (set_usedUtxos a l) = l.
Proof. done. Qed.

Lemma isUsed_committed a refs ref :
  ref ∈ refs -> isUsed (set_usedUtxos a (usedUtxos a ++ refs)) ref = true.
Proof.
  intros Hin. unfold isUsed. rewrite usedUtxos_set_usedUtxos.
  assert (H : containsString (usedUtxos a ++ refs) ref = true)
    by (apply containsString_true, elem_of_app; by right).
  by rewrite H.
Qed.

(** The value the builder computes for a selection, added to what was
    committed, is greater or equal to the requirement. *)
Lemma selected_GreaterOrEqual required currentInput selected :
  wfValue required -> wfValue currentInput ->
  (forall u, u ∈ selected -> wfUtxo u) ->
  covers required currentInput selected = true ->
  Coin currentInput + Coin (sumUtxoValues selected) < two64 ->
  exists total,
    ValueOps.Add currentInput (sumUtxoValues selected) = Ok total /\
    ValueOps.GreaterOrEqual total required = true.
Proof.
  intros Hreq Hcur Hwf Hcov Hfit.
  pose proof (sumUtxoValues_coin selected Hwf) as Hcoin.
  pose proof (coinSum_nonneg selected Hwf) as Hnonneg.
  assert (Hsum : wfValue (sumUtxoValues selected)).
  { unfold wfValue, is_uint64. rewrite Hcoin. unfold MaxUint64, two64. lia. }
  destruct (ValueOps.Add currentInput (sumUtxoValues selected)) as [total | e] eqn:Hadd.
  - exists total. split; [done |].
    destruct (Add_Ok_inv _ _ _ Hcur Hsum Hadd) as (Htotal & _ & Hassets).
    apply (covers_GreaterOrEqual required currentInput selected); [done | |].
    + intros Hle. rewrite Htotal, Hcoin.
      unfold wfValue, is_uint64, MaxUint64 in *. lia.
    + intros p n. rewrite !quantityOf_assetOf, Hassets.
      rewrite <- sumUtxoValues_quantity, !quantityOf_assetOf.
      destruct (assetOf currentInput p n), (assetOf (sumUtxoValues selected) p n);
        simpl; lia.
  - exfalso. unfold ValueOps.Add in Hadd.
    rewrite uint64_add_overflow in Hadd by done.
    destruct (Z.leb_spec two64 (Coin currentInput + Coin (sumUtxoValues selected)));
      [lia | done].
Qed.

(** C5: coin selection against a pool of well-formed UTxOs.  Let
    [available] be the UTxOs of the pool whose reference is not marked
    used.  If [available] covers what [required] asks beyond
    [currentInput], [selectCoins] returns a selection that covers it: the
    value the builder sums for the selection, added to [currentInput], is
    [GreaterOrEqual] the requirement whenever that sum fits a [uint64].
    Every selected UTxO comes from the pool, was not marked used before,
    and is marked used afterwards, so that a later selection on the
    resulting builder never selects its reference again; and a pool with
    distinct references gives a selection with distinct references.  If
    [available] does not cover the requirement, [selectCoins] returns the
    insufficient-UTxOs error, with no selection and the builder as it
    was. *)
Theorem selectCoins_covers_or_fails (a : Apollo) (required currentInput : Value) :
  wfValue required -> wfValue currentInput ->
  (forall u, u ∈ utxos a -> wfUtxo u) ->
  let available := filter (fun u => isUsed a (utxoRef u) = false) (utxos a) in
  if covers required currentInput available
  then
    exists a' selected,
      selectCoins a required currentInput = (a', Ok selected) /\
      covers required currentInput selected = true /\
      (Coin currentInput + Coin (sumUtxoValues selected) < two64 ->
       exists total,
         ValueOps.Add currentInput (sumUtxoValues selected) = Ok total /\
         ValueOps.GreaterOrEqual total required = true) /\
      (forall u, u ∈ selected ->
                 u ∈ utxos a /\ isUsed a (utxoRef u) = false /\
                 isUsed a' (utxoRef u) = true) /\
      (forall required' currentInput' a'' later,
          selectCoins a' required' currentInput' = (a'', Ok later) ->
          forall u v, u ∈ selected -> v ∈ later -> utxoRef u <> utxoRef v) /\
      (NoDup (utxoRef <$> utxos a) -> NoDup (utxoRef <$> selected))
  else
    selectCoins a required currentInput
    = (a, Err "insufficient UTxOs to cover required value").
Proof.
  intros Hreq Hcur Hwf available.
  pose proof (selectCoins_covers a required currentInput Hreq Hcur Hwf) as Hcov.
  destruct (selectCoins a required currentInput) as [a' [selected | e]] eqn:Hsel.
  - destruct (selectCoins_Ok _ _ _ _ _ Hsel) as [Ha' Hsub].
    assert (Hin : forall u, u ∈ selected ->
                            u ∈ utxos a /\ isUsed a (utxoRef u) = false).
    { intros u Hu. apply (elem_of_sublist _ _ _ Hu) in Hsub as Hu'.
      clear Hu. rename Hu' into Hu.
      apply list_elem_of_filter in Hu as [Hunused Hu].
      by apply elem_of_sortSlice in Hu. }
    assert (Hwfs : forall u, u ∈ selected -> wfUtxo u)
      by (intros u Hu; by apply Hwf, Hin).
    assert (Havail : covers required currentInput available = true).
    { unfold available. rewrite <- covers_available.
      apply (covers_sublist _ _ selected); [done | | done].
      by apply wfUtxo_filter, wfUtxo_SortUtxos. }
    rewrite Havail. exists a', selected.
    split; [done |]. split; [done |]. split; [| split; [| split]].
    + by apply selected_GreaterOrEqual.
    + intros u Hu. destruct (Hin u Hu) as [Hpool Hunused].
      split; [done |]. split; [done |]. rewrite Ha'.
      apply isUsed_committed, list_elem_of_fmap. by exists u.
    + intros required' currentInput' a'' later Hlater u v Hu Hv Heq.
      destruct (selectCoins_Ok _ _ _ _ _ Hlater) as [_ Hsub'].
      apply (elem_of_sublist _ _ _ Hv) in Hsub' as Hv'.
      clear Hv. rename Hv' into Hv.
      apply list_elem_of_filter in Hv as [Hunused _].
      rewrite <- Heq, Ha', isUsed_committed in Hunused; [done |].
      apply list_elem_of_fmap. by exists u.
    + intros Hnodup. apply (sublist_NoDup _ (utxoRef <$> SortUtxos (utxos a))).
      * unfold SortUtxos. by rewrite sortSlice_Permutation.
      * apply fmap_sublist. etransitivity; [exact Hsub | apply sublist_filter].
  - fold available in Hcov. rewrite Hcov.
    by destruct (selectCoins_Err _ _ _ _ _ Hsel) as [-> ->].
Qed.

Module SelectionExample.

(** A UTxO of 2 ADA that also holds five tokens. *)
Definition tokenUtxo : Utxo :=
  mkUtxo (mkInput (Example.txHash 3) 0)
         (mkTransactionOutput Example.walletAddress (Some 2000000)
                              (Some {[ policyA := {[ tokenName := 5 ]} ]})).

Definition pool : list Utxo :=
  [Example.adaUtxo 1 0 3000000; tokenUtxo; Example.adaUtxo 2 1 10000000].

Definition builder : Apollo :=
  AddLoadedUTxOs
    (SetWallet (New (Example.fixedContext Example.preprodParameters [])) Example.exampleWallet)
    pool.

(** 11 ADA and two tokens. *)
Definition required : Value :=
  mkValue 11000000 (Some {[ policyA := {[ tokenName := 2 ]} ]}).

End SelectionExample.

(** C5 at a pool of three UTxOs: the selection for 11 ADA and two tokens
    takes the two ADA-only UTxOs, larger first, and then the one that
    holds the tokens. *)
Lemma selectCoins_covers_or_fails_witness :
  exists a' selected,
    selectCoins SelectionExample.builder SelectionExample.required emptyValue
    = (a', Ok selected) /\
    selected = [Example.adaUtxo 2 1 10000000; Example.adaUtxo 1 0 3000000;
                SelectionExample.tokenUtxo] /\
    covers SelectionExample.required emptyValue selected = true /\
    forall u, u ∈ selected -> isUsed a' (utxoRef u) = true.
Proof.
  pose proof (selectCoins_covers_or_fails
                SelectionExample.builder SelectionExample.required emptyValue) as H.
  assert (Hcov : covers SelectionExample.required emptyValue
                   (filter (fun u => isUsed SelectionExample.builder (utxoRef u) = false)
                           (utxos SelectionExample.builder)) = true)
    by (vm_compute; reflexivity).
  cbv zeta in H. rewrite Hcov in H.
  destruct H as (a' & selected & Hsel & Hcovers & _ & Hused & _).
  - unfold wfValue, is_uint64, two64. simpl. lia.
  - unfold wfValue, is_uint64, two64. simpl. lia.
  - intros u Hu. change (utxos SelectionExample.builder) with SelectionExample.pool in Hu.
    unfold SelectionExample.pool in Hu.
    repeat (apply elem_of_cons in Hu as [-> | Hu]).
    4: { apply elem_of_nil in Hu. destruct Hu. }
    all: split; [intros amt [= <-]; unfold is_uint64, two64; lia | vm_compute].
    all: exact I || reflexivity.
  - exists a', selected. split; [exact Hsel |]. split; [| split; [exact Hcovers |]].
    + vm_compute in Hsel. injection Hsel as _ <-. reflexivity.
    + intros u Hu. apply (Hused u Hu).
Defined.

(* ===================================================================== *)
(** * The change output of the fee loop *)
(* ===================================================================== *)






Lemma Sub_coin (v other r : Value) :
  ValueOps.Sub v other = Ok r ->
  Coin other <= Coin v /\ Coin r = uint64 (Coin v - Coin other).
Proof.
  unfold ValueOps.Sub.
  destruct (Z.ltb_spec (Coin v) (Coin other)); [done |]. intros Hsub.
  split; [lia |].
  destruct (Assets v), (Assets other); simpl in Hsub.
  - apply bind_Ok_inv in Hsub as (assets & _ & [= <-]). done.
  - by injection Hsub as <-.
  - destruct (negb _); [done |]. by injection Hsub as <-.
  - by injection Hsub as <-.
Qed.






Section ChangeRule.

Variables (lib : Library) (a : Apollo) (stakeDeposit : Z).
Variables (outputsValue totalRequired totalInput : Value) (changeAddr : Address).
Variable baseOutputs : list BabbageTransactionOutput.

(** How [Complete] computes what the outputs require, and an input total
    that fits a signed 64-bit integer. *)
Hypothesis outputs_value : totalOutputValue baseOutputs = Ok outputsValue.
Hypothesis required_value :
  totalRequired = adjustForCertificateDeposits a outputsValue stakeDeposit.
Hypothesis input_range : 0 <= Coin totalInput < two63.






End ChangeRule.


Module ChangeExample.
Import Example.

(** A UTxO of 3 ADA that also holds five tokens. *)
Definition tokenUtxo : Utxo :=
  mkUtxo (mkInput (txHash 3) 0)
         (mkTransactionOutput walletAddress (Some 3000000)
                              (Some {[ policyA := {[ tokenName := 5 ]} ]})).


Definition baseOutputs : list BabbageTransactionOutput :=
  [NewBabbageOutput walletAddress (mkValue 2000000 None) None None].

End ChangeExample.



(* ===================================================================== *)
(** * [Clone]: what the copy shares with the original *)
(* ===================================================================== *)

(** The sections above read the builder as a value.  [Clone] is about
    references, so this module models the memory the builder points into:
    a heap of cells, with slices, maps and pointers as locations. *)
Module Memory.

#[local] Open Scope nat_scope.

Abbreviation loc := nat.

(** A slice: its backing array, [None] for the nil slice, and its
    length. *)
Record slice : Type := mkSlice {
  array : option loc;
  sliceLen : nat
}.

Definition nilSlice : slice := mkSlice None 0.

(** An element of a backing array. *)
Inductive elem : Type :=
| EUnit (u : Unit)
| EUtxo (u : Utxo)
| EAddress (a : Address)
| EDatum (d : Datum)
| EString (s : string)
| EInput (i : ShelleyTransactionInput)
| ECertificate (c : CertificateWrapper)
| EByte (b : Z)
| EPointer (l : loc).                  (* a [PaymentI] holding a pointer *)

(** A value of [map[uint64]any]: immediate, or a nested map or slice,
    which Go holds by reference. *)
Inductive metaValue : Type :=
| MetaImmediate (v : any)
| MetaMapRef (l : loc)
| MetaSliceRef (s : slice).

(** The [Payment] struct. *)
Record Payment : Type := mkPayment {
  Lovelace : Z;
  Receiver : Address;
  Units : slice;                       (* []Unit *)
  Datum : option loc;                  (* *common.Datum *)
  DatumHash : slice;                   (* []byte *)
  IsInline : bool;
  ScriptRef : option loc               (* *common.ScriptRef *)
}.

Inductive cell : Type :=
| Array (elems : list elem)
| RedeemerMap (m : gmap string redeemerEntry)
| WithdrawalMap (m : gmap string withdrawalEntry)
| MetadataMap (m : gmap Z metaValue)
| PaymentStruct (p : Payment)
| AddressBox (a : Address)
| OutputBox (o : BabbageTransactionOutput)
| AuxDataBox (metadata : option loc)
| TransactionBox (t : ConwayTransaction)
| OtherBox.                            (* any other object *)

Abbreviation Heap := (list cell).

(** The [Apollo] struct, with its slices, maps and pointers as
    references into the heap. *)
Record Apollo : Type := mkApollo {
  Context : backend.ChainContext;
  payments : slice;                    (* []PaymentI *)
  isEstimateRequired : bool;
  utxos : slice;
  preselectedUtxos : slice;
  inputAddresses : slice;
  tx : option loc;
  datums : slice;
  requiredSigners : slice;
  v1scripts : slice;
  v2scripts : slice;
  v3scripts : slice;
  redeemers : option loc;              (* maps: [None] is the nil map *)
  stakeRedeemers : option loc;
  mintRedeemers : option loc;
  mint : slice;
  collaterals : slice;
  Fee : Z;
  FeePadding : Z;
  Ttl : Z;
  ValidityStart : Z;
  totalCollateral : Z;
  referenceInputs : slice;
  collateralReturn : option loc;
  nativescripts : slice;
  usedUtxos : slice;
  wallet : option Wallet;
  certificates : slice;
  withdrawals : option loc;
  auxiliaryData : option loc;
  collateralAmount : Z;
  scriptHashes : slice;
  changeAddress : option loc;
  estimateExUnits : bool;
  forceFee : bool
}.

(** Computations on the heap. *)
Definition M (A : Type) : Type := Heap -> Heap * A.

Definition ret {A} (x : A) : M A := fun h => (h, x).

Definition bind {A B} (m : M A) (f : A -> M B) : M B :=
  fun h => f (m h).2 (m h).1.

Notation "'let*' x ':=' e 'in' k" := (bind e (fun x => k))
  (at level 10, x name, e at level 100, k at level 200).

Definition alloc (c : cell) : M loc := fun h => (h ++ [c], length h).

Definition load (l : loc) : M (option cell) := fun h => (h, h !! l).

(** The elements of a slice. *)
Definition elements (h : Heap) (s : slice) : list elem :=
  match array s with
  | Some l =>
      match h !! l with
      | Some (Array es) => take (sliceLen s) es
      | _ => []
      end
  | None => []
  end.

(** [append(dst, e)] and [append(dst, src...)] where [dst] has no spare
    capacity, as it starts nil in [Clone]: the elements move to a new
    backing array.  Appending nothing returns [dst]. *)
Definition appendOne (dst : slice) (e : elem) : M slice := fun h =>
  let es := elements h dst ++ [e] in
  (h ++ [Array es], mkSlice (Some (length h)) (length es)).

Definition appendAll (dst src : slice) : M slice := fun h =>
  match elements h src with
  | [] => (h, dst)
  | new =>
      let es := elements h dst ++ new in
      (h ++ [Array es], mkSlice (Some (length h)) (length es))
  end.

(** [maps.Copy(dst, src)]: every entry of [src] is stored in [dst]. *)
Definition mapsCopy (dst : loc) (src : option loc) : M unit := fun h =>
  match src ≫= (h !!.), h !! dst with
  | Some (RedeemerMap s), Some (RedeemerMap d) => (<[dst := RedeemerMap (s ∪ d)]> h, tt)
  | Some (WithdrawalMap s), Some (WithdrawalMap d) =>
      (<[dst := WithdrawalMap (s ∪ d)]> h, tt)
  | Some (MetadataMap s), Some (MetadataMap d) => (<[dst := MetadataMap (s ∪ d)]> h, tt)
  | _, _ => (h, tt)
  end.

(** [x := *p; q = &x]: a copy of the object behind a pointer. *)
Definition copyPointer (p : option loc) : M (option loc) :=
  match p with
  | Some l =>
      let* c := load l in
      match c with
      | Some c => let* l' := alloc c in ret (Some l')
      | None => ret None
      end
  | None => ret None
  end.

(** The loop of [Clone] over the payments: a [*Payment] is copied as a
    struct, any other payment is kept as it is. *)
Fixpoint clonePayments (ps : list elem) (dst : slice) : M slice :=
  match ps with
  | [] => ret dst
  | p :: rest =>
      let* c := match p with
                | EPointer l => load l
                | _ => ret None
                end in
      match c with
      | Some (PaymentStruct pp) =>
          let* cp := alloc (PaymentStruct pp) in
          let* dst := appendOne dst (EPointer cp) in
          clonePayments rest dst
      | _ =>
          let* dst := appendOne dst p in
          clonePayments rest dst
      end
  end.

(** [p.Units], read through a pointer to a payment. *)
Definition paymentUnits (h : Heap) (l : loc) : list elem :=
  match h !! l with
  | Some (PaymentStruct p) => elements h (Units p)
  | _ => []
  end.

(** [s[i] = e]; out of range, Go panics and nothing is written. *)
Definition setElement (s : slice) (i : nat) (e : elem) : M bool := fun h =>
  match array s with
  | Some l =>
      match h !! l with
      | Some (Array es) =>
          if decide (i < sliceLen s /\ i < length es)
          then (<[l := Array (<[i := e]> es)]> h, true)
          else (h, false)
      | _ => (h, false)
      end
  | None => (h, false)
  end.

(** [p.Units[i] = u], through a pointer to a payment. *)
Definition setPaymentUnit (l : loc) (i : nat) (u : Unit) : M bool := fun h =>
  match h !! l with
  | Some (PaymentStruct p) => setElement (Units p) i (EUnit u) h
  | _ => (h, false)
  end.

Section Clone.

Variable lib : Library.
(** [cbor.Decode] into a transaction *)
Variable decodeTransaction : string -> result ConwayTransaction.

Definition cloneAuxData (p : option loc) : M (option loc) :=
  match p with
  | Some l =>
      let* c := load l in
      match c with
      | Some (AuxDataBox metadata) =>
          let* clonedMeta := alloc (MetadataMap ∅) in
          let* _ := mapsCopy clonedMeta metadata in
          let* l' := alloc (AuxDataBox (Some clonedMeta)) in
          ret (Some l')
      | _ => ret None
      end
  | None => ret None
  end.

(** The transaction is copied through its CBOR encoding; when that
    fails, as a struct. *)
Definition cloneTx (p : option loc) : M (option loc) :=
  match p with
  | Some l =>
      let* c := load l in
      match c with
      | Some (TransactionBox t) =>
          let txCopy :=
            match encodeTransaction lib t with
            | Ok txBytes =>
                match decodeTransaction txBytes with
                | Ok txCopy => txCopy
                | Err _ => t
                end
            | Err _ => t
            end in
          let* l' := alloc (TransactionBox txCopy) in
          ret (Some l')
      | _ => ret None
      end
  | None => ret None
  end.

(** [Clone], after the payments. *)
Definition finishClone (a : Apollo) (redeemers' stakeRedeemers' mintRedeemers'
  withdrawals' : loc) (payments' : slice) : M Apollo :=
  let* utxos' := appendAll nilSlice (utxos a) in
  let* preselectedUtxos' := appendAll nilSlice (preselectedUtxos a) in
  let* inputAddresses' := appendAll nilSlice (inputAddresses a) in
  let* datums' := appendAll nilSlice (datums a) in
  let* requiredSigners' := appendAll nilSlice (requiredSigners a) in
  let* v1scripts' := appendAll nilSlice (v1scripts a) in
  let* v2scripts' := appendAll nilSlice (v2scripts a) in
  let* v3scripts' := appendAll nilSlice (v3scripts a) in
  let* mint' := appendAll nilSlice (mint a) in
  let* collaterals' := appendAll nilSlice (collaterals a) in
  let* referenceInputs' := appendAll nilSlice (referenceInputs a) in
  let* nativescripts' := appendAll nilSlice (nativescripts a) in
  let* usedUtxos' := appendAll nilSlice (usedUtxos a) in
  let* certificates' := appendAll nilSlice (certificates a) in
  let* scriptHashes' := appendAll nilSlice (scriptHashes a) in
  let* _ := mapsCopy redeemers' (redeemers a) in
  let* _ := mapsCopy stakeRedeemers' (stakeRedeemers a) in
  let* _ := mapsCopy mintRedeemers' (mintRedeemers a) in
  let* _ := mapsCopy withdrawals' (withdrawals a) in
  let* changeAddress' := copyPointer (changeAddress a) in
  let* collateralReturn' := copyPointer (collateralReturn a) in
  let* auxiliaryData' := cloneAuxData (auxiliaryData a) in
  let* tx' := cloneTx (tx a) in
  ret (mkApollo (Context a) payments' (isEstimateRequired a) utxos' preselectedUtxos'
         inputAddresses' tx' datums' requiredSigners' v1scripts' v2scripts' v3scripts'
         (Some redeemers') (Some stakeRedeemers') (Some mintRedeemers') mint'
         collaterals' (Fee a) (FeePadding a) (Ttl a) (ValidityStart a)
         (totalCollateral a) referenceInputs' collateralReturn' nativescripts'
         usedUtxos' (wallet a) certificates' (Some withdrawals') auxiliaryData'
         (collateralAmount a) scriptHashes' changeAddress' (estimateExUnits a) false).

(** [Clone], for the payments [ps] that [a.payments] holds. *)
Definition cloneFrom (ps : list elem) (a : Apollo) : M Apollo :=
  let* redeemers' := alloc (RedeemerMap ∅) in
  let* stakeRedeemers' := alloc (RedeemerMap ∅) in
  let* mintRedeemers' := alloc (RedeemerMap ∅) in
  let* withdrawals' := alloc (WithdrawalMap ∅) in
  let* payments' := clonePayments ps nilSlice in
  finishClone a redeemers' stakeRedeemers' mintRedeemers' withdrawals' payments'.

(** [a.Clone()] *)
Definition Clone (a : Apollo) : M Apollo := fun h =>
  cloneFrom (elements h (payments a)) a h.

End Clone.

(** The legacy builder: [clone := *b; return &clone].  The struct is
    copied field by field, so every slice, map and pointer of the copy is
    the one of the original. *)
Module Legacy.

Record Apollo : Type := mkApollo {
  Context : backend.ChainContext;
  payments : slice;
  isEstimateRequired : bool;
  auxiliaryData : option loc;
  utxos : slice;
  preselectedUtxos : slice;
  inputAddresses : slice;
  tx : option loc;
  datums : slice;
  requiredSigners : slice;
  v1scripts : slice;
  v2scripts : slice;
  v3scripts : slice;
  redeemers : slice;
  redeemersToUTxO : option loc;
  stakeRedeemers : option loc;
  mintRedeemers : option loc;
  mint : slice;
  collaterals : slice;
  Fee : Z;
  FeePadding : Z;
  Ttl : Z;
  ValidityStart : Z;
  collateralAmount : Z;
  totalCollateral : Z;
  referenceInputs : slice;
  referenceInputsV3 : slice;
  collateralReturn : option loc;
  withdrawals : option loc;
  certificates : option loc;
  nativescripts : slice;
  usedUtxos : slice;
  referenceScripts : slice;
  wallet : option Wallet;
  scriptHashes : slice
}.

Definition Clone (b : Apollo) : M Apollo := fun h =>
  let clone := b in
  (h, clone).

End Legacy.

(* --------------------------------------------------------------------- *)
(** ** Reasoning about heap computations *)
(* --------------------------------------------------------------------- *)

Definition isMap (c : cell) : bool :=
  match c with
  | RedeemerMap _ | WithdrawalMap _ | MetadataMap _ => true
  | _ => false
  end.

(** [incl n h h']: the heap has grown from [h] to [h'], every cell below
    [n] is as it was, and so is every cell that is not a map. *)
Definition incl (n : nat) (h h' : Heap) : Prop :=
  length h <= length h' /\
  forall l c, h !! l = Some c -> l < n \/ isMap c = false -> h' !! l = Some c.

Definition stable (n : nat) (F : Heap -> Prop) : Prop :=
  forall h h', incl n h h' -> F h -> F h'.

(** [spec n P m Q]: from a heap of at least [n] cells that satisfies [P],
    [m] only changes maps at or above [n] and allocates, and its result
    satisfies [Q]. *)
Definition spec (n : nat) (P : Heap -> Prop) {A} (m : M A) (Q : A -> Heap -> Prop)
  : Prop :=
  forall h, n <= length h -> P h -> incl n h (m h).1 /\ Q (m h).2 (m h).1.

(** Every cell of [h0] is in [h], unchanged. *)
Definition agrees (h0 h : Heap) : Prop :=
  forall l c, h0 !! l = Some c -> h !! l = Some c.

Definition freshSlice (n : nat) (s : slice) : Prop :=
  match array s with
  | Some l => n <= l
  | None => True
  end.

Definition freshOpt (n : nat) (p : option loc) : Prop :=
  match p with
  | Some l => n <= l
  | None => True
  end.

(** A cloned [auxData] holds a metadata map of its own. *)
Definition freshAux (n : nat) (p : option loc) (h : Heap) : Prop :=
  forall l, p = Some l ->
            exists m, h !! l = Some (AuxDataBox (Some m)) /\ n <= m.

(** The payments of the clone: where the original holds a pointer to a
    [Payment], the clone holds a pointer to a new [Payment] with the same
    fields. *)
Definition Cloned (n : nat) (h0 : Heap) (ps : list elem) (s : slice) (h : Heap)
  : Prop :=
  forall i l p,
    ps !! i = Some (EPointer l) -> h0 !! l = Some (PaymentStruct p) ->
    exists l', elements h s !! i = Some (EPointer l') /\ n <= l' /\
               h !! l' = Some (PaymentStruct p).

(** Every slice, map and pointer of the builder lies at or above [n]. *)
Definition topLevelFresh (n : nat) (c : Apollo) : Prop :=
  freshSlice n (payments c) /\ freshSlice n (utxos c) /\
  freshSlice n (preselectedUtxos c) /\ freshSlice n (inputAddresses c) /\
  freshSlice n (datums c) /\ freshSlice n (requiredSigners c) /\
  freshSlice n (v1scripts c) /\ freshSlice n (v2scripts c) /\
  freshSlice n (v3scripts c) /\ freshSlice n (mint c) /\
  freshSlice n (collaterals c) /\ freshSlice n (referenceInputs c) /\
  freshSlice n (nativescripts c) /\ freshSlice n (usedUtxos c) /\
  freshSlice n (certificates c) /\ freshSlice n (scriptHashes c) /\
  (exists l, redeemers c = Some l /\ n <= l) /\
  (exists l, stakeRedeemers c = Some l /\ n <= l) /\
  (exists l, mintRedeemers c = Some l /\ n <= l) /\
  (exists l, withdrawals c = Some l /\ n <= l) /\
  freshOpt n (changeAddress c) /\ freshOpt n (collateralReturn c) /\
  freshOpt n (auxiliaryData c) /\ freshOpt n (tx c).

Lemma incl_refl n h : incl n h h.
Proof. by split. Qed.

Lemma incl_trans n h1 h2 h3 : incl n h1 h2 -> incl n h2 h3 -> incl n h1 h3.
Proof.
  intros [Hlen12 H12] [Hlen23 H23]. split; [lia |].
  intros l c Hl Hwhy. apply H23; [| done]. by apply H12.
Qed.

Lemma incl_app n h ext : incl n h (h ++ ext).
Proof.
  split; [rewrite length_app; lia |].
  intros l c Hl _. by apply lookup_app_l_Some.
Qed.

Lemma incl_insert_map n h l c' :
  n <= l -> (forall c, h !! l = Some c -> isMap c = true) ->
  incl n h (<[l := c']> h).
Proof.
  intros Hfresh Hmap. split; [by rewrite length_insert |].
  intros k c Hk Hwhy. destruct (decide (k = l)) as [-> | Hne].
  - specialize (Hmap c Hk). destruct Hwhy as [? | Hno]; [lia | congruence].
  - by rewrite list_lookup_insert_ne.
Qed.

Lemma incl_prefix n h h' : h `prefix_of` h' -> incl n h h'.
Proof. intros [ext ->]. apply incl_app. Qed.

Lemma stable_True n : stable n (fun _ => True).
Proof. done. Qed.

Lemma stable_and n F G :
  stable n F -> stable n G -> stable n (fun h => F h /\ G h).
Proof. intros HF HG h h' Hincl [? ?]. split; [by eapply HF | by eapply HG]. Qed.

Lemma stable_agrees n h0 : length h0 <= n -> stable n (agrees h0).
Proof.
  intros Hn h h' [_ Hincl] Hagrees l c Hl. apply Hincl; [by apply Hagrees |].
  left. apply lookup_lt_Some in Hl. lia.
Qed.

Lemma elements_incl n h h' s i e :
  incl n h h' -> elements h s !! i = Some e -> elements h' s !! i = Some e.
Proof.
  intros [_ Hincl]. unfold elements. destruct (array s) as [l |]; [| done].
  destruct (h !! l) as [c |] eqn:Hl; [| done].
  destruct c; try done. by rewrite (Hincl l _ Hl (or_intror eq_refl)).
Qed.

Lemma stable_Cloned n m h0 ps s : stable n (Cloned m h0 ps s).
Proof.
  intros h h' Hincl Hcloned i l p Hi Hl.
  destruct (Hcloned i l p Hi Hl) as (l' & Helem & Hfresh & Hl').
  exists l'. split; [by eapply elements_incl |]. split; [done |].
  destruct Hincl as [_ Hincl]. apply Hincl; [done | by right].
Qed.

Lemma stable_freshAux n m p : stable n (freshAux m p).
Proof.
  intros h h' [_ Hincl] Haux l Hp. destruct (Haux l Hp) as (md & Hl & Hfresh).
  exists md. split; [| done]. apply Hincl; [done | by right].
Qed.

Lemma spec_ret n P {A} (x : A) (Q : A -> Heap -> Prop) :
  (forall h, P h -> Q x h) -> spec n P (ret x) Q.
Proof. intros HQ h _ HP. split; [apply incl_refl | by apply HQ]. Qed.

(** One step of a sequence: the facts [F] about the heap are kept, what
    the step says about its result is learnt. *)
Lemma spec_step n F P {A B} (m : M A) Qh (Qp : A -> Prop) (f : A -> M B) R :
  spec n P m (fun x h => Qh x h /\ Qp x) ->
  (forall h, F h -> P h) -> stable n F ->
  (forall x, Qp x -> spec n (fun h => F h /\ Qh x h) (f x) R) ->
  spec n F (bind m f) R.
Proof.
  intros Hm HP HF Hf h Hn HFh. unfold bind.
  destruct (Hm h Hn (HP h HFh)) as (Hincl & HQh & HQp).
  destruct (Hf (m h).2 HQp (m h).1) as [Hincl' HR].
  - destruct Hincl. lia.
  - split; [by eapply HF | done].
  - split; [by eapply incl_trans | done].
Qed.

Lemma spec_alloc n c :
  spec n (fun _ => True) (alloc c) (fun l _ => True /\ n <= l).
Proof. intros h Hn _. split; [apply incl_app | by split]. Qed.

Lemma spec_appendAll n dst src :
  freshSlice n dst ->
  spec n (fun _ => True) (appendAll dst src) (fun s _ => True /\ freshSlice n s).
Proof.
  intros Hdst h Hn _. unfold appendAll.
  destruct (elements h src) as [| e new]; simpl.
  - split; [apply incl_refl | by split].
  - split; [apply incl_app | by split].
Qed.

Lemma spec_mapsCopy n dst src :
  n <= dst ->
  spec n (fun _ => True) (mapsCopy dst src) (fun _ _ => True /\ True).
Proof.
  intros Hdst h Hn _. unfold mapsCopy.
  destruct (src ≫= (h !!.)) as [[] |]; simpl;
    try (split; [apply incl_refl | done]);
    destruct (h !! dst) as [[] |] eqn:Hcell; simpl;
      try (split; [apply incl_refl | done]);
      (split; [| done]); apply incl_insert_map; try done;
      intros c Hc; rewrite Hcell in Hc; by injection Hc as <-.
Qed.

Lemma spec_copyPointer n p :
  spec n (fun _ => True) (copyPointer p) (fun r _ => True /\ freshOpt n r).
Proof.
  intros h Hn _. destruct p as [l |]; simpl; [| split; [apply incl_refl | done]].
  unfold bind, load. simpl. destruct (h !! l) as [c |]; simpl.
  - split; [apply incl_app | done].
  - split; [apply incl_refl | done].
Qed.

Lemma spec_cloneAuxData n p :
  spec n (fun _ => True) (cloneAuxData p)
       (fun r h => freshAux n r h /\ freshOpt n r).
Proof.
  intros h Hn _. destruct p as [l |]; simpl; [| split; [apply incl_refl | done]].
  unfold bind, load. simpl.
  destruct (h !! l) as [[es | m | m | m | p | a | o | md | t |] |]; simpl;
    try (split; [apply incl_refl | done]).
  assert (Hcopy : incl n (h ++ [MetadataMap ∅])
                         (mapsCopy (length h) md (h ++ [MetadataMap ∅])).1).
  { apply (spec_mapsCopy n (length h) md Hn (h ++ [MetadataMap ∅]));
      [rewrite length_app; lia | done]. }
  set (h1 := (mapsCopy (length h) md (h ++ [MetadataMap ∅])).1) in *.
  split.
  - eapply incl_trans; [apply incl_app |]. eapply incl_trans; [exact Hcopy |].
    apply incl_app.
  - split; [| unfold freshOpt; destruct Hcopy as [Hlen _]; rewrite length_app in Hlen;
              simpl in *; lia].
    intros l' [= <-]. exists (length h). split; [| done].
    by rewrite list_lookup_middle.
Qed.

Lemma spec_cloneTx lib decodeTransaction n p :
  spec n (fun _ => True) (cloneTx lib decodeTransaction p)
       (fun r _ => True /\ freshOpt n r).
Proof.
  intros h Hn _. destruct p as [l |]; simpl; [| split; [apply incl_refl | done]].
  unfold bind, load. simpl.
  destruct (h !! l) as [[es | m | m | m | p | a | o | md | t |] |]; simpl;
    try (split; [apply incl_refl | done]).
  split; [apply incl_app | done].
Qed.

(** A slice whose backing array exists and is long enough. *)
Definition sliceOk (h : Heap) (s : slice) : Prop :=
  match array s with
  | Some l => exists es, h !! l = Some (Array es) /\ sliceLen s <= length es
  | None => True
  end.

Lemma elements_prefix h h' s :
  h `prefix_of` h' -> sliceOk h s -> elements h' s = elements h s.
Proof.
  intros [ext ->]. unfold sliceOk, elements.
  destruct (array s) as [l |]; [| done]. intros (es & Hl & _).
  by rewrite (lookup_app_l_Some _ _ _ _ Hl), Hl.
Qed.

Lemma appendOne_elements h dst e :
  elements (appendOne dst e h).1 (appendOne dst e h).2 = elements h dst ++ [e] /\
  sliceOk (appendOne dst e h).1 (appendOne dst e h).2.
Proof.
  unfold appendOne, elements at 1, sliceOk. simpl.
  rewrite list_lookup_middle by done. split.
  - by rewrite firstn_all.
  - eexists. split; [done |]. done.
Qed.

(** The loop over the payments only allocates; it appends one element
    per payment, a pointer to a copy where the payment is a [*Payment]. *)
Lemma clonePayments_run n h0 ps :
  forall dst h,
    agrees h0 h -> sliceOk h dst -> freshSlice n dst -> n <= length h ->
    h `prefix_of` (clonePayments ps dst h).1 /\
    sliceOk (clonePayments ps dst h).1 (clonePayments ps dst h).2 /\
    freshSlice n (clonePayments ps dst h).2 /\
    exists added,
      elements (clonePayments ps dst h).1 (clonePayments ps dst h).2
      = elements h dst ++ added /\
      forall i l p,
        ps !! i = Some (EPointer l) -> h0 !! l = Some (PaymentStruct p) ->
        exists l', added !! i = Some (EPointer l') /\ n <= l' /\
                   (clonePayments ps dst h).1 !! l' = Some (PaymentStruct p).
Proof.
  induction ps as [| e ps IH]; intros dst h Hagrees Hok Hfresh Hn.
  - simpl. split; [done |]. split; [done |]. split; [done |].
    exists []. by rewrite app_nil_r.
  - assert (Hstep : exists h1 dst1 e1,
      clonePayments (e :: ps) dst h = clonePayments ps dst1 h1 /\
      h `prefix_of` h1 /\ sliceOk h1 dst1 /\ freshSlice n dst1 /\
      elements h1 dst1 = elements h dst ++ [e1] /\
      (forall l p, e = EPointer l -> h0 !! l = Some (PaymentStruct p) ->
                   exists l', e1 = EPointer l' /\ n <= l' /\
                              h1 !! l' = Some (PaymentStruct p))).
    { cbn [clonePayments]. unfold bind at 1.
      set (c := (match e with EPointer l => load l | _ => ret None end h).2).
      assert (Hh : (match e with EPointer l => load l | _ => ret None end h).1 = h)
        by (by destruct e).
      rewrite Hh.
      assert (Hc : forall l p, e = EPointer l -> h0 !! l = Some (PaymentStruct p) ->
                               c = Some (PaymentStruct p)).
      { intros l p -> Hl. unfold c, load. simpl. by apply Hagrees. }
      clearbody c.
      destruct c as [[es | m | m | m | pp | a | o | md | t |] |] eqn:Hcell.
      5: {
        set (h1 := h ++ [PaymentStruct pp]).
        destruct (appendOne_elements h1 dst (EPointer (length h))) as [Hel Hok1].
        exists (appendOne dst (EPointer (length h)) h1).1,
               (appendOne dst (EPointer (length h)) h1).2, (EPointer (length h)).
        split; [done |].
        split; [unfold appendOne; simpl; unfold h1; rewrite <- app_assoc;
                by apply prefix_app_r |].
        split; [done |].
        split; [unfold freshSlice, appendOne; simpl; unfold h1;
                rewrite length_app; lia |].
        split.
        - rewrite Hel. f_equal. apply elements_prefix; [| done].
          by apply prefix_app_r.
        - intros l p He Hl. specialize (Hc l p He Hl). injection Hc as <-.
          exists (length h). split; [done |]. split; [done |].
          unfold appendOne. simpl. apply lookup_app_l_Some. unfold h1.
          by rewrite list_lookup_middle. }
      all: destruct (appendOne_elements h dst e) as [Hel Hok1];
        exists (appendOne dst e h).1, (appendOne dst e h).2, e;
        (split; [done |]);
        (split; [unfold appendOne; simpl; by apply prefix_app_r |]);
        (split; [done |]);
        (split; [unfold freshSlice, appendOne; simpl; lia |]);
        (split; [done |]);
        intros l p He Hl; by specialize (Hc l p He Hl). }
    destruct Hstep as (h1 & dst1 & e1 & Heq & Hpre & Hok1 & Hfresh1 & Hel1 & Hcopy).
    rewrite Heq.
    assert (Hagrees1 : agrees h0 h1).
    { intros l x Hl. destruct Hpre as [ext ->]. apply lookup_app_l_Some.
      by apply Hagrees. }
    assert (Hn1 : n <= length h1).
    { destruct Hpre as [ext ->]. rewrite length_app. lia. }
    destruct (IH dst1 h1 Hagrees1 Hok1 Hfresh1 Hn1)
      as (Hpre' & Hok' & Hfresh' & added & Hadded & Hrest).
    split; [by transitivity h1 |]. split; [done |]. split; [done |].
    exists (e1 :: added). split.
    + rewrite Hadded, Hel1, <- app_assoc. done.
    + intros [| i] l p Hi Hl; simpl in Hi.
      * injection Hi as He.
        destruct (Hcopy l p He Hl) as (l' & He1 & Hl' & Hcell). rewrite He1.
        exists l'. split; [done |]. split; [done |].
        by apply (prefix_lookup_Some h1).
      * apply (Hrest i l p Hi Hl).
Qed.

Lemma spec_clonePayments n h0 ps :
  spec n (agrees h0) (clonePayments ps nilSlice)
       (fun s h => Cloned n h0 ps s h /\ freshSlice n s).
Proof.
  intros h Hn Hagrees.
  destruct (clonePayments_run n h0 ps nilSlice h Hagrees I I Hn)
    as (Hpre & _ & Hfresh & added & Hadded & Hcopies).
  split; [by apply incl_prefix |]. split; [| done].
  intros i l p Hi Hl. rewrite Hadded. simpl. apply (Hcopies i l p Hi Hl).
Qed.

Lemma spec_conseq n P P' {A} (m : M A) (Q Q' : A -> Heap -> Prop) :
  spec n P m Q -> (forall h, P' h -> P h) -> (forall x h, Q x h -> Q' x h) ->
  spec n P' m Q'.
Proof.
  intros Hm HP HQ h Hn HP'. destruct (Hm h Hn (HP h HP')) as [Hincl HQh].
  split; [done | by apply HQ].
Qed.

Lemma spec_post n P {A} (m : M A) (Q Q' : A -> Heap -> Prop) :
  spec n P m Q -> (forall x h, Q x h -> Q' x h) -> spec n P m Q'.
Proof. intros Hm HQ. by apply (spec_conseq n P P m Q Q'). Qed.

Ltac stable_tac :=
  repeat apply stable_and;
  first [ assumption | apply stable_True | apply stable_freshAux
        | apply stable_Cloned | by apply stable_agrees ].

Ltac step L :=
  eapply (spec_step _ _ (fun _ => True));
  [ apply L | done | stable_tac | intros ? ? ].

Section CloneFacts.

Variable lib : Library.
Variable decodeTransaction : string -> result ConwayTransaction.

Lemma spec_finishClone n F a redeemers' stakeRedeemers' mintRedeemers' withdrawals'
  payments' :
  n <= redeemers' -> n <= stakeRedeemers' -> n <= mintRedeemers' ->
  n <= withdrawals' -> freshSlice n payments' -> stable n F ->
  spec n F
       (finishClone lib decodeTransaction a redeemers' stakeRedeemers' mintRedeemers'
                    withdrawals' payments')
       (fun c h => F h /\ topLevelFresh n c /\ payments c = payments' /\
                   freshAux n (auxiliaryData c) h).
Proof.
  intros Hr Hs Hm Hw Hp HF. unfold finishClone.
  do 15 (step spec_appendAll; [exact I |]).
  do 4 (step spec_mapsCopy; [assumption |]).
  do 2 (step spec_copyPointer).
  step spec_cloneAuxData.
  step spec_cloneTx.
  apply spec_ret. intros h HP.
  repeat match goal with
         | H : _ /\ _ |- _ => destruct H
         end.
  split; [done |]. split; [| by split].
  unfold topLevelFresh. simpl. repeat split; eauto.
Qed.

Lemma spec_cloneFrom n h0 ps a :
  length h0 <= n ->
  spec n (agrees h0) (cloneFrom lib decodeTransaction ps a)
       (fun c h => agrees h0 h /\ topLevelFresh n c /\
                   Cloned n h0 ps (payments c) h /\
                   freshAux n (auxiliaryData c) h).
Proof.
  intros Hn. unfold cloneFrom.
  do 4 (step spec_alloc).
  eapply (spec_step _ _ (agrees h0));
    [apply spec_clonePayments | tauto | stable_tac | intros payments' Hpayments].
  eapply spec_post;
    [apply spec_finishClone; [assumption | assumption | assumption | assumption
                             | assumption | stable_tac] |].
  intros c h (HF & Hfresh & Hp & Haux).
  repeat match goal with
         | H : _ /\ _ |- _ => destruct H
         end.
  rewrite Hp. done.
Qed.

(** What [Clone] copies: the cells of the original are left as they
    were, every slice, map and pointer of the clone lies outside the heap
    of the original, a cloned [auxData] holds a metadata map of its own,
    and each [*Payment] is a new struct with the fields of the original
    one. *)
Lemma Clone_copies_top_level (a : Apollo) (h : Heap) :
  let clone := (Clone lib decodeTransaction a h).2 in
  let h' := (Clone lib decodeTransaction a h).1 in
  agrees h h' /\ topLevelFresh (length h) clone /\
  Cloned (length h) h (elements h (payments a)) (payments clone) h' /\
  freshAux (length h) (auxiliaryData clone) h'.
Proof.
  cbv zeta. unfold Clone.
  apply (spec_cloneFrom (length h) h (elements h (payments a)) a (le_n _) h);
    [done |]. by intros l c.
Qed.

End CloneFacts.

(** Two payments with the same fields share their unit list: a write
    through one of them is read through the other. *)
Lemma setPaymentUnit_shared (h : Heap) (l1 l2 : loc) (p : Payment) (j : nat) (u : Unit) :
  h !! l1 = Some (PaymentStruct p) -> h !! l2 = Some (PaymentStruct p) ->
  j < length (paymentUnits h l2) ->
  (setPaymentUnit l1 j u h).2 = true /\
  paymentUnits (setPaymentUnit l1 j u h).1 l2 = <[j := EUnit u]> (paymentUnits h l2).
Proof.
  intros H1 H2. unfold paymentUnits, setPaymentUnit, setElement. rewrite H1, H2.
  unfold elements. destruct (array (Units p)) as [lu |] eqn:Harray; simpl; [| lia].
  destruct (h !! lu) as [c |] eqn:Hlu; simpl; [| lia].
  destruct c as [es | m | m | m | q | a | o | md | t |]; simpl; try lia.
  rewrite length_take. intros Hj.
  destruct (decide (j < sliceLen (Units p) /\ j < length es)) as [_ | Hno]; [| lia].
  simpl. split; [done |].
  assert (Hne : lu <> l2) by (intros ->; congruence).
  rewrite list_lookup_insert_ne by done. rewrite H2, Harray.
  rewrite list_lookup_insert_eq by (by eapply lookup_lt_Some).
  apply take_insert_lt. lia.
Qed.

(** C2: [Clone] does not copy the unit lists of the payments.  Where the
    builder holds a pointer to a [Payment], the clone holds, at the same
    position, a pointer to another [Payment] struct with the same fields,
    hence with the same [Units] slice over the same backing array.  A
    write to a unit through the payment of the clone is then read through
    the payment of the original, and a write through the original is read
    through the clone. *)
Theorem Clone_shares_payment_units (lib : Library)
  (decodeTransaction : string -> result ConwayTransaction)
  (a : Apollo) (h : Heap) (i : nat) (l : loc) (p : Payment) :
  elements h (payments a) !! i = Some (EPointer l) ->
  h !! l = Some (PaymentStruct p) ->
  let clone := (Clone lib decodeTransaction a h).2 in
  let h' := (Clone lib decodeTransaction a h).1 in
  exists l',
    elements h' (payments clone) !! i = Some (EPointer l') /\
    l' <> l /\
    h' !! l = Some (PaymentStruct p) /\
    h' !! l' = Some (PaymentStruct p) /\
    paymentUnits h' l' = paymentUnits h' l /\
    forall j u,
      j < length (paymentUnits h' l) ->
      ((setPaymentUnit l' j u h').2 = true /\
       paymentUnits (setPaymentUnit l' j u h').1 l
       = <[j := EUnit u]> (paymentUnits h' l)) /\
      ((setPaymentUnit l j u h').2 = true /\
       paymentUnits (setPaymentUnit l j u h').1 l'
       = <[j := EUnit u]> (paymentUnits h' l')).
Proof.
  intros Hi Hl clone h'.
  destruct (Clone_copies_top_level lib decodeTransaction a h)
    as (Hagrees & _ & Hcloned & _).
  destruct (Hcloned i l p Hi Hl) as (l' & Hi' & Hfresh & Hl').
  fold h' in Hagrees, Hi', Hl'. fold clone in Hi'.
  pose proof (Hagrees l _ Hl) as Hl0.
  assert (Hunits : paymentUnits h' l' = paymentUnits h' l)
    by (unfold paymentUnits; by rewrite Hl', Hl0).
  exists l'. split; [done |]. split.
  { apply lookup_lt_Some in Hl. lia. }
  split; [done |]. split; [done |]. split; [done |].
  intros j u Hj. split.
  - by apply (setPaymentUnit_shared h' l' l p).
  - apply (setPaymentUnit_shared h' l l' p); [done | done |]. by rewrite Hunits.
Qed.

(** The legacy [Clone] returns the struct it was given: every slice, map
    and pointer of the clone is the one of the original, and nothing is
    allocated. *)
Lemma Legacy_Clone_is_shallow (b : Legacy.Apollo) (h : Heap) :
  Legacy.Clone b h = (h, b).
Proof. done. Qed.

Module CloneExample.

Definition fiveTokens : Unit := mkUnit policyA tokenName 5.

Definition payment : Payment :=
  mkPayment 2000000 Example.walletAddress (mkSlice (Some 0) 1) None nilSlice false None.

(** A heap with one payment of 2 ADA and five tokens, the payments of
    the builder, a metadata map with a nested map, and the four maps of
    [New]. *)
Definition heap : Heap :=
  [ Array [EUnit fiveTokens];                      (* 0: the units of the payment *)
    PaymentStruct payment;                         (* 1 *)
    Array [EPointer 1];                            (* 2: the payments *)
    RedeemerMap ∅; RedeemerMap ∅; RedeemerMap ∅;   (* 3, 4, 5 *)
    WithdrawalMap ∅;                               (* 6 *)
    MetadataMap ∅;                                 (* 7: a nested map *)
    MetadataMap {[ 674%Z := MetaMapRef 7 ]};       (* 8: the metadata *)
    AuxDataBox (Some 8) ].                         (* 9 *)

Definition builder : Apollo :=
  mkApollo (Example.fixedContext Example.preprodParameters [])
           (mkSlice (Some 2) 1) false nilSlice nilSlice nilSlice None nilSlice nilSlice
           nilSlice nilSlice nilSlice (Some 3) (Some 4) (Some 5) nilSlice nilSlice
           0%Z 0%Z 0%Z 0%Z 0%Z nilSlice None nilSlice nilSlice
           (Some Example.exampleWallet) nilSlice (Some 6) (Some 9) 0%Z nilSlice None
           true false.

Definition noDecoder (bytes : string) : result ConwayTransaction :=
  Err "no decoder".

Definition cloned : Heap * Apollo := Clone exampleLibrary noDecoder builder heap.

End CloneExample.

(** At the example: the payment of the clone is a new struct, a copy of
    the one at 1; setting its unit to 99 tokens changes what the payment
    of the original holds. *)
Lemma Clone_shares_payment_units_witness :
  exists l',
    elements CloneExample.cloned.1 (payments CloneExample.cloned.2) !! 0
    = Some (EPointer l') /\
    l' <> 1 /\
    paymentUnits CloneExample.cloned.1 1 = [EUnit CloneExample.fiveTokens] /\
    paymentUnits (setPaymentUnit l' 0 (mkUnit policyA tokenName 99)
                                 CloneExample.cloned.1).1 1
    = [EUnit (mkUnit policyA tokenName 99)].
Proof.
  destruct (Clone_shares_payment_units exampleLibrary CloneExample.noDecoder
              CloneExample.builder CloneExample.heap 0 1 CloneExample.payment)
    as (l' & Hi & Hne & _ & _ & _ & Hwrite).
  - reflexivity.
  - reflexivity.
  - exists l'. split; [exact Hi |]. split; [exact Hne |].
    split; [reflexivity |].
    destruct (Hwrite 0 (mkUnit policyA tokenName 99)) as [[_ Hread] _].
    + vm_compute. lia.
    + exact Hread.
Defined.

(** The metadata map of the clone is a new map, but the nested map it
    holds is the one of the original. *)
Lemma Clone_shares_nested_metadata :
  auxiliaryData CloneExample.cloned.2 = Some 17 /\
  CloneExample.cloned.1 !! 17 = Some (AuxDataBox (Some 16)) /\
  CloneExample.cloned.1 !! 16 = Some (MetadataMap {[ 674%Z := MetaMapRef 7 ]}) /\
  CloneExample.heap !! 8 = Some (MetadataMap {[ 674%Z := MetaMapRef 7 ]}).
Proof. vm_compute. repeat split; reflexivity. Qed.

End Memory.

(* ===================================================================== *)
(** * Further properties of the value arithmetic *)
(* ===================================================================== *)

Lemma common_Add_comm (m o : common.MultiAsset) : common.Add m o = common.Add o m.
Proof.
  unfold common.Add. apply map_eq. intros p. rewrite !lookup_union_with.
  destruct (m !! p) as [am |], (o !! p) as [ao |]; simpl; try done.
  f_equal. apply map_eq. intros n. rewrite !lookup_union_with.
  destruct (am !! n), (ao !! n); simpl; try done. f_equal. lia.
Qed.

Lemma common_Add_assoc (m o k : common.MultiAsset) :
  common.Add (common.Add m o) k = common.Add m (common.Add o k).
Proof.
  unfold common.Add. apply map_eq. intros p. rewrite !lookup_union_with.
  destruct (m !! p) as [am |], (o !! p) as [ao |], (k !! p) as [ak |]; simpl;
    try done.
  f_equal. apply map_eq. intros n. rewrite !lookup_union_with.
  destruct (am !! n), (ao !! n), (ak !! n); simpl; try done. f_equal. lia.
Qed.

(** X1: [Add] is commutative: for values whose coins are [uint64]s,
    [a.Add(b)] and [b.Add(a)] are the same value, or both fail with the
    coin overflow. *)
Theorem ValueAdd_comm (a b : Value) :
  wfValue a -> wfValue b -> ValueOps.Add a b = ValueOps.Add b a.
Proof.
  intros Ha Hb. unfold ValueOps.Add.
  rewrite (uint64_add_overflow (Coin a) (Coin b)) by done.
  rewrite (uint64_add_overflow (Coin b) (Coin a)) by done.
  rewrite (Z.add_comm (Coin b) (Coin a)).
  destruct (two64 <=? Coin a + Coin b); [done |].
  rewrite !CloneMultiAsset_id.
  destruct (Assets a) as [ma |], (Assets b) as [mb |]; try done.
  by rewrite common_Add_comm.
Qed.

Lemma ValueAdd_comm_witness :
  ValueOps.Add (mkValue 100 (Some {[ policyA := {[ tokenName := 50 ]} ]}))
               (mkValue 200 None)
  = ValueOps.Add (mkValue 200 None)
                 (mkValue 100 (Some {[ policyA := {[ tokenName := 50 ]} ]})).
Proof.
  apply ValueAdd_comm; unfold wfValue, is_uint64, two64; simpl; lia.
Defined.

(** X2: [Add] is associative: adding three values whose coins are
    [uint64]s gives the same value in either grouping, and the coin
    overflow is reported in one grouping exactly when it is in the
    other. *)
Theorem ValueAdd_assoc (a b c : Value) :
  wfValue a -> wfValue b -> wfValue c ->
  (ab ← ValueOps.Add a b; ValueOps.Add ab c)
  = (bc ← ValueOps.Add b c; ValueOps.Add a bc).
Proof.
  intros Ha Hb Hc. unfold ValueOps.Add.
  rewrite (uint64_add_overflow (Coin a) (Coin b)) by done.
  rewrite (uint64_add_overflow (Coin b) (Coin c)) by done.
  unfold wfValue, is_uint64 in *.
  destruct (Z.leb_spec two64 (Coin a + Coin b)) as [Hab | Hab];
    destruct (Z.leb_spec two64 (Coin b + Coin c)) as [Hbc | Hbc]; simpl.
  - done.
  - rewrite (uint64_id (Coin b + Coin c)) by (unfold is_uint64; lia).
    rewrite uint64_add_overflow by (unfold is_uint64; lia).
    by destruct (Z.leb_spec two64 (Coin a + (Coin b + Coin c))); [| lia].
  - rewrite (uint64_id (Coin a + Coin b)) by (unfold is_uint64; lia).
    rewrite uint64_add_overflow by (unfold is_uint64; lia).
    by destruct (Z.leb_spec two64 (Coin a + Coin b + Coin c)); [| lia].
  - rewrite (uint64_id (Coin a + Coin b)) by (unfold is_uint64; lia).
    rewrite (uint64_id (Coin b + Coin c)) by (unfold is_uint64; lia).
    rewrite !uint64_add_overflow by (unfold is_uint64; lia).
    rewrite <- Z.add_assoc.
    destruct (Z.leb_spec two64 (Coin a + (Coin b + Coin c))); [done |].
    f_equal. f_equal. rewrite !CloneMultiAsset_id.
    destruct (Assets a) as [ma |], (Assets b) as [mb |], (Assets c) as [mc |];
      simpl; try done.
    by rewrite common_Add_assoc.
Qed.

Lemma ValueAdd_assoc_witness :
  (ab ← ValueOps.Add (mkValue 1 (Some {[ policyA := {[ tokenName := 1 ]} ]}))
                     (mkValue 2 (Some {[ policyA := {[ tokenName := 2 ]} ]}));
   ValueOps.Add ab (mkValue MaxUint64 None))
  = (bc ← ValueOps.Add (mkValue 2 (Some {[ policyA := {[ tokenName := 2 ]} ]}))
                       (mkValue MaxUint64 None);
     ValueOps.Add (mkValue 1 (Some {[ policyA := {[ tokenName := 1 ]} ]})) bc).
Proof.
  apply ValueAdd_assoc; unfold wfValue, is_uint64, MaxUint64, two64; simpl; lia.
Defined.

(** No asset of the value has a negative quantity. *)
Definition noNegative (v : Value) : bool :=
  match Assets v with
  | Some m => common.allAssets (fun _ _ q => 0 <=? q) m
  | None => true
  end.

Lemma noNegative_true v :
  noNegative v = true <-> forall p n q, assetOf v p n = Some q -> 0 <= q.
Proof.
  unfold noNegative, assetOf. destruct (Assets v) as [m |]; simpl; [| done].
  rewrite common.allAssets_true. split; intros H p n q Hq.
  - apply Z.leb_le. by apply (H p n).
  - apply Z.leb_le. by apply (H p n).
Qed.

Lemma noNegative_quantityOf v p n : noNegative v = true -> 0 <= quantityOf v p n.
Proof.
  rewrite noNegative_true, quantityOf_assetOf. intros H.
  destruct (assetOf v p n) as [q |] eqn:Hq; simpl; [by apply (H p n) | done].
Qed.

(** What a successful [Sub] returns. *)
Lemma Sub_Ok_inv (a b r : Value) :
  wfValue a -> wfValue b -> ValueOps.Sub a b = Ok r ->
  Coin b <= Coin a /\ Coin r = Coin a - Coin b /\
  (forall p n,
      quantityOf r p n
      = quantityOf a p n - if isNil (Assets a) then 0 else quantityOf b p n) /\
  (Assets a = None -> forall p n q, assetOf b p n = Some q -> q <= 0).
Proof.
  intros Ha Hb Hsub. destruct (Sub_coin a b r Hsub) as [Hle Hcoin].
  split; [done |]. split.
  { rewrite Hcoin. apply uint64_id. unfold wfValue, is_uint64 in *. lia. }
  unfold ValueOps.Sub in Hsub. rewrite !CloneMultiAsset_id in Hsub.
  destruct (Coin a <? Coin b); [done |].
  unfold quantityOf, assetOf.
  destruct (Assets a) as [ma |] eqn:HA, (Assets b) as [mb |] eqn:HB;
    cbn [isNil] in *.
  - apply bind_Ok_inv in Hsub as (assets & Hassets & [= <-]). cbn [Assets].
    split; [| done]. intros p n.
    destruct assets as [ra |].
    + apply (SubMultiAsset_Asset ma mb ra p n Hassets).
    + unfold SubMultiAsset in Hassets. by destruct (common.allAssets _ mb).
  - injection Hsub as <-. cbn [Assets]. split; [| done].
    intros p n. lia.
  - destruct (MultiAssetIsEmpty (Some mb)) eqn:Hempty; simpl in Hsub; [| done].
    injection Hsub as <-. cbn [Assets mbind option_bind]. split; [intros; lia |].
    intros _. by apply MultiAssetIsEmpty_true.
  - injection Hsub as <-. cbn [Assets]. split; [intros; lia | done].
Qed.

(** X3: subtracting and adding back.  For values whose coins are
    [uint64]s and a subtrahend without negative quantities, when
    [a.Sub(b)] succeeds with [r], then [r.Add(b)] succeeds and equals [a]
    on the coin and on every asset quantity. *)
Theorem Sub_then_Add_restores (a b r : Value) :
  wfValue a -> wfValue b -> noNegative b = true ->
  ValueOps.Sub a b = Ok r ->
  exists s,
    ValueOps.Add r b = Ok s /\ Coin s = Coin a /\
    forall p n, quantityOf s p n = quantityOf a p n.
Proof.
  intros Ha Hb Hnn Hsub.
  destruct (Sub_Ok_inv a b r Ha Hb Hsub) as (Hle & Hcoin & Hq & Hnone).
  assert (Hr : wfValue r) by (unfold wfValue, is_uint64 in *; lia).
  destruct (ValueOps.Add r b) as [s | e] eqn:Hadd.
  - exists s. split; [done |].
    destruct (Add_Ok_inv r b s Hr Hb Hadd) as (Hs & _ & Hassets).
    split; [lia |]. intros p n.
    rewrite (quantityOf_assetOf s), Hassets.
    assert (Hsum : default 0 (union_with (fun x y => Some (x + y))
                                         (assetOf r p n) (assetOf b p n))
                   = quantityOf r p n + quantityOf b p n).
    { rewrite !quantityOf_assetOf.
      destruct (assetOf r p n), (assetOf b p n); simpl; lia. }
    rewrite Hsum, Hq. destruct (Assets a) as [ma |] eqn:HA; simpl; [lia |].
    assert (quantityOf b p n = 0); [| lia].
    pose proof (noNegative_quantityOf b p n Hnn) as Hge.
    rewrite quantityOf_assetOf in *.
    destruct (assetOf b p n) as [q |] eqn:Hbq; simpl in *; [| done].
    specialize (Hnone eq_refl p n q Hbq). lia.
  - exfalso. unfold ValueOps.Add in Hadd.
    rewrite uint64_add_overflow in Hadd by done.
    unfold wfValue, is_uint64 in *.
    destruct (Z.leb_spec two64 (Coin r + Coin b)); [lia | done].
Qed.

Lemma Sub_then_Add_restores_witness :
  exists s,
    ValueOps.Add (mkValue 100 (Some {[ policyA := {[ tokenName := 20 ]} ]}))
                 (mkValue 200 (Some {[ policyA := {[ tokenName := 30 ]} ]}))
    = Ok s /\
    Coin s = 300 /\
    forall p n,
      quantityOf s p n
      = quantityOf (mkValue 300 (Some {[ policyA := {[ tokenName := 50 ]} ]})) p n.
Proof.
  apply (Sub_then_Add_restores
           (mkValue 300 (Some {[ policyA := {[ tokenName := 50 ]} ]}))
           (mkValue 200 (Some {[ policyA := {[ tokenName := 30 ]} ]}))).
  - unfold wfValue, is_uint64, two64. simpl. lia.
  - unfold wfValue, is_uint64, two64. simpl. lia.
  - reflexivity.
  - vm_compute. reflexivity.
Defined.

(** X4: [GreaterOrEqual] is a preorder: every value is greater or equal
    to itself, and greater-or-equal steps chain. *)
Theorem GreaterOrEqual_preorder :
  (forall v, ValueOps.GreaterOrEqual v v = true) /\
  (forall a b c,
      ValueOps.GreaterOrEqual a b = true -> ValueOps.GreaterOrEqual b c = true ->
      ValueOps.GreaterOrEqual a c = true).
Proof.
  split.
  - intros v. rewrite GreaterOrEqual_covers. apply covers_true. simpl.
    split; [lia |]. intros p n q Hq _. rewrite quantityOf_assetOf, Hq. simpl. lia.
  - intros a b c. rewrite !GreaterOrEqual_covers, !covers_true. simpl.
    intros [Hab Hqab] [Hbc Hqbc]. split; [lia |]. intros p n q Hq Hpos.
    specialize (Hqbc p n q Hq Hpos).
    rewrite (quantityOf_assetOf b) in Hqbc.
    destruct (assetOf b p n) as [qb |] eqn:Hb; simpl in Hqbc; [| lia].
    assert (Hposb : 0 < qb) by lia.
    specialize (Hqab p n qb Hb Hposb). lia.
Qed.

(** X5: for values without negative quantities, [a.Sub(b)] succeeds
    exactly when [a.GreaterOrEqual(b)]. *)
Theorem Sub_succeeds_iff_GreaterOrEqual (a b : Value) :
  noNegative a = true -> noNegative b = true ->
  is_Ok (ValueOps.Sub a b) = ValueOps.GreaterOrEqual a b.
Proof.
  intros Hna Hnb. unfold ValueOps.Sub, ValueOps.GreaterOrEqual.
  rewrite !CloneMultiAsset_id.
  destruct (Coin a <? Coin b); [done |].
  pose proof (fun p n => noNegative_quantityOf a p n Hna) as Hqa.
  rewrite noNegative_true in Hnb. unfold quantityOf, assetOf in *.
  destruct (Assets a) as [ma |], (Assets b) as [mb |]; simpl in *; try done.
  - unfold SubMultiAsset.
    rewrite (allAssets_ext
               (fun p n otherQty =>
                  negb (default 0 (common.Asset ma p n) <? otherQty))
               (fun p n otherQty =>
                  if otherQty <=? 0 then true
                  else match common.Asset ma p n with
                       | Some myQty => negb (myQty <? otherQty)
                       | None => false
                       end) mb).
    + by destruct (common.allAssets _ mb).
    + intros p n q Hq. specialize (Hnb p n q Hq). specialize (Hqa p n).
      destruct (Z.leb_spec q 0).
      * apply negb_true_iff, Z.ltb_ge. lia.
      * destruct (common.Asset ma p n); simpl; [done |].
        apply negb_false_iff, Z.ltb_lt. lia.
  - by destruct (common.allAssets _ mb).
Qed.

Lemma Sub_succeeds_iff_GreaterOrEqual_witness :
  is_Ok (ValueOps.Sub (mkValue 300 (Some {[ policyA := {[ tokenName := 50 ]} ]}))
                      (mkValue 200 (Some {[ policyA := {[ tokenName := 60 ]} ]})))
  = ValueOps.GreaterOrEqual
      (mkValue 300 (Some {[ policyA := {[ tokenName := 50 ]} ]}))
      (mkValue 200 (Some {[ policyA := {[ tokenName := 60 ]} ]})).
Proof. apply Sub_succeeds_iff_GreaterOrEqual; reflexivity. Defined.

(* ===================================================================== *)
(** * Further properties of payments *)
(* ===================================================================== *)

(** The fields of a [Payment] respect their Go types. *)
Definition wfPayment (p : Payment) : Prop :=
  is_int64 (Lovelace p) /\ Forall (fun u => is_int64 (Quantity u)) (Units p).

(** A unit that [Unit.ToValue] reads as lovelace. *)
Definition isLovelaceUnit (u : Unit) : bool :=
  bool_decide (PolicyId u = ""%string) || bool_decide (PolicyId u = "lovelace"%string).

(** The lovelace carried by the units of a payment. *)
Definition unitsLovelace (units : list Unit) : Z :=
  foldr (fun u acc => (if isLovelaceUnit u then Quantity u else 0) + acc) 0 units.

Lemma UnitToValue_Ok_inv (u : Unit) (uv : Value) :
  is_int64 (Quantity u) -> 0 <= Quantity u -> UnitOps.ToValue u = Ok uv ->
  wfValue uv /\ noNegative uv = true /\
  Coin uv = if isLovelaceUnit u then Quantity u else 0.
Proof.
  intros Hrange Hpos. unfold UnitOps.ToValue, isLovelaceUnit.
  destruct (_ || _).
  - destruct (Z.ltb_spec (Quantity u) 0); [done |]. intros [= <-].
    assert (Hq : is_uint64 (Quantity u)).
    { unfold is_int64, is_uint64, two63, two64 in *. lia. }
    unfold wfValue. simpl. rewrite uint64_id by done. done.
  - intros H. apply bind_Ok_inv in H as (policyBytes & _ & H).
    destruct (negb _); [done |].
    apply bind_Ok_inv in H as (nameBytes & _ & [= <-]).
    split; [unfold wfValue, is_uint64, two64; simpl; lia |]. split; [| done].
    apply noNegative_true. intros p n q. unfold assetOf. simpl.
    unfold common.NewMultiAsset. rewrite Asset_singleton.
    destruct (decide _); [| done]. intros [= <-]. done.
Qed.

Lemma Add_noNegative (a b s : Value) :
  wfValue a -> wfValue b -> noNegative a = true -> noNegative b = true ->
  ValueOps.Add a b = Ok s ->
  wfValue s /\ Coin s = Coin a + Coin b /\ noNegative s = true.
Proof.
  intros Ha Hb Hna Hnb Hadd.
  destruct (Add_Ok_inv a b s Ha Hb Hadd) as (Hcoin & Hfit & Hassets).
  split; [unfold wfValue, is_uint64 in *; lia |]. split; [done |].
  apply noNegative_true. intros p n q. rewrite Hassets.
  rewrite noNegative_true in Hna, Hnb.
  destruct (assetOf a p n) as [qa |] eqn:Hqa, (assetOf b p n) as [qb |] eqn:Hqb;
    simpl; intros [= <-].
  - specialize (Hna p n qa Hqa). specialize (Hnb p n qb Hqb). lia.
  - by apply (Hna p n).
  - by apply (Hnb p n).
Qed.

Lemma addUnits_Ok_inv (units : list Unit) :
  forall v0 v,
    wfValue v0 -> noNegative v0 = true ->
    Forall (fun u => is_int64 (Quantity u)) units ->
    PaymentOps.addUnits v0 units = Ok v ->
    Forall (fun u => 0 <= Quantity u) units /\
    wfValue v /\ noNegative v = true /\
    Coin v = Coin v0 + unitsLovelace units.
Proof.
  induction units as [| unit rest IH]; intros v0 v Hwf Hnn Hrange; simpl.
  - intros [= <-]. split; [constructor |]. split; [done |]. split; [done | lia].
  - apply Forall_cons in Hrange as [Hq Hrange].
    destruct (Z.ltb_spec (Quantity unit) 0) as [| Hpos]; [done |].
    intros H. apply bind_Ok_inv in H as (uv & Huv%wrapErr_Ok_inv & H).
    apply bind_Ok_inv in H as (v' & Hadd & H).
    destruct (UnitToValue_Ok_inv unit uv Hq Hpos Huv) as (Hwfu & Hnnu & Hcoinu).
    destruct (Add_noNegative v0 uv v' Hwf Hwfu Hnn Hnnu Hadd) as (Hwf' & Hcoin' & Hnn').
    destruct (IH v' v Hwf' Hnn' Hrange H) as (Hall & Hwfv & Hnnv & Hcoin).
    split; [by constructor |]. split; [done |]. split; [done |]. lia.
Qed.

(** X6: what [Payment.ToValue] accepts and returns.  When it succeeds,
    the lovelace of the payment and the quantity of every unit are not
    negative, the coin of the value is the lovelace of the payment plus
    the quantities of the units whose policy id is empty or "lovelace",
    it fits in a [uint64], and no asset of the value has a negative
    quantity. *)
Theorem PaymentToValue_Ok (p : Payment) (v : Value) :
  wfPayment p -> PaymentOps.ToValue p = Ok v ->
  0 <= Lovelace p /\ Forall (fun u => 0 <= Quantity u) (Units p) /\
  Coin v = Lovelace p + unitsLovelace (Units p) /\ Coin v < two64 /\
  noNegative v = true.
Proof.
  intros [Hlovelace Hunits]. unfold PaymentOps.ToValue.
  destruct (Z.ltb_spec (Lovelace p) 0) as [| Hpos]; [done |]. intros H.
  assert (Hcoin : uint64 (Lovelace p) = Lovelace p).
  { apply uint64_id. unfold is_int64, is_uint64, two63, two64 in *. lia. }
  rewrite Hcoin in H.
  apply addUnits_Ok_inv in H as (Hall & Hwf & Hnn & Hsum); [| | done | done].
  - split; [done |]. split; [done |]. split; [done |].
    split; [| done]. unfold wfValue, is_uint64 in Hwf. lia.
  - unfold wfValue, is_int64, is_uint64, two63, two64 in *. simpl. lia.
Qed.

Lemma PaymentToValue_Ok_witness :
  0 <= 2000000 /\
  Forall (fun u => 0 <= Quantity u)
         [mkUnit "lovelace" "" 500000;
          mkUnit (hex.EncodeToString policyA) (hex.EncodeToString tokenName) 7] /\
  Coin (mkValue 2500000 (Some {[ policyA := {[ tokenName := 7 ]} ]}))
  = 2000000
    + unitsLovelace
        [mkUnit "lovelace" "" 500000;
         mkUnit (hex.EncodeToString policyA) (hex.EncodeToString tokenName) 7] /\
  Coin (mkValue 2500000 (Some {[ policyA := {[ tokenName := 7 ]} ]})) < two64 /\
  noNegative (mkValue 2500000 (Some {[ policyA := {[ tokenName := 7 ]} ]})) = true.
Proof.
  apply (PaymentToValue_Ok
           (mkPayment 2000000 Example.walletAddress
              [mkUnit "lovelace" "" 500000;
               mkUnit (hex.EncodeToString policyA) (hex.EncodeToString tokenName) 7]
              None "" false None)).
  - split; [unfold is_int64, two63; simpl; lia |].
    repeat constructor; unfold is_int64, two63; simpl; lia.
  - vm_compute. reflexivity.
Defined.

Lemma setLovelace_same (p : Payment) : setLovelace p (Lovelace p) = p.
Proof. by destruct p. Qed.

Section EnsureMinUtxoFacts.

Variable lib : Library.

(** A payment whose output meets the minimum computed for it. *)
Definition meetsMinUtxo (c : Z) (p : Payment) : Prop :=
  exists txOut coins,
    PaymentOps.ToTxOut p = Ok txOut /\
    MinLovelacePostAlonzo lib txOut c = Ok coins /\
    coins <= Lovelace p.

Lemma ensureRounds_outcome (c : Z) (rounds : nat) :
  forall p p' r,
    ensureRounds lib rounds c p = (p', r) ->
    p' = setLovelace p (Lovelace p') /\ Lovelace p <= Lovelace p' /\
    (r = Ok true -> meetsMinUtxo c p').
Proof.
  induction rounds as [| rounds IH]; intros p p' r; simpl.
  - intros [= <- <-]. by rewrite setLovelace_same.
  - destruct (PaymentOps.ToTxOut p) as [txOut | e] eqn:Hout; simpl.
    2: { intros [= <- <-]. by rewrite setLovelace_same. }
    destruct (MinLovelacePostAlonzo lib txOut c) as [coins | e] eqn:Hmin; simpl.
    2: { intros [= <- <-]. by rewrite setLovelace_same. }
    destruct (Z.leb_spec coins (Lovelace p)) as [Hle | Hlt].
    + intros [= <- <-]. rewrite setLovelace_same.
      split; [done |]. split; [lia |]. intros _. by exists txOut, coins.
    + intros H. destruct (IH _ _ _ H) as (Hp' & Hle & Hmeets).
      simpl in Hle. split; [| split; [lia | done]].
      rewrite Hp'. by destruct p.
Qed.

(** The outcome of [EnsureMinUTXO], shared by the facts below. *)
Lemma EnsureMinUTXO_inv (cc : backend.ChainContext) (p p' : Payment)
  (r : result unit) :
  EnsureMinUTXO lib cc p = (p', r) ->
  p' = setLovelace p (Lovelace p') /\ Lovelace p <= Lovelace p' /\
  (is_Ok r = true ->
   (p' = p /\ Units p = [] /\ constants.MinLovelace <= Lovelace p /\
    PaymentDatum p = None /\ DatumHash p = ""%string /\ PaymentScriptRef p = None) \/
   exists pp,
     backend.ProtocolParams cc = Ok pp /\
     meetsMinUtxo (backend.CoinsPerUtxoByteValue pp) p').
Proof.
  unfold EnsureMinUTXO.
  destruct (_ && _) eqn:Hfast.
  - intros [= <- <-]. rewrite setLovelace_same. split; [done |]. split; [lia |].
    intros _. left.
    apply andb_prop in Hfast as [Hfast Href].
    apply andb_prop in Hfast as [Hfast Hhash].
    apply andb_prop in Hfast as [Hfast Hdatum].
    apply andb_prop in Hfast as [Hunits Hmin].
    split; [done |].
    split; [destruct (Units p); [done | simpl in Hunits; lia] |].
    split; [by apply Z.leb_le |].
    split; [by destruct (PaymentDatum p) |].
    split; [| by destruct (PaymentScriptRef p)].
    unfold len in Hhash. destruct (DatumHash p); [done | simpl in Hhash; lia].
  - destruct (backend.ProtocolParams cc) as [pp | e] eqn:Hpp; cbn [wrapErr].
    2: { intros [= <- <-]. rewrite setLovelace_same. split; [done |]. split; [lia | done]. }
    destruct (ensureRounds lib 3 (backend.CoinsPerUtxoByteValue pp) p) as [q rq] eqn:Hrounds.
    destruct (ensureRounds_outcome _ _ _ _ _ Hrounds) as (Hq & Hle & Hmeets).
    destruct rq as [[|] | e].
    + intros [= <- <-]. split; [done |]. split; [done |]. intros _. right.
      exists pp. split; [done |]. by apply Hmeets.
    + destruct (PaymentOps.ToTxOut q) as [txOut | e] eqn:Hout; simpl.
      2: { by intros [= <- <-]. }
      destruct (MinLovelacePostAlonzo lib txOut _) as [coins | e] eqn:Hmin; simpl.
      2: { by intros [= <- <-]. }
      destruct (Z.ltb_spec (Lovelace q) coins) as [Hlt | Hge].
      * by intros [= <- <-].
      * intros [= <- <-]. split; [done |]. split; [done |]. intros _. right.
        exists pp. split; [done |]. by exists txOut, coins.
    + by intros [= <- <-].
Qed.

(** X7: what [EnsureMinUTXO] does to a payment.  Whatever the outcome,
    only the lovelace of the payment changes, and it is never lowered.
    When the call succeeds, either the payment was a plain transfer of
    at least [MinLovelace] and is untouched, or the output built from
    the adjusted payment holds at least the minimum computed for that
    very output. *)
Theorem EnsureMinUTXO_outcome (cc : backend.ChainContext) (p p' : Payment)
  (r : result unit) :
  EnsureMinUTXO lib cc p = (p', r) ->
  p' = setLovelace p (Lovelace p') /\ Lovelace p <= Lovelace p' /\
  (is_Ok r = true ->
   (p' = p /\ Units p = [] /\ constants.MinLovelace <= Lovelace p /\
    PaymentDatum p = None /\ DatumHash p = ""%string /\ PaymentScriptRef p = None) \/
   exists pp,
     backend.ProtocolParams cc = Ok pp /\
     meetsMinUtxo (backend.CoinsPerUtxoByteValue pp) p').
Proof. apply EnsureMinUTXO_inv. Qed.

(** One payment and the payment [buildOutputs] leaves in its place. *)
Definition raised (p p' : Payment) : Prop :=
  p' = setLovelace p (Lovelace p') /\ Lovelace p <= Lovelace p'.

Lemma buildOutputsLoop_outcome (cc : backend.ChainContext) (pending : list Payment) :
  forall ps r,
    buildOutputsLoop lib cc pending = (ps, r) ->
    length ps = length pending /\
    match r with
    | Ok outputs =>
        Forall2 raised pending ps /\
        Forall2 (fun p' txOut => PaymentOps.ToTxOut p' = Ok txOut) ps outputs
    | Err _ => True
    end.
Proof.
  induction pending as [| payment rest IH]; intros ps r; simpl.
  - intros [= <- <-]. split; [done |]. split; constructor.
  - destruct (EnsureMinUTXO lib cc payment) as [payment' [[] | e]] eqn:Hmin.
    2: { by intros [= <- <-]. }
    destruct (EnsureMinUTXO_inv _ _ _ _ Hmin) as (Hp' & Hle & _).
    destruct (PaymentOps.ToTxOut payment') as [txOut | e] eqn:Hout; simpl.
    2: { by intros [= <- <-]. }
    destruct (buildOutputsLoop lib cc rest) as [rest' [outputs | e]] eqn:Hrest;
      destruct (IH _ _ eq_refl) as [Hlen Hres]; intros [= <- <-]; simpl.
    + destruct Hres as [Hraised Houts]. split; [by rewrite Hlen |].
      split; by constructor.
    + by rewrite Hlen.
Qed.

(** X8: [buildOutputs] keeps one payment per payment and, when it
    succeeds, returns one output per payment, in order: the payments
    left in the builder are the given ones with their lovelace raised
    or kept, never lowered, and the i-th output is the output of the
    i-th payment left in the builder.  Nothing else of the builder
    changes. *)
Theorem buildOutputs_outcome (a a' : Apollo)
  (r : result (list BabbageTransactionOutput)) :
  buildOutputs lib a = (a', r) ->
  a' = set_payments a (payments a') /\
  length (payments a') = length (payments a) /\
  forall outputs,
    r = Ok outputs ->
    Forall2 raised (payments a) (payments a') /\
    Forall2 (fun p' txOut => PaymentOps.ToTxOut p' = Ok txOut) (payments a') outputs.
Proof.
  unfold buildOutputs.
  destruct (buildOutputsLoop lib (Context a) (payments a)) as [ps r'] eqn:Hloop.
  intros [= <- <-].
  destruct (buildOutputsLoop_outcome _ _ _ _ Hloop) as [Hlen Hres].
  assert (Hps : payments (set_payments a ps) = ps) by by destruct a.
  rewrite Hps. split; [done |]. split; [done |].
  intros outputs ->. done.
Qed.

End EnsureMinUtxoFacts.

Module PaymentExample.
Import Example.

(** Seven tokens and no lovelace, to the wallet. *)
Definition tokenPayment : Payment :=
  payTo walletAddress 0
        [mkUnit (hex.EncodeToString policyA) (hex.EncodeToString tokenName) 7].

Definition context : backend.ChainContext := fixedContext preprodParameters [].

(** A builder with the token payment and a plain transfer of 2 ADA. *)
Definition twoPayments : Apollo :=
  AddPayment (AddPayment (SetWallet (New context) exampleWallet) tokenPayment)
             (payTo walletAddress 2000000 []).

End PaymentExample.

Lemma EnsureMinUTXO_outcome_witness :
  setLovelace PaymentExample.tokenPayment 1150770
  = setLovelace PaymentExample.tokenPayment
                (Lovelace (setLovelace PaymentExample.tokenPayment 1150770)) /\
  Lovelace PaymentExample.tokenPayment
  <= Lovelace (setLovelace PaymentExample.tokenPayment 1150770) /\
  (is_Ok (Ok tt) = true ->
   (setLovelace PaymentExample.tokenPayment 1150770 = PaymentExample.tokenPayment /\
    Units PaymentExample.tokenPayment = [] /\
    constants.MinLovelace <= Lovelace PaymentExample.tokenPayment /\
    PaymentDatum PaymentExample.tokenPayment = None /\
    DatumHash PaymentExample.tokenPayment = ""%string /\
    PaymentScriptRef PaymentExample.tokenPayment = None) \/
   exists pp,
     backend.ProtocolParams PaymentExample.context = Ok pp /\
     meetsMinUtxo exampleLibrary (backend.CoinsPerUtxoByteValue pp)
                  (setLovelace PaymentExample.tokenPayment 1150770)).
Proof.
  apply (EnsureMinUTXO_outcome exampleLibrary PaymentExample.context).
  vm_compute. reflexivity.
Defined.

Lemma buildOutputs_outcome_witness :
  (buildOutputs exampleLibrary PaymentExample.twoPayments).1
  = set_payments PaymentExample.twoPayments
      (payments (buildOutputs exampleLibrary PaymentExample.twoPayments).1) /\
  length (payments (buildOutputs exampleLibrary PaymentExample.twoPayments).1)
  = length (payments PaymentExample.twoPayments) /\
  forall outputs,
    (buildOutputs exampleLibrary PaymentExample.twoPayments).2 = Ok outputs ->
    Forall2 raised (payments PaymentExample.twoPayments)
            (payments (buildOutputs exampleLibrary PaymentExample.twoPayments).1) /\
    Forall2 (fun p' txOut => PaymentOps.ToTxOut p' = Ok txOut)
            (payments (buildOutputs exampleLibrary PaymentExample.twoPayments).1)
            outputs.
Proof.
  apply (buildOutputs_outcome exampleLibrary PaymentExample.twoPayments).
  vm_compute. reflexivity.
Defined.

(* ===================================================================== *)
(** * Further properties of the sorting utilities *)
(* ===================================================================== *)

(** [hex.DecodeString] reads back what [hex.EncodeToString] wrote. *)
Lemma fromHexChar_hexDigit (k : N) :
  (k < 16)%N -> hex.fromHexChar (hex.hexDigit k) = Some k.
Proof.
  intros Hk. rewrite <- (N2Nat.id k).
  assert (Hn : (N.to_nat k < 16)%nat) by lia.
  generalize dependent (N.to_nat k). intros n Hn.
  do 16 (destruct n as [| n]; [reflexivity |]). lia.
Qed.

Lemma decodePairs_EncodeToString (bytes : string) :
  hex.decodePairs (hex.EncodeToString bytes) = Some bytes.
Proof.
  induction bytes as [| c rest IH]; [done |].
  cbn [hex.EncodeToString hex.decodePairs].
  pose proof (N_ascii_bounded c) as Hc.
  rewrite !fromHexChar_hexDigit.
  - rewrite IH. f_equal. f_equal.
    rewrite <- (N.div_mod (N_of_ascii c) 16) by lia. apply ascii_N_embedding.
  - apply N.mod_lt. lia.
  - apply N.Div0.div_lt_upper_bound. lia.
Qed.

Lemma DecodeString_EncodeToString (bytes : string) :
  hex.DecodeString (hex.EncodeToString bytes) = Ok bytes.
Proof. unfold hex.DecodeString. by rewrite decodePairs_EncodeToString. Qed.

Lemma EncodeToString_inj (x y : string) :
  hex.EncodeToString x = hex.EncodeToString y -> x = y.
Proof.
  intros H. apply (f_equal hex.decodePairs) in H.
  rewrite !decodePairs_EncodeToString in H. congruence.
Qed.

Lemma StronglySorted_lookup {A} (R : A -> A -> Prop) (l : list A) :
  StronglySorted R l ->
  forall i j x y, (i < j)%nat -> l !! i = Some x -> l !! j = Some y -> R x y.
Proof.
  induction 1 as [| z l Hsorted IH Hall]; intros i j x y Hlt Hi Hj; [done |].
  destruct j as [| j]; [lia |]. simpl in Hj.
  destruct i as [| i]; simpl in Hi.
  - injection Hi as ->. rewrite List.Forall_forall in Hall.
    apply Hall. apply list_elem_of_In. by eapply list_elem_of_lookup_2.
  - apply (IH i j); [lia | done | done].
Qed.

(** Sorting by a [less] that need not tell all elements apart: when, on
    the elements at hand, [less] is asymmetric and "does not come after"
    is transitive, the sorted slice has no element after one it is less
    than. *)
Section SortWeakOrder.

Context {A : Type} (less : A -> A -> bool) (P : A -> Prop).

Hypothesis less_asym_on : forall x y, P x -> P y -> less x y = true -> less y x = false.
Hypothesis notAfter_trans_on :
  forall x y z, P x -> P y -> P z ->
                notAfter less x y -> notAfter less y z -> notAfter less x z.

Lemma insertSorted_ordered x l :
  P x -> Forall P l ->
  StronglySorted (notAfter less) l ->
  StronglySorted (notAfter less) (insertSorted less x l).
Proof.
  intros Hx HP Hsorted. induction Hsorted as [| y l Hsorted IH Hall]; simpl.
  - by repeat constructor.
  - apply Forall_cons in HP as [Hy HP]. destruct (less y x) eqn:Hyx.
    + constructor; [by apply IH |].
      rewrite List.Forall_forall. intros z Hz%list_elem_of_In.
      rewrite (insertSorted_Permutation less x l) in Hz.
      apply elem_of_cons in Hz as [-> | Hz].
      * by apply less_asym_on.
      * rewrite List.Forall_forall in Hall. by apply Hall, list_elem_of_In.
    + constructor; [by constructor |].
      constructor; [done |].
      rewrite List.Forall_forall in Hall |- *. intros z Hz.
      apply (notAfter_trans_on x y z); [done | done | | done | by apply Hall].
      rewrite Forall_forall in HP. by apply HP, list_elem_of_In.
Qed.

Lemma sortSlice_ordered l :
  Forall P l -> StronglySorted (notAfter less) (sortSlice less l).
Proof.
  induction l as [| x l IH]; intros HP; [constructor |].
  apply Forall_cons in HP as [Hx HP].
  unfold sortSlice in *. simpl. apply insertSorted_ordered; [done | | by apply IH].
  fold (sortSlice less l). by rewrite sortSlice_Permutation.
Qed.

End SortWeakOrder.

(** An output that reports its amount. *)
Definition hasAmount (u : Utxo) : Prop := is_Some (OutAmount (Output u)).

Lemma lessUtxos_asym (x y : Utxo) :
  hasAmount x -> hasAmount y -> lessUtxos x y = true -> lessUtxos y x = false.
Proof.
  unfold hasAmount, lessUtxos, cmpGt. intros [ax ->] [ay ->].
  destruct (OutAssets (Output x)), (OutAssets (Output y)); simpl; try done.
  - intros H%Z.ltb_lt. apply Z.ltb_ge. lia.
  - intros H%Z.ltb_lt. apply Z.ltb_ge. lia.
Qed.

Lemma lessUtxos_notAfter_trans (x y z : Utxo) :
  hasAmount x -> hasAmount y -> hasAmount z ->
  notAfter lessUtxos x y -> notAfter lessUtxos y z -> notAfter lessUtxos x z.
Proof.
  unfold hasAmount, notAfter, lessUtxos, cmpGt. intros [ax ->] [ay ->] [az ->].
  destruct (OutAssets (Output x)), (OutAssets (Output y)), (OutAssets (Output z));
    simpl; try done.
  - intros H1%Z.ltb_ge H2%Z.ltb_ge. apply Z.ltb_ge. lia.
  - intros H1%Z.ltb_ge H2%Z.ltb_ge. apply Z.ltb_ge. lia.
Qed.

(** X9: the order [SortUtxos] produces.  For UTxOs that report their
    amounts, the result holds the same UTxOs, every ADA-only UTxO comes
    before every UTxO with assets, and within each of the two groups the
    amounts do not increase. *)
Theorem SortUtxos_order (utxos : list Utxo) :
  Forall hasAmount utxos ->
  SortUtxos utxos ≡ₚ utxos /\
  forall (i j : nat) (x y : Utxo),
    (i < j)%nat ->
    SortUtxos utxos !! i = Some x -> SortUtxos utxos !! j = Some y ->
    (OutAssets (Output y) = None -> OutAssets (Output x) = None) /\
    (isNil (OutAssets (Output x)) = isNil (OutAssets (Output y)) ->
     forall ax ay,
       OutAmount (Output x) = Some ax -> OutAmount (Output y) = Some ay ->
       ay <= ax).
Proof.
  intros Hamounts. split; [apply sortSlice_Permutation |].
  intros i j x y Hlt Hi Hj.
  pose proof (sortSlice_ordered lessUtxos hasAmount lessUtxos_asym
                                lessUtxos_notAfter_trans utxos Hamounts) as Hsorted.
  pose proof (StronglySorted_lookup _ _ Hsorted i j x y Hlt Hi Hj) as Hxy.
  unfold notAfter, lessUtxos, cmpGt in Hxy. split.
  - intros Hy. rewrite Hy in Hxy.
    destruct (OutAssets (Output x)); simpl in Hxy; done.
  - intros Hsame ax ay Hax Hay. rewrite Hax, Hay in Hxy.
    destruct (OutAssets (Output x)), (OutAssets (Output y)); simpl in *; try done.
    + apply Z.ltb_ge in Hxy. lia.
    + apply Z.ltb_ge in Hxy. lia.
Qed.

Module SortExample.

Definition withTokens (first : Z) (lovelace : Z) : Utxo :=
  mkUtxo (mkInput (Example.txHash first) 0)
         (mkTransactionOutput Example.walletAddress (Some lovelace)
                              (Some {[ policyA := {[ tokenName := 1 ]} ]})).

Definition pool : list Utxo :=
  [withTokens 1 9000000; Example.adaUtxo 2 0 3000000; withTokens 3 12000000;
   Example.adaUtxo 4 1 5000000].

End SortExample.

Lemma SortUtxos_order_witness :
  SortUtxos SortExample.pool ≡ₚ SortExample.pool /\
  forall (i j : nat) (x y : Utxo),
    (i < j)%nat ->
    SortUtxos SortExample.pool !! i = Some x ->
    SortUtxos SortExample.pool !! j = Some y ->
    (OutAssets (Output y) = None -> OutAssets (Output x) = None) /\
    (isNil (OutAssets (Output x)) = isNil (OutAssets (Output y)) ->
     forall ax ay,
       OutAmount (Output x) = Some ax -> OutAmount (Output y) = Some ay ->
       ay <= ax).
Proof.
  apply SortUtxos_order. unfold hasAmount. repeat constructor; simpl; eauto.
Defined.

Lemma lessInputs_true (x y : Utxo) :
  lessInputs x y = true <->
  String.ltb (hex.EncodeToString (TxId (Id x))) (hex.EncodeToString (TxId (Id y))) = true \/
  (TxId (Id x) = TxId (Id y) /\ OutputIndex (Id x) < OutputIndex (Id y)).
Proof.
  unfold lessInputs.
  destruct (String.eqb_spec (hex.EncodeToString (TxId (Id x)))
                            (hex.EncodeToString (TxId (Id y)))) as [Heq | Hne]; simpl.
  - rewrite Z.ltb_lt. split.
    + intros H. right. split; [by apply EncodeToString_inj | done].
    + intros [H | [_ H]]; [| done]. rewrite Heq, string_ltb_irrefl in H. done.
  - split; [by left |]. intros [H | [Hid _]]; [done |]. by rewrite Hid in Hne.
Qed.

Lemma lessInputs_trans (x y z : Utxo) :
  lessInputs x y = true -> lessInputs y z = true -> lessInputs x z = true.
Proof.
  rewrite !lessInputs_true. intros [Hxy | [Hxy Hi]] [Hyz | [Hyz Hj]].
  - left. by apply (string_ltb_trans _ _ _ Hxy).
  - left. by rewrite <- Hyz.
  - left. by rewrite Hxy.
  - right. split; [congruence | lia].
Qed.

Lemma lessInputs_irrefl (x : Utxo) : lessInputs x x = false.
Proof.
  destruct (lessInputs x x) eqn:H; [| done].
  apply lessInputs_true in H as [H | [_ H]]; [| lia].
  by rewrite string_ltb_irrefl in H.
Qed.

Lemma lessInputs_total (x y : Utxo) :
  lessInputs x y = true \/ Id x = Id y \/ lessInputs y x = true.
Proof.
  rewrite !lessInputs_true.
  destruct (string_ltb_total (hex.EncodeToString (TxId (Id x)))
                             (hex.EncodeToString (TxId (Id y))))
    as [H | [H%EncodeToString_inj | H]]; [by left; left | | by right; right; left].
  destruct (Z.lt_trichotomy (OutputIndex (Id x)) (OutputIndex (Id y)))
    as [Hi | [Hi | Hi]].
  - left. by right.
  - right. left. destruct (Id x), (Id y). simpl in *. congruence.
  - right. right. right. done.
Qed.

Lemma lessInputs_asym (x y : Utxo) :
  lessInputs x y = true -> lessInputs y x = false.
Proof.
  intros Hxy. destruct (lessInputs y x) eqn:Hyx; [| done].
  by rewrite <- (lessInputs_irrefl x), (lessInputs_trans x y x).
Qed.

Lemma lessInputs_same_Id (x y : Utxo) : Id x = Id y -> lessInputs x y = false.
Proof.
  intros Hid. destruct (lessInputs x y) eqn:H; [| done].
  apply lessInputs_true in H. rewrite Hid in H. destruct H as [H | [_ H]]; [| lia].
  by rewrite string_ltb_irrefl in H.
Qed.

Lemma lessInputs_notAfter_trans (x y z : Utxo) :
  notAfter lessInputs x y -> notAfter lessInputs y z -> notAfter lessInputs x z.
Proof.
  unfold notAfter. intros Hyx Hzy.
  destruct (lessInputs z x) eqn:Hzx; [| done].
  destruct (lessInputs_total x y) as [Hxy | [Hid | Hxy]]; [| | congruence].
  - pose proof (lessInputs_trans _ _ _ Hzx Hxy). congruence.
  - assert (lessInputs z y = true); [| congruence].
    apply lessInputs_true. apply lessInputs_true in Hzx. by rewrite <- Hid.
Qed.

(** Elements of a list whose images are pairwise distinct are equal when
    their images are. *)
Lemma NoDup_fmap_eq {A B} (f : A -> B) (l : list A) (x y : A) :
  NoDup (f <$> l) -> x ∈ l -> y ∈ l -> f x = f y -> x = y.
Proof.
  induction l as [| z l IH]; simpl; [by intros _ ?%elem_of_nil |].
  intros [Hz Hnd]%NoDup_cons [-> | Hx]%elem_of_cons [-> | Hy]%elem_of_cons Heq.
  - done.
  - exfalso. apply Hz. rewrite Heq. by apply list_elem_of_fmap_2.
  - exfalso. apply Hz. rewrite <- Heq. by apply list_elem_of_fmap_2.
  - by apply IH.
Qed.

#[global] Instance ShelleyTransactionInput_eq_dec : EqDecision ShelleyTransactionInput.
Proof. solve_decision. Defined.

(** X10: [SortInputs] gives the canonical order.  When no two of the
    inputs spend the same output, the result holds the same inputs,
    strictly ascending by the hex transaction id and then by the output
    index, and it is the same list for every order in which the inputs
    are given. *)
Theorem SortInputs_canonical (inputs reordered : list Utxo) :
  NoDup (Id <$> inputs) -> inputs ≡ₚ reordered ->
  SortInputs inputs ≡ₚ inputs /\
  StronglySorted (fun x y => lessInputs x y = true) (SortInputs inputs) /\
  SortInputs reordered = SortInputs inputs.
Proof.
  intros Hnd Hperm.
  assert (Hsorted : forall l, StronglySorted (notAfter lessInputs) (SortInputs l)).
  { intros l.
    apply (sortSlice_ordered lessInputs (fun _ => True)
             (fun x y _ _ => lessInputs_asym x y)
             (fun x y z _ _ _ => lessInputs_notAfter_trans x y z)).
    by apply Forall_true. }
  split; [apply sortSlice_Permutation |]. split.
  - assert (Hnd' : NoDup (Id <$> SortInputs inputs)).
    { unfold SortInputs. by rewrite sortSlice_Permutation. }
    specialize (Hsorted inputs).
    induction Hsorted as [| x s Hs IH Hall]; [constructor |].
    rewrite fmap_cons in Hnd'. apply NoDup_cons in Hnd' as [Hx Hnd'].
    constructor; [by apply IH |].
    rewrite List.Forall_forall in Hall |- *. intros y Hy.
    specialize (Hall y Hy). unfold notAfter in Hall.
    destruct (lessInputs_total x y) as [Hlt | [Hid | Hlt]]; [done | | congruence].
    exfalso. apply Hx. rewrite Hid. by apply list_elem_of_fmap_2, list_elem_of_In.
  - apply (StronglySorted_unique_strong (notAfter lessInputs)); [| done | done |].
    + unfold notAfter. intros x y Hx Hy Hyx Hxy.
      unfold SortInputs in Hx, Hy. rewrite sortSlice_Permutation in Hx, Hy.
      rewrite <- Hperm in Hx.
      apply (NoDup_fmap_eq Id inputs); [done | done | done |].
      destruct (lessInputs_total x y) as [H | [H | H]]; [congruence | done | congruence].
    + unfold SortInputs. by rewrite !sortSlice_Permutation.
Qed.

Lemma SortInputs_canonical_witness :
  SortInputs [Example.adaUtxo 2 1 5; Example.adaUtxo 1 7 5; Example.adaUtxo 2 0 5]
  ≡ₚ [Example.adaUtxo 2 1 5; Example.adaUtxo 1 7 5; Example.adaUtxo 2 0 5] /\
  StronglySorted (fun x y => lessInputs x y = true)
    (SortInputs [Example.adaUtxo 2 1 5; Example.adaUtxo 1 7 5; Example.adaUtxo 2 0 5]) /\
  SortInputs [Example.adaUtxo 2 0 5; Example.adaUtxo 2 1 5; Example.adaUtxo 1 7 5]
  = SortInputs [Example.adaUtxo 2 1 5; Example.adaUtxo 1 7 5; Example.adaUtxo 2 0 5].
Proof.
  apply SortInputs_canonical.
  - apply (bool_decide_unpack _). vm_compute. reflexivity.
  - symmetry.
    apply (Permutation_cons_append
             [Example.adaUtxo 2 1 5; Example.adaUtxo 1 7 5] (Example.adaUtxo 2 0 5)).
Defined.

(* ===================================================================== *)
(** * Further properties of the helpers of [Complete] *)
(* ===================================================================== *)

(** ** Certificate deposits *)

(** What one certificate adds to the number of deposits: the cases of
    the switch of [certificateDepositAdjustment]. *)
Definition certificateSign (cert : CertificateWrapper) : Z :=
  let t := CertType cert in
  if (t =? CertificateType.StakeRegistration)
     || (t =? CertificateType.Registration)
     || (t =? CertificateType.StakeRegistrationDelegation)
     || (t =? CertificateType.VoteRegistrationDelegation)
     || (t =? CertificateType.StakeVoteRegistrationDelegation)
  then 1
  else if (t =? CertificateType.StakeDeregistration)
          || (t =? CertificateType.Deregistration)
  then -1
  else 0.

(** Registrations minus deregistrations. *)
Definition netRegistrations (certs : list CertificateWrapper) : Z :=
  foldr (fun cert acc => certificateSign cert + acc) 0 certs.

Lemma certificate_fold (d : Z) (certs : list CertificateWrapper) :
  forall acc,
    Z.abs acc + Z.abs d * Z.of_nat (length certs) < two63 ->
    foldl (fun (adjustment : Z) (cert : CertificateWrapper) =>
             let t := CertType cert in
             if (t =? CertificateType.StakeRegistration)
                || (t =? CertificateType.Registration)
                || (t =? CertificateType.StakeRegistrationDelegation)
                || (t =? CertificateType.VoteRegistrationDelegation)
                || (t =? CertificateType.StakeVoteRegistrationDelegation)
             then int64 (adjustment + d)
             else if (t =? CertificateType.StakeDeregistration)
                     || (t =? CertificateType.Deregistration)
             then int64 (adjustment - d)
             else adjustment)
          acc certs
    = acc + d * netRegistrations certs.
Proof.
  induction certs as [| cert rest IH]; intros acc Hfit; simpl; [lia |].
  simpl in Hfit. unfold certificateSign.
  destruct (_ || _).
  - rewrite int64_id by (unfold is_int64, two63 in *; lia).
    rewrite IH by lia. lia.
  - destruct (_ || _).
    + rewrite int64_id by (unfold is_int64, two63 in *; lia).
      rewrite IH by lia. lia.
    + rewrite IH by lia. lia.
Qed.

Lemma netRegistrations_bound (certs : list CertificateWrapper) :
  Z.abs (netRegistrations certs) <= Z.of_nat (length certs).
Proof.
  induction certs as [| cert rest IH]; simpl; [lia |].
  unfold certificateSign. destruct (_ || _); [lia |]. destruct (_ || _); lia.
Qed.

(** X11: certificate deposits are netted.  As long as the deposits of
    all certificates fit the [int64] and [uint64] sums, the adjustment is
    the deposit times the number of registrations minus the number of
    deregistrations; the required value is raised by it when it is
    positive, and the refund is its opposite when it is negative, so
    that a transaction never gets both. *)
Theorem certificate_deposits_net (a : Apollo) (required : Value) (d : Z) :
  Z.abs d * Z.of_nat (length (certificates a)) < two63 ->
  0 <= Coin required ->
  Coin required + Z.abs d * Z.of_nat (length (certificates a)) < two64 ->
  let net := d * netRegistrations (certificates a) in
  certificateDepositAdjustment a d = net /\
  adjustForCertificateDeposits a required d
  = mkValue (Coin required + Z.max 0 net) (Assets required) /\
  certificateRefundValue a d = NewSimpleValue (Z.max 0 (- net)).
Proof.
  intros Hfit Hcoin Hsum net.
  assert (Hadj : certificateDepositAdjustment a d = net).
  { unfold certificateDepositAdjustment. rewrite certificate_fold; [lia |].
    simpl. lia. }
  assert (Hnet : Z.abs net <= Z.abs d * Z.of_nat (length (certificates a))).
  { unfold net. rewrite Z.abs_mul.
    pose proof (netRegistrations_bound (certificates a)). nia. }
  split; [done |]. split.
  - unfold adjustForCertificateDeposits. rewrite Hadj.
    destruct (Z.ltb_spec 0 net).
    + rewrite (uint64_id net) by (unfold is_uint64, two64, two63 in *; lia).
      rewrite uint64_id by (unfold is_uint64; lia).
      by rewrite Z.max_r by lia.
    + rewrite Z.max_l by lia. rewrite Z.add_0_r. by destruct required.
  - unfold certificateRefundValue. rewrite Hadj.
    destruct (Z.ltb_spec net 0).
    + rewrite int64_id by (unfold is_int64, two63 in *; lia).
      rewrite uint64_id by (unfold is_uint64, two64, two63 in *; lia).
      by rewrite Z.max_r by lia.
    + by rewrite Z.max_l by lia.
Qed.

Module CertificateExample.

Definition certificate (type : Z) : CertificateWrapper :=
  mkCertificate type "".

(** One registration, one delegation and two deregistrations. *)
Definition unregistering : Apollo :=
  set_certificates
    (New (Example.fixedContext Example.preprodParameters []))
    [certificate CertificateType.StakeRegistration;
     certificate CertificateType.StakeDelegation;
     certificate CertificateType.StakeDeregistration;
     certificate CertificateType.Deregistration].

End CertificateExample.

Lemma certificate_deposits_net_witness :
  let net := 2000000 * netRegistrations (certificates CertificateExample.unregistering) in
  certificateDepositAdjustment CertificateExample.unregistering 2000000 = net /\
  adjustForCertificateDeposits CertificateExample.unregistering
                               (mkValue 1000000 None) 2000000
  = mkValue (Coin (mkValue 1000000 None) + Z.max 0 net)
            (Assets (mkValue 1000000 None)) /\
  certificateRefundValue CertificateExample.unregistering 2000000
  = NewSimpleValue (Z.max 0 (- net)).
Proof.
  apply (certificate_deposits_net CertificateExample.unregistering
                                  (mkValue 1000000 None) 2000000).
  - unfold two63. simpl. lia.
  - simpl. lia.
  - unfold two64. simpl. lia.
Defined.

(** ** Withdrawals *)

(** The sum of the withdrawals, as an integer. *)
Definition withdrawalSum (a : Apollo) : Z :=
  foldr (fun (kw : string * withdrawalEntry) acc => WdAmount kw.2 + acc) 0
        (map_to_list (withdrawals a)).

(** X12: the total of the withdrawals is their sum, capped at the
    largest [uint64], and it carries no assets. *)
Theorem totalWithdrawalValue_saturates (a : Apollo) :
  (forall k wd, withdrawals a !! k = Some wd -> is_uint64 (WdAmount wd)) ->
  totalWithdrawalValue a = NewSimpleValue (Z.min MaxUint64 (withdrawalSum a)).
Proof.
  intros Hrange. unfold totalWithdrawalValue, withdrawalSum. f_equal.
  rewrite map_fold_foldr.
  assert (Hall : Forall (fun kw : string * withdrawalEntry => is_uint64 (WdAmount kw.2))
                        (map_to_list (withdrawals a))).
  { apply Forall_forall. intros [k wd] Hin%elem_of_map_to_list. by apply (Hrange k). }
  induction Hall as [| [k wd] l Hwd Hall IH]; simpl; [done |].
  assert (Hpos : 0 <= foldr (fun (kw : string * withdrawalEntry) acc => WdAmount kw.2 + acc)
                            0 l).
  { clear IH. induction Hall as [| kw l' Hkw Hall' IH']; simpl; [lia |].
    unfold is_uint64 in Hkw. lia. }
  rewrite IH. clear IH. simpl in Hwd.
  unfold is_uint64, MaxUint64, uint64, two64 in *.
  set (s := foldr _ 0 l) in *.
  destruct (Z.eqb_spec (Z.min (2 ^ 64 - 1) s) (2 ^ 64 - 1)) as [Heq | Hne]; [lia |].
  assert (Hs : Z.min (2 ^ 64 - 1) s = s) by lia. rewrite Hs.
  destruct (Z_lt_le_dec (s + WdAmount wd) (2 ^ 64)) as [Hfit | Hover].
  - rewrite Z.mod_small by lia.
    destruct (Z.ltb_spec (s + WdAmount wd) s); lia.
  - assert (Hmod : (s + WdAmount wd) mod 2 ^ 64 = s + WdAmount wd - 2 ^ 64).
    { symmetry. apply (Z.mod_unique _ _ 1); lia. }
    rewrite Hmod. destruct (Z.ltb_spec (s + WdAmount wd - 2 ^ 64) s); lia.
Qed.

Module WithdrawalExample.

Definition rewardAddress (name : string) : Address :=
  mkAddress (Ok name) name "" name.

(** Two withdrawals that together exceed the largest [uint64]. *)
Definition overflowing : Apollo :=
  AddWithdrawal
    (AddWithdrawal (New (Example.fixedContext Example.preprodParameters []))
                   (rewardAddress "stake1") MaxUint64 None None)
    (rewardAddress "stake2") 5 None None.

End WithdrawalExample.

Lemma totalWithdrawalValue_saturates_witness :
  totalWithdrawalValue WithdrawalExample.overflowing
  = NewSimpleValue (Z.min MaxUint64 (withdrawalSum WithdrawalExample.overflowing)).
Proof.
  apply totalWithdrawalValue_saturates.
  change (map_Forall (fun (_ : string) wd => 0 <= WdAmount wd < two64)
                     (withdrawals WithdrawalExample.overflowing)).
  apply (bool_decide_unpack _). vm_compute. reflexivity.
Defined.

(** ** Collateral *)

Lemma pickCollateral_return a target candidates :
  0 < target ->
  pickCollateral a target candidates = a \/
  exists utxo amt,
    utxo ∈ candidates /\
    OutAmount (Output utxo) = Some amt /\ target <= amt /\
    collaterals (pickCollateral a target candidates) = collaterals a ++ [utxo] /\
    usedUtxos (pickCollateral a target candidates) = usedUtxos a ++ [utxoRef utxo] /\
    totalCollateral (pickCollateral a target candidates) = target /\
    collateralReturn (pickCollateral a target candidates)
    = if target <? amt then
        match getChangeAddress a with
        | Some changeAddr =>
            Some (NewBabbageOutput changeAddr (mkValue (amt - target) None) None None)
        | None => collateralReturn a
        end
      else collateralReturn a.
Proof.
  intros Htarget. induction candidates as [| utxo rest IH]; simpl; [by left |].
  assert (Hrest :
    pickCollateral a target rest = a \/
    exists u amt,
      u ∈ utxo :: rest /\ OutAmount (Output u) = Some amt /\ target <= amt /\
      collaterals (pickCollateral a target rest) = collaterals a ++ [u] /\
      usedUtxos (pickCollateral a target rest) = usedUtxos a ++ [utxoRef u] /\
      totalCollateral (pickCollateral a target rest) = target /\
      collateralReturn (pickCollateral a target rest)
      = if target <? amt then
          match getChangeAddress a with
          | Some changeAddr =>
              Some (NewBabbageOutput changeAddr (mkValue (amt - target) None) None None)
          | None => collateralReturn a
          end
        else collateralReturn a).
  { destruct IH as [-> | (u & amt & Hin & H)]; [by left | right].
    exists u, amt. split; [by apply list_elem_of_further | done]. }
  destruct (isUsed a (utxoRef utxo)); [done |].
  destruct (OutAssets (Output utxo)); simpl; [done |].
  destruct (OutAmount (Output utxo)) as [amt |] eqn:Hamt; [| done].
  destruct (_ && _) eqn:Hrange; simpl; [| done].
  apply andb_prop in Hrange as [_ Hmax%Z.leb_le].
  destruct (Z.leb_spec target amt) as [Hle | Hlt]; [| done].
  right. exists utxo, amt.
  split; [apply list_elem_of_here |]. split; [done |]. split; [done |].
  assert (Hrem : int64 (amt - target) = amt - target).
  { apply int64_id. unfold is_int64, MaxInt64, two63 in *. lia. }
  rewrite Hrem.
  assert (Haddr : forall b,
             getChangeAddress
               (set_totalCollateral
                  (set_usedUtxos (set_collaterals a (collaterals a ++ [utxo]))
                                 (usedUtxos a ++ [utxoRef utxo])) b)
             = getChangeAddress a) by (by destruct a).
  rewrite Haddr.
  rewrite (uint64_id (amt - target))
    by (unfold is_uint64, MaxInt64, two63, two64 in *; lia).
  replace (0 <? amt - target) with (target <? amt)
    by (destruct (Z.ltb_spec target amt), (Z.ltb_spec 0 (amt - target)); lia).
  destruct (target <? amt); [| by destruct a].
  destruct (getChangeAddress a); by destruct a.
Qed.

Lemma minCollateral_positive (a : Apollo) : 0 < minCollateral a.
Proof.
  unfold minCollateral.
  destruct (Z.ltb_spec 0 (collateralAmount a)); [done |].
  destruct (backend.ProtocolParams (Context a)) as [pp |]; [| lia].
  destruct (backend.MaxTxFee (Context a)) as [maxFee |]; [| lia].
  destruct (0 <? backend.CollateralPercent pp); [| lia].
  destruct (Z.ltb_spec 0 (int64 (int64 maxFee * int64 (backend.CollateralPercent pp)) ÷ 100));
    lia.
Qed.

(** X13: what [setCollateral] does with the UTxO it picks.  Either it
    leaves the builder alone, or it adds one UTxO to the collateral,
    marks that UTxO as used, so that coin selection will not spend it,
    and records a positive total collateral that the UTxO covers.  What
    the UTxO holds beyond the total collateral goes to one collateral
    return output at the change address, with no assets; when nothing is
    left, no return output is set. *)
Theorem setCollateral_return (a : Apollo) :
  setCollateral a = a \/
  exists utxo amt,
    OutAmount (Output utxo) = Some amt /\
    collaterals (setCollateral a) = collaterals a ++ [utxo] /\
    isUsed (setCollateral a) (utxoRef utxo) = true /\
    0 < totalCollateral (setCollateral a) <= amt /\
    (amt = totalCollateral (setCollateral a) ->
     collateralReturn (setCollateral a) = collateralReturn a) /\
    (forall changeAddr,
        totalCollateral (setCollateral a) < amt ->
        getChangeAddress a = Some changeAddr ->
        collateralReturn (setCollateral a)
        = Some (NewBabbageOutput changeAddr
                  (mkValue (amt - totalCollateral (setCollateral a)) None)
                  None None)).
Proof.
  unfold setCollateral. destruct (_ || _); [by left |].
  match goal with
  | |- context [pickCollateral a ?t ?c] =>
      destruct (pickCollateral_return a t c (minCollateral_positive a))
        as [-> | (utxo & amt & _ & Hamt & Hle & Hcoll & Hused & Htotal & Hret)]
  end; [by left | right].
  exists utxo, amt. rewrite Htotal. split; [done |]. split; [done |].
  split.
  { unfold isUsed. rewrite Hused.
    assert (H : containsString (usedUtxos a ++ [utxoRef utxo]) (utxoRef utxo) = true).
    { apply containsString_true, elem_of_app. right. apply list_elem_of_here. }
    by rewrite H. }
  pose proof (minCollateral_positive a) as Hpos.
  split; [lia |]. split.
  - intros Heq. rewrite Hret.
    by destruct (Z.ltb_spec (minCollateral a) amt); [lia |].
  - intros changeAddr Hlt Haddr. rewrite Hret, Haddr.
    by destruct (Z.ltb_spec (minCollateral a) amt); [| lia].
Qed.

(** ** Minting *)

Lemma Asset_insert_nested (data : common.MultiAsset) (pb nb : string) (qty : Z) p n :
  common.Asset (<[pb := <[nb := qty]> (default ∅ (data !! pb))]> data) p n
  = if decide (p = pb /\ n = nb) then Some qty else common.Asset data p n.
Proof.
  unfold common.Asset. destruct (decide (p = pb)) as [-> | Hp].
  - rewrite lookup_insert_eq. simpl. destruct (decide (n = nb)) as [-> | Hn].
    + rewrite lookup_insert_eq. by rewrite decide_True.
    + rewrite lookup_insert_ne by done.
      rewrite decide_False by (by intros [_ ?]).
      by destruct (data !! pb).
  - rewrite lookup_insert_ne by done.
    by rewrite decide_False by (by intros [? _]).
Qed.

Lemma mint_loops_agree (units : list Unit) :
  forall total data m,
    Coin total = 0 ->
    (forall p n, quantityOf total p n = default 0 (common.Asset data p n)) ->
    addMintAssets data units = Ok m ->
    exists v,
      addMintUnits total units = Ok v /\ Coin v = 0 /\
      forall p n, quantityOf v p n = default 0 (common.Asset m p n).
Proof.
  induction units as [| unit rest IH]; intros total data m Hcoin Hsame; simpl.
  - intros [= <-]. by exists total.
  - intros H. apply bind_Ok_inv in H as (pb & Hpb%wrapErr_Ok_inv & H).
    destruct (Z.eqb_spec (len pb) common.Blake2b224Size) as [Hlen | ?]; [| done].
    simpl in H. apply bind_Ok_inv in H as (nb & Hnb%wrapErr_Ok_inv & H).
    assert (Hvalue : UnitOps.ToValue unit
                     = Ok (NewValue 0 (Some {[ pb := {[ nb := Quantity unit ]} ]}))).
    { unfold UnitOps.ToValue.
      destruct (decide (PolicyId unit = ""%string)) as [Heq | Hne1].
      { rewrite Heq in Hpb. injection Hpb as <-. done. }
      destruct (decide (PolicyId unit = "lovelace"%string)) as [Heq | Hne2].
      { rewrite Heq in Hpb. done. }
      rewrite !bool_decide_eq_false_2 by done. simpl.
      rewrite Hpb. simpl. rewrite Hlen. simpl. by rewrite Hnb. }
    rewrite Hvalue. cbn [wrapErr mbind result_bind].
    set (uv := NewValue 0 (Some {[ pb := {[ nb := Quantity unit ]} ]})).
    assert (Hwf : wfValue total) by (unfold wfValue, is_uint64, two64; rewrite Hcoin; lia).
    assert (Hwfu : wfValue uv) by (unfold wfValue, is_uint64, two64; simpl; lia).
    destruct (ValueOps.Add total uv) as [s | e] eqn:Hadd.
    2: { exfalso. unfold ValueOps.Add in Hadd.
         rewrite uint64_add_overflow in Hadd by done. rewrite Hcoin in Hadd. done. }
    destruct (Add_Ok_inv total uv s Hwf Hwfu Hadd) as (Hs & _ & Hassets).
    cbn [wrapErr mbind result_bind].
    apply (fun Hc Hq => IH s _ m Hc Hq H); [rewrite Hs, Hcoin; done |].
    intros p n. rewrite quantityOf_assetOf, Hassets, Asset_insert_nested.
    specialize (Hsame p n). rewrite quantityOf_assetOf in Hsame.
    unfold uv, assetOf at 2. simpl. rewrite Asset_singleton.
    destruct (decide (p = pb /\ n = nb)) as [[-> ->] | Hne].
    + assert (Hlook : default ∅ (data !! pb) !! nb = common.Asset data pb nb).
      { unfold common.Asset. by destruct (data !! pb). }
      rewrite Hlook.
      destruct (assetOf total pb nb), (common.Asset data pb nb); simpl in *; lia.
    + by destruct (assetOf total p n).
Qed.

(** X14: what is balanced is what is minted.  When [buildMintAsset]
    builds the mint field of the body, [mintValue], which [Complete]
    adds to the inputs, succeeds with no lovelace and, for every asset,
    the quantity that the mint field holds. *)
Theorem mintValue_matches_buildMintAsset (a : Apollo) (m : common.MultiAsset) :
  buildMintAsset a = Ok m ->
  exists v,
    mintValue a = Ok v /\ Coin v = 0 /\
    forall p n, quantityOf v p n = default 0 (common.Asset m p n).
Proof.
  unfold buildMintAsset, mintValue. intros H.
  apply bind_Ok_inv in H as (data & Hdata & [= <-]).
  apply (mint_loops_agree (mint a) emptyValue ∅ data); [done | | done].
  intros p n. unfold quantityOf, common.Asset. simpl. by rewrite lookup_empty.
Qed.

Lemma mintValue_matches_buildMintAsset_witness :
  exists v,
    mintValue MintExample.mintDescending = Ok v /\ Coin v = 0 /\
    forall p n,
      quantityOf v p n
      = default 0 (common.Asset
                     (match buildMintAsset MintExample.mintDescending with
                      | Ok m => m
                      | Err _ => ∅
                      end) p n).
Proof.
  apply mintValue_matches_buildMintAsset. vm_compute. reflexivity.
Defined.

(** ** Attached scripts *)

Lemma containsString_app l1 l2 s :
  containsString (l1 ++ l2) s = containsString l1 s || containsString l2 s.
Proof. unfold containsString. apply existsb_app. Qed.

(** X15: attaching a script twice is attaching it once, and the list of
    script hashes of the builder never holds a hash twice. *)
Theorem AttachScript_idempotent (lib : Library) (a : Apollo) (script : Script) :
  AttachScript lib (AttachScript lib a script) script = AttachScript lib a script /\
  (NoDup (scriptHashes a) -> NoDup (scriptHashes (AttachScript lib a script))).
Proof.
  unfold AttachScript, hasScriptHash.
  destruct (containsString (scriptHashes a) (scriptHash lib script)) eqn:Hhas.
  - by rewrite Hhas.
  - assert (Hhashes :
      scriptHashes
        (let a := set_scriptHashes a (scriptHashes a ++ [scriptHash lib script]) in
         match script with
         | NativeScript s => set_nativescripts a (nativescripts a ++ [s])
         | PlutusV1Script s => set_v1scripts a (v1scripts a ++ [s])
         | PlutusV2Script s => set_v2scripts a (v2scripts a ++ [s])
         | PlutusV3Script s => set_v3scripts a (v3scripts a ++ [s])
         end)
      = scriptHashes a ++ [scriptHash lib script]) by (by destruct a, script).
    cbv zeta in Hhashes. rewrite Hhashes. split.
    + rewrite containsString_app. simpl. by rewrite String.eqb_refl, orb_true_r.
    + intros Hnd. apply NoDup_app. split; [done |]. split; [| apply NoDup_singleton].
      intros x Hx ->%list_elem_of_singleton.
      by apply containsString_false in Hhas.
Qed.

(** ** Spend redeemers *)

Lemma findIndex_lookup_by {A} (f : A -> string) (l : list A) :
  forall i x,
    NoDup (f <$> l) -> l !! i = Some x ->
    findIndex (fun y => String.eqb (f y) (f x)) l = Some i.
Proof.
  induction l as [| y l IH]; intros i x Hnd Hi; [done |].
  rewrite fmap_cons in Hnd. apply NoDup_cons in Hnd as [Hy Hnd]. simpl.
  destruct i as [| i]; simpl in Hi.
  - injection Hi as ->. by rewrite String.eqb_refl.
  - destruct (String.eqb_spec (f y) (f x)) as [Heq | _].
    + exfalso. apply Hy. rewrite Heq. apply list_elem_of_fmap_2.
      by eapply list_elem_of_lookup_2.
    + by rewrite (IH i x).
Qed.

(** Every key of the result was there before or belongs to an entry
    whose position was found. *)
Lemma addRedeemers_Some_inv position tagOf (entries : gmap string redeemerEntry) res
  key v :
  addRedeemers position tagOf entries res !! key = Some v ->
  res !! key = Some v \/
  exists k entry i,
    entries !! k = Some entry /\ position k = Some i /\
    key = mkRedeemerKey (tagOf entry) (uint32 (Z.of_nat i)) /\
    v = mkRedeemerValue (EntryData entry) (EntryExUnits entry).
Proof.
  unfold addRedeemers. revert key v.
  apply (map_fold_weak_ind
    (fun r (m : gmap string redeemerEntry) =>
       forall key v,
         r !! key = Some v ->
         res !! key = Some v \/
         exists k entry i,
           m !! k = Some entry /\ position k = Some i /\
           key = mkRedeemerKey (tagOf entry) (uint32 (Z.of_nat i)) /\
           v = mkRedeemerValue (EntryData entry) (EntryExUnits entry))).
  - intros key v H. by left.
  - intros j x m r Hj IH key v H.
    assert (Hold : r !! key = Some v ->
                   res !! key = Some v \/
                   exists k entry i,
                     <[j := x]> m !! k = Some entry /\ position k = Some i /\
                     key = mkRedeemerKey (tagOf entry) (uint32 (Z.of_nat i)) /\
                     v = mkRedeemerValue (EntryData entry) (EntryExUnits entry)).
    { intros Hr. destruct (IH key v Hr) as [? | (k & entry & i & Hk & Hrest)];
        [by left | right].
      exists k, entry, i. split; [| done].
      rewrite lookup_insert_ne; [done |]. intros ->. congruence. }
    destruct (position j) as [i |] eqn:Hpos; [| by apply Hold].
    destruct (decide (key = mkRedeemerKey (tagOf x) (uint32 (Z.of_nat i)))) as [-> | Hne].
    + rewrite lookup_insert_eq in H. injection H as <-. right.
      exists j, x, i. by rewrite lookup_insert_eq.
    + rewrite lookup_insert_ne in H by done. by apply Hold.
Qed.

(** X16: the index of a spend redeemer.  For inputs with distinct
    references, fewer than 2^32 of them, and spend redeemers as
    [CollectFrom] stores them, the redeemer map holds, under the tag
    Spend and the index [i], exactly the redeemer stored for the input at
    position [i] of the list the body is built from; an index whose input
    has no redeemer has no entry. *)
Theorem spend_redeemer_index (a : Apollo) (inputs : list Utxo) :
  Z.of_nat (length inputs) < two32 ->
  NoDup (utxoRef <$> inputs) ->
  (forall ref entry, redeemers a !! ref = Some entry ->
                     EntryTag entry = RedeemerTagSpend) ->
  forall (i : nat) (v : RedeemerValue),
    buildRedeemerMap a inputs !! mkRedeemerKey RedeemerTagSpend (Z.of_nat i) = Some v
    <->
    exists utxo entry,
      inputs !! i = Some utxo /\ redeemers a !! utxoRef utxo = Some entry /\
      v = mkRedeemerValue (EntryData entry) (EntryExUnits entry).
Proof.
  intros Hlen Hnd Htags i v.
  assert (Hbound : forall j, (j < length inputs)%nat -> uint32 (Z.of_nat j) = Z.of_nat j).
  { intros j Hj. apply uint32_id. unfold is_uint32. lia. }
  unfold buildRedeemerMap.
  set (spend := addRedeemers
                  (fun ref => findIndex (fun utxo => String.eqb (utxoRef utxo) ref) inputs)
                  EntryTag (redeemers a) ∅).
  set (withMint := if 0 <? Z.of_nat (size (mintRedeemers a))
                   then addRedeemers _ (fun _ => RedeemerTagMint) (mintRedeemers a) spend
                   else spend).
  (* the mint and stake loops only write keys of their own tags *)
  assert (Hlater :
    (if 0 <? Z.of_nat (size (stakeRedeemers a))
     then addRedeemers
            (fun skhHex =>
               findIndex (fun addrKey =>
                            match withdrawals a !! addrKey with
                            | Some wd =>
                                String.eqb (hex.EncodeToString (StakeKeyHash (WdAddress wd)))
                                           skhHex
                            | None => String.eqb (hex.EncodeToString "") skhHex
                            end) (sortedWithdrawalKeys a))
            (fun _ => RedeemerTagReward) (stakeRedeemers a) withMint
     else withMint) !! mkRedeemerKey RedeemerTagSpend (Z.of_nat i)
    = spend !! mkRedeemerKey RedeemerTagSpend (Z.of_nat i)).
  { transitivity (withMint !! mkRedeemerKey RedeemerTagSpend (Z.of_nat i)).
    - destruct (0 <? Z.of_nat (size (stakeRedeemers a))); [| done].
      apply addRedeemers_other. by intros ? ? ? _ _ [=].
    - unfold withMint. destruct (0 <? Z.of_nat (size (mintRedeemers a))); [| done].
      apply addRedeemers_other. by intros ? ? ? _ _ [=]. }
  rewrite Hlater. unfold spend. split.
  - intros H. apply addRedeemers_Some_inv in H as [H | (k & entry & j & Hk & Hpos & Hkey & ->)].
    { by rewrite lookup_empty in H. }
    apply findIndex_Some in Hpos as (utxo & Hj & Heq).
    apply String.eqb_eq in Heq as <-.
    injection Hkey as _ Hkey.
    rewrite Hbound in Hkey by (by eapply lookup_lt_Some).
    apply Nat2Z.inj in Hkey as ->. by exists utxo, entry.
  - intros (utxo & entry & Hi & Hentry & ->).
    rewrite <- (Hbound i) by (by eapply lookup_lt_Some).
    rewrite <- (Htags _ _ Hentry).
    apply (addRedeemers_lookup _ EntryTag _ _ (utxoRef utxo) entry i).
    + done.
    + by apply (findIndex_lookup_by utxoRef).
    + intros k' entry' i' _ Hpos' Hkey.
      apply findIndex_Some in Hpos' as (x & Hx & Heq).
      apply String.eqb_eq in Heq as <-.
      injection Hkey as _ Hkey.
      rewrite !Hbound in Hkey by (by eapply lookup_lt_Some).
      apply Nat2Z.inj in Hkey as ->. congruence.
Qed.

Lemma spend_redeemer_index_witness :
  buildRedeemerMap (ScriptExample.scriptSpend Example.preprodParameters)
                   CostModelExample.inputs
    !! mkRedeemerKey RedeemerTagSpend (Z.of_nat 1)
  = Some (mkRedeemerValue ScriptExample.unitDatum (mkExUnits 1000 2000))
  <->
  exists utxo entry,
    CostModelExample.inputs !! 1%nat = Some utxo /\
    redeemers (ScriptExample.scriptSpend Example.preprodParameters) !! utxoRef utxo
    = Some entry /\
    mkRedeemerValue ScriptExample.unitDatum (mkExUnits 1000 2000)
    = mkRedeemerValue (EntryData entry) (EntryExUnits entry).
Proof.
  apply (spend_redeemer_index (ScriptExample.scriptSpend Example.preprodParameters)
                              CostModelExample.inputs).
  - vm_compute. reflexivity.
  - apply (bool_decide_unpack _). vm_compute. reflexivity.
  - change (map_Forall (fun (_ : string) entry => EntryTag entry = RedeemerTagSpend)
                       (redeemers (ScriptExample.scriptSpend Example.preprodParameters))).
    apply (bool_decide_unpack _). vm_compute. reflexivity.
Defined.

(** At the example the script input is the second input, and its
    redeemer has index 1. *)
Example spend_redeemer_at_example :
  utxoRef <$> CostModelExample.inputs
  = [utxoRef (Example.adaUtxo 1 0 10000000); utxoRef ScriptExample.scriptUtxo] /\
  buildRedeemerMap (ScriptExample.scriptSpend Example.preprodParameters)
                   CostModelExample.inputs
  = {[ mkRedeemerKey RedeemerTagSpend 1
         := mkRedeemerValue ScriptExample.unitDatum (mkExUnits 1000 2000) ]}.
Proof. vm_compute. split; reflexivity. Qed.

(** ** The fee the loop ends with *)

Lemma feeLoop_fee lib a stakeDeposit totalRequired totalInput changeAddr
  allInputUtxos baseOutputs (rounds : nat) :
  forall outputs fee final finalFee,
    feeLoop lib a stakeDeposit totalRequired totalInput changeAddr allInputUtxos
            baseOutputs (S rounds) outputs fee = Ok (final, finalFee) ->
    fee <= finalFee /\
    (0 < Fee a ->
     finalFee = fee /\
     changeStep lib a stakeDeposit totalRequired totalInput changeAddr baseOutputs fee
     = Ok final) /\
    (Fee a <= 0 ->
     exists estimate,
       estimateFee lib a allInputUtxos final = Ok estimate /\
       padFee a estimate <= finalFee).
Proof.
  induction rounds as [| rounds IH]; intros outputs fee final finalFee Hloop.
  - cbn [feeLoop] in Hloop.
    destruct (changeStep lib a stakeDeposit totalRequired totalInput changeAddr
                         baseOutputs fee) as [outputs' | e] eqn:Hround; [| done].
    cbn [mbind result_bind] in Hloop.
    destruct (Z.ltb_spec 0 (Fee a)) as [Hset | Hunset].
    { injection Hloop as <- <-. split; [lia |]. split; [done | lia]. }
    destruct (estimateFee lib a allInputUtxos outputs') as [newFee | e] eqn:Hest; [| done].
    cbn [wrapErr mbind result_bind] in Hloop.
    destruct (Z.leb_spec (padFee a newFee) fee) as [Hle | Hgt];
      injection Hloop as <- <-.
    + split; [lia |]. split; [lia |]. intros _. by exists newFee.
    + split; [lia |]. split; [lia |]. intros _. exists newFee. split; [done | lia].
  - remember (S rounds) as n eqn:Hn. cbn [feeLoop] in Hloop.
    destruct (changeStep lib a stakeDeposit totalRequired totalInput changeAddr
                         baseOutputs fee) as [outputs' | e] eqn:Hround; [| done].
    cbn [mbind result_bind] in Hloop.
    destruct (Z.ltb_spec 0 (Fee a)) as [Hset | Hunset].
    { injection Hloop as <- <-. split; [lia |]. split; [done | lia]. }
    destruct (estimateFee lib a allInputUtxos outputs') as [newFee | e] eqn:Hest; [| done].
    cbn [wrapErr mbind result_bind] in Hloop.
    destruct (Z.leb_spec (padFee a newFee) fee) as [Hle | Hgt].
    + injection Hloop as <- <-. split; [lia |]. split; [lia |].
      intros _. by exists newFee.
    + subst n. apply IH in Hloop as (Hfee & _ & Hcovers).
      split; [lia |]. split; [lia | done].
Qed.

(** X17: the fee the fee loop ends with.  It is never below the fee the
    loop starts from.  With a fee set by the caller it is that starting
    fee, and the outputs are those of one round at that fee.  Otherwise
    it covers the padded estimate of the fee for the very outputs the
    loop returns. *)
Theorem feeLoop_fee_covers_estimate (lib : Library) (a : Apollo) (stakeDeposit : Z)
  (totalRequired totalInput : Value) (changeAddr : Address)
  (allInputUtxos : list Utxo) (baseOutputs outputs final : list BabbageTransactionOutput)
  (fee finalFee : Z) :
  feeLoop lib a stakeDeposit totalRequired totalInput changeAddr allInputUtxos
          baseOutputs maxFeeIterations outputs fee = Ok (final, finalFee) ->
  fee <= finalFee /\
  (0 < Fee a ->
   finalFee = fee /\
   changeStep lib a stakeDeposit totalRequired totalInput changeAddr baseOutputs fee
   = Ok final) /\
  (Fee a <= 0 ->
   exists estimate,
     estimateFee lib a allInputUtxos final = Ok estimate /\
     padFee a estimate <= finalFee).
Proof. apply feeLoop_fee. Qed.

Lemma feeLoop_fee_covers_estimate_witness :
  165017 <= 167965 /\
  (0 < Fee Example.simpleTransfer ->
   167965 = 165017 /\
   changeStep exampleLibrary Example.simpleTransfer 2000000 (mkValue 2000000 None)
              (mkValue 10000000 None) Example.walletAddress ChangeExample.baseOutputs
              165017
   = Ok (ChangeExample.baseOutputs
           ++ [NewBabbageOutput Example.walletAddress (mkValue 7832035 None)
                                None None])) /\
  (Fee Example.simpleTransfer <= 0 ->
   exists estimate,
     estimateFee exampleLibrary Example.simpleTransfer [Example.adaUtxo 1 0 10000000]
                 (ChangeExample.baseOutputs
                    ++ [NewBabbageOutput Example.walletAddress (mkValue 7832035 None)
                                         None None])
     = Ok estimate /\
     padFee Example.simpleTransfer estimate <= 167965).
Proof.
  apply (feeLoop_fee_covers_estimate exampleLibrary Example.simpleTransfer 2000000
           (mkValue 2000000 None) (mkValue 10000000 None) Example.walletAddress
           [Example.adaUtxo 1 0 10000000] ChangeExample.baseOutputs
           ChangeExample.baseOutputs).
  vm_compute. reflexivity.
Defined.

(* ===================================================================== *)
(** * Further properties of [Complete] *)
(* ===================================================================== *)

(** What the caller asked for is not changed by the steps of
    [Complete]. *)
Definition sameRequest (a a' : Apollo) : Prop :=
  tx a' = tx a /\ wallet a' = wallet a /\
  preselectedUtxos a' = preselectedUtxos a /\
  Fee a' = Fee a /\ FeePadding a' = FeePadding a /\ forceFee a' = forceFee a /\
  auxiliaryData a' = auxiliaryData a /\ changeAddress a' = changeAddress a.

(** The same, and the pool and the payments are the same too. *)
Definition samePool (a a' : Apollo) : Prop :=
  sameRequest a a' /\ utxos a' = utxos a /\ payments a' = payments a.

Lemma sameRequest_refl a : sameRequest a a.
Proof. by repeat split. Qed.

Lemma sameRequest_trans a b c : sameRequest a b -> sameRequest b c -> sameRequest a c.
Proof.
  unfold sameRequest.
  intros (H1 & H2 & H3 & H4 & H5 & H6 & H7 & H8) (G1 & G2 & G3 & G4 & G5 & G6 & G7 & G8).
  repeat split; congruence.
Qed.

Lemma samePool_refl a : samePool a a.
Proof. split; [apply sameRequest_refl | done]. Qed.

Lemma samePool_trans a b c : samePool a b -> samePool b c -> samePool a c.
Proof.
  intros (H1 & H2 & H3) (G1 & G2 & G3).
  split; [by eapply sameRequest_trans | split; congruence].
Qed.

Lemma loadAddresses_sameRequest (addrs : list Address) :
  forall a a' r, loadAddresses a addrs = (a', r) -> sameRequest a a'.
Proof.
  induction addrs as [| addr rest IH]; intros a a' r; simpl.
  - intros [= <- <-]. apply sameRequest_refl.
  - destruct (backend.Utxos (Context a) addr) as [us | e]; simpl.
    + intros H%IH. eapply sameRequest_trans; [| exact H]. by destruct a.
    + intros [= <- <-]. apply sameRequest_refl.
Qed.

Lemma loadUtxos_sameRequest a a' r : loadUtxos a = (a', r) -> sameRequest a a'.
Proof.
  unfold loadUtxos.
  destruct (loadAddresses a (inputAddresses a)) as [a1 [u | e]] eqn:Hload;
    apply loadAddresses_sameRequest in Hload.
  - destruct (wallet a1) as [w |]; [| by intros [= <- <-]].
    destruct (_ && _); [| by intros [= <- <-]].
    destruct (backend.Utxos (Context a1) (WalletAddress w)) as [us | e]; simpl;
      intros [= <- <-]; [| done].
    eapply sameRequest_trans; [exact Hload |]. by destruct a1.
  - by intros [= <- <-].
Qed.

Lemma pickCollateral_samePool a target candidates :
  samePool a (pickCollateral a target candidates).
Proof.
  induction candidates as [| utxo rest IH]; simpl; [apply samePool_refl |].
  destruct (isUsed a (utxoRef utxo)); [done |].
  destruct (negb (isNil (OutAssets (Output utxo)))); [done |].
  destruct (OutAmount (Output utxo)) as [amt |]; [| done].
  destruct (negb _); [done |].
  destruct (target <=? amt); [| done].
  destruct (0 <? int64 (amt - target)); [| by destruct a].
  match goal with
  | |- context [getChangeAddress ?x] => destruct (getChangeAddress x)
  end; by destruct a.
Qed.

Lemma setCollateral_samePool a : samePool a (setCollateral a).
Proof.
  unfold setCollateral. destruct (_ || _); [apply samePool_refl |].
  apply pickCollateral_samePool.
Qed.

Lemma buildOutputs_sameRequest lib a a' r :
  buildOutputs lib a = (a', r) -> sameRequest a a' /\ utxos a' = utxos a.
Proof.
  unfold buildOutputs. destruct (buildOutputsLoop lib (Context a) (payments a)).
  intros [= <- <-]. by destruct a.
Qed.

Lemma set_usedUtxos_samePool a l : samePool a (set_usedUtxos a l).
Proof. by destruct a. Qed.

Lemma selectCoins_samePool a required currentInput a' r :
  selectCoins a required currentInput = (a', r) -> samePool a a'.
Proof.
  unfold selectCoins. destruct (ValueOps.GreaterOrEqual currentInput required).
  - intros [= <- <-]. apply samePool_refl.
  - intros H%selectLoop_outcome. destruct r as [s | e].
    + destruct H as (extra & _ & -> & _). apply set_usedUtxos_samePool.
    + destruct H as [-> _]. apply samePool_refl.
Qed.

Lemma applyEvaluation_samePool lib inputs key units a :
  samePool a (applyEvaluation lib inputs key units a).
Proof.
  unfold applyEvaluation. destruct (Tag key); try apply samePool_refl.
  - destruct (inputs !! _) as [utxo |]; [| apply samePool_refl].
    destruct (redeemers a !! _); [by destruct a | apply samePool_refl].
  - destruct (sortedMintPolicyIds a !! _) as [policyHex |]; [| apply samePool_refl].
    destruct (mintRedeemers a !! _); [by destruct a | apply samePool_refl].
  - destruct (sortedWithdrawalKeys a !! _) as [addrKey |]; [| apply samePool_refl].
    destruct (stakeRedeemers a !! _); [by destruct a | apply samePool_refl].
Qed.

Lemma estimateExecutionUnits_samePool lib a inputs outputs a' r :
  estimateExecutionUnits lib a inputs outputs = (a', r) -> samePool a a'.
Proof.
  unfold estimateExecutionUnits.
  destruct (_ ≫= _) as [evalResult | e]; [| intros [= <- <-]; apply samePool_refl].
  intros [= <- <-].
  apply (map_fold_weak_ind (fun r (_ : gmap RedeemerKey ExUnits) => samePool a r)).
  - apply samePool_refl.
  - intros k x m r _ IH. eapply samePool_trans; [exact IH |].
    apply applyEvaluation_samePool.
Qed.

Lemma buildMetadata_auxiliaryData a b :
  auxiliaryData a = auxiliaryData b -> buildMetadata a = buildMetadata b.
Proof. unfold buildMetadata. by intros ->. Qed.

Lemma buildBody_fields lib a inputs outputs fee body :
  buildBody lib a inputs outputs fee = Ok body ->
  TxInputs body = inputOf <$> inputs /\ TxOutputs body = outputs /\ TxFee body = fee /\
  match auxiliaryData a with
  | Some _ =>
      exists md bytes,
        buildMetadata a = Ok (Some md) /\ encodeMetadata lib md = Ok bytes /\
        TxAuxDataHash body = Some (Blake2b256Hash lib bytes)
  | None => TxAuxDataHash body = None
  end.
Proof.
  unfold buildBody. intros H.
  apply bind_Ok_inv in H as (txMint & _ & H).
  apply bind_Ok_inv in H as (auxHash & Haux & H).
  apply bind_Ok_inv in H as (scriptDataHash & _ & [= <-]). simpl.
  do 3 (split; [done |]).
  unfold computeAuxDataHash in Haux.
  destruct (auxiliaryData a) as [aux |] eqn:Hdata; simpl in Haux;
    [| by injection Haux as <-].
  apply wrapErr_Ok_inv in Haux.
  apply bind_Ok_inv in Haux as (md & Hmd%wrapErr_Ok_inv & Haux).
  assert (Hsome : exists m, md = Some m).
  { unfold buildMetadata in Hmd. rewrite Hdata in Hmd.
    apply bind_Ok_inv in Hmd as (pairs & _ & [= <-]). eauto. }
  destruct Hsome as [m ->].
  apply bind_Ok_inv in Haux as (bytes & Hbytes%wrapErr_Ok_inv & [= <-]).
  by exists m, bytes.
Qed.

(** A round returns the base outputs, alone or followed by one output
    at the change address, without datum or script. *)
Definition withChange (changeAddr : Address) (base final : list BabbageTransactionOutput)
  : Prop :=
  final = base \/
  exists changeValue,
    final = base ++ [NewBabbageOutput changeAddr changeValue None None].

Lemma changeStep_shape lib a stakeDeposit totalRequired totalInput changeAddr base fee
  final :
  changeStep lib a stakeDeposit totalRequired totalInput changeAddr base fee = Ok final ->
  withChange changeAddr base final.
Proof.
  unfold changeStep, withChange. intros H.
  apply bind_Ok_inv in H as (totalNeeded & _ & H).
  apply bind_Ok_inv in H as (changeValue & _ & H).
  destruct (_ || _); [| injection H as <-; by left].
  apply bind_Ok_inv in H as (pp & _ & H).
  apply bind_Ok_inv in H as (minChange & _ & H).
  destruct (minChange <=? int64 (Coin changeValue)).
  { injection H as <-. right. by eexists. }
  destruct (ValueOps.HasAssets changeValue); [| injection H as <-; by left].
  apply bind_Ok_inv in H as (actualMin & _ & H).
  destruct (_ <? _) in H; [done |].
  injection H as <-. right. by eexists.
Qed.

Lemma feeLoop_shape lib a stakeDeposit totalRequired totalInput changeAddr
  allInputUtxos base (rounds : nat) :
  forall outputs fee final finalFee,
    feeLoop lib a stakeDeposit totalRequired totalInput changeAddr allInputUtxos
            base (S rounds) outputs fee = Ok (final, finalFee) ->
    withChange changeAddr base final.
Proof.
  induction rounds as [| rounds IH]; intros outputs fee final finalFee Hloop.
  - cbn [feeLoop] in Hloop.
    apply bind_Ok_inv in Hloop as (outputs' & Hround%changeStep_shape & Hloop).
    destruct (0 <? Fee a); [by injection Hloop as <- <- |].
    apply bind_Ok_inv in Hloop as (newFee & _ & Hloop).
    destruct (_ <=? _); by injection Hloop as <- <-.
  - remember (S rounds) as n eqn:Hn. cbn [feeLoop] in Hloop.
    apply bind_Ok_inv in Hloop as (outputs' & Hround%changeStep_shape & Hloop).
    destruct (0 <? Fee a); [by injection Hloop as <- <- |].
    apply bind_Ok_inv in Hloop as (newFee & _ & Hloop).
    destruct (_ <=? _); [by injection Hloop as <- <- |].
    subst n. by apply IH in Hloop.
Qed.

Lemma balance_fields lib a w stakeDeposit totalRequired refundValue outputs inputs t :
  balance lib a w stakeDeposit totalRequired refundValue outputs inputs = Ok t ->
  TxInputs (Body t) = inputOf <$> inputs /\
  withChange (default (WalletAddress w) (getChangeAddress a)) outputs
             (TxOutputs (Body t)) /\
  TxMetadata t = None /\
  match auxiliaryData a with
  | Some _ =>
      exists md bytes,
        buildMetadata a = Ok (Some md) /\ encodeMetadata lib md = Ok bytes /\
        TxAuxDataHash (Body t) = Some (Blake2b256Hash lib bytes)
  | None => TxAuxDataHash (Body t) = None
  end /\
  (0 < Fee a -> TxFee (Body t) = uint64 (padFee a (Fee a))).
Proof.
  unfold balance. intros H.
  apply bind_Ok_inv in H as (fee & Hfee & H).
  apply bind_Ok_inv in H as (totalInput & _ & H).
  apply bind_Ok_inv in H as ([outs fee'] & Hloop & H).
  apply bind_Ok_inv in H as (body & Hbody & [= <-]). simpl.
  apply buildBody_fields in Hbody as (Hin & Hout & Hfee' & Hmd).
  split; [done |]. split.
  { rewrite Hout. by apply feeLoop_shape in Hloop. }
  split; [done |]. split; [done |].
  intros Hset. rewrite Hfee'. f_equal.
  apply feeLoop_fee in Hloop as (_ & Hfixed & _).
  destruct (Hfixed Hset) as [-> _]. f_equal.
  destruct (forceFee a); [by injection Hfee as <- |].
  apply bind_Ok_inv in Hfee as (estimate & _ & [= <-]).
  by destruct (Z.ltb_spec 0 (Fee a)); [| lia].
Qed.

Ltac same_tx :=
  repeat match goal with
         | H : sameRequest _ _ |- _ => destruct H as (? & _)
         | H : samePool _ _ |- _ => destruct H as ((? & _) & _)
         end;
  congruence.

Lemma selectCoins_selected a required currentInput a' selected :
  selectCoins a required currentInput = (a', Ok selected) ->
  forall u, u ∈ selected -> u ∈ utxos a /\ isUsed a (utxoRef u) = false.
Proof.
  unfold selectCoins. destruct (ValueOps.GreaterOrEqual currentInput required).
  - intros [= <- <-] u Hu. by apply elem_of_nil in Hu.
  - intros H%selectLoop_outcome. destruct H as (extra & -> & _ & Hsub).
    intros u Hu. simpl in Hu.
    apply (elem_of_sublist _ _ _ Hu) in Hsub.
    apply list_elem_of_filter in Hsub as [Hunused Hin].
    split; [| done]. unfold SortUtxos in Hin. by rewrite sortSlice_Permutation in Hin.
Qed.

Lemma isUsed_false_preselected a ref :
  isUsed a ref = false -> ref ∉ utxoRef <$> preselectedUtxos a.
Proof.
  unfold isUsed. destruct (containsString (usedUtxos a) ref); [done |].
  intros Hnone Hin. apply list_elem_of_fmap in Hin as (u & -> & Hin).
  assert (Hsome : existsb (fun utxo => String.eqb (utxoRef utxo) (utxoRef u))
                          (preselectedUtxos a) = true).
  { apply existsb_exists. exists u. split; [by apply list_elem_of_In |].
    apply String.eqb_refl. }
  congruence.
Qed.

Lemma buildOutputs_payments lib a a' outputs :
  buildOutputs lib a = (a', Ok outputs) ->
  Forall2 (fun p txOut => PaymentOps.ToTxOut p = Ok txOut) (payments a') outputs.
Proof.
  unfold buildOutputs.
  destruct (buildOutputsLoop lib (Context a) (payments a)) as [ps r'] eqn:Hloop.
  intros [= <- ->]. apply buildOutputsLoop_outcome in Hloop as [_ [_ Houts]].
  by destruct a.
Qed.

(** How the last step of [Complete] leaves the builder [a5] in which
    the transaction [t] was assembled: with [t], or with [t] and the
    metadata whose hash the body carries. *)
Definition finished (lib : Library) (a5 : Apollo) (t : ConwayTransaction) (a' : Apollo)
  : Prop :=
  match auxiliaryData a5 with
  | Some _ =>
      exists md bytes,
        encodeMetadata lib md = Ok bytes /\
        TxAuxDataHash (Body t) = Some (Blake2b256Hash lib bytes) /\
        a' = set_tx (set_tx a5 (Some t)) (Some (withMetadata t md))
  | None => TxAuxDataHash (Body t) = None /\ a' = set_tx a5 (Some t)
  end.

(** A successful run of [Complete] from [a] to [a']: the builder [a3]
    that coin selection starts from, the builder [a5] in which the
    transaction [t] is assembled, the UTxOs selected and the outputs of
    the payments. *)
Definition completed (lib : Library) (a a' : Apollo) : Prop :=
  exists w a3 a5 selected base t,
    tx a = None /\ wallet a = Some w /\
    sameRequest a a3 /\ samePool a3 a5 /\
    Forall2 (fun p txOut => PaymentOps.ToTxOut p = Ok txOut) (payments a3) base /\
    (forall u, u ∈ selected -> u ∈ utxos a3 /\ isUsed a3 (utxoRef u) = false) /\
    TxInputs (Body t) = inputOf <$> SortInputs (preselectedUtxos a ++ selected) /\
    withChange (default (WalletAddress w) (getChangeAddress a)) base
               (TxOutputs (Body t)) /\
    (0 < Fee a -> TxFee (Body t) = uint64 (padFee a (Fee a))) /\
    TxMetadata t = None /\
    finished lib a5 t a'.

(** The stages of [Complete]: a failure leaves the transaction of the
    builder as it was. *)
Lemma Complete_stages (lib : Library) (a a' : Apollo) (r : result unit) :
  Complete lib a = (a', r) ->
  match r with
  | Err _ => tx a' = tx a
  | Ok _ => completed lib a a'
  end.
Proof.
  unfold Complete. intros H.
  destruct (tx a) as [t0 |] eqn:Htx.
  { injection H as <- <-. congruence. }
  destruct (wallet a) as [w |] eqn:Hw.
  2: { injection H as <- <-. congruence. }
  destruct (loadUtxos a) as [a1 [[] | e]] eqn:Hload;
    pose proof (loadUtxos_sameRequest _ _ _ Hload) as S1.
  2: { injection H as <- <-. same_tx. }
  pose proof (setCollateral_samePool a1) as S2.
  destruct (buildOutputs lib (setCollateral a1)) as [a3 [outputs | e]] eqn:Hout;
    destruct (buildOutputs_sameRequest _ _ _ _ Hout) as [S3 _].
  2: { injection H as <- <-. same_tx. }
  destruct (totalOutputValue outputs) as [totalRequired | e].
  2: { injection H as <- <-. same_tx. }
  destruct (addImplicitInputs a3 _ false _) as [totalInput | e].
  2: { injection H as <- <-. same_tx. }
  destruct (wrapErr _ (backend.MaxTxFee (Context a3))) as [maxFee | e].
  2: { injection H as <- <-. same_tx. }
  destruct (wrapErr _ (ValueOps.Add _ _)) as [selectionTarget | e].
  2: { injection H as <- <-. same_tx. }
  destruct (selectCoins a3 selectionTarget totalInput) as [a4 [selected | e]] eqn:Hsel;
    pose proof (selectCoins_samePool _ _ _ _ _ Hsel) as S4.
  2: { injection H as <- <-. same_tx. }
  destruct (if isEstimateRequired a4 && estimateExUnits a4
            then estimateExecutionUnits lib a4
                   (SortInputs (preselectedUtxos a4 ++ selected)) outputs
            else (a4, Ok tt)) as [a5 [[] | e]] eqn:Hest.
  all: assert (S5 : samePool a4 a5)
    by (destruct (isEstimateRequired a4 && estimateExUnits a4);
        [by apply estimateExecutionUnits_samePool in Hest
        | injection Hest as <-; apply samePool_refl]).
  2: { injection H as <- <-. same_tx. }
  destruct (balance lib a5 w _ _ _ outputs _) as [t | e] eqn:Hbal.
  2: { injection H as <- <-. same_tx. }
  apply balance_fields in Hbal as (Hin & Hshape & Hnone & Hmd & Hfee).
  assert (S13 : sameRequest a a3).
  { eapply sameRequest_trans; [exact S1 |].
    eapply sameRequest_trans; [apply S2 | apply S3]. }
  assert (S35 : samePool a3 a5) by (by eapply samePool_trans).
  assert (S15 : sameRequest a a5) by (eapply sameRequest_trans; [exact S13 | apply S35]).
  assert (Hdone : forall a'', finished lib a5 t a'' -> completed lib a a'').
  { intros a'' Ha''. exists w, a3, a5, selected, outputs, t.
    split; [done |]. split; [done |]. split; [done |]. split; [done |].
    split.
    { by apply buildOutputs_payments in Hout. }
    split; [by eapply selectCoins_selected |]. split.
    { rewrite Hin. destruct S4 as [(_ & _ & -> & _) _].
      destruct S13 as (_ & _ & -> & _). done. }
    split.
    { assert (Haddr : getChangeAddress a5 = getChangeAddress a).
      { destruct S15 as (_ & Hwallet & _ & _ & _ & _ & _ & Hchange).
        unfold getChangeAddress. by rewrite Hwallet, Hchange. }
      by rewrite <- Haddr. }
    split; [| done]. destruct S15 as (_ & _ & _ & HF & HP & _).
    intros Hset. rewrite <- HF in Hset. rewrite (Hfee Hset).
    unfold padFee. by rewrite HF, HP. }
  assert (Haux : auxiliaryData (set_tx a5 (Some t)) = auxiliaryData a5)
    by (by destruct a5).
  rewrite (buildMetadata_auxiliaryData _ _ Haux), Haux in H.
  unfold finished in Hdone.
  destruct (auxiliaryData a5) as [aux |] eqn:Hdata.
  - destruct Hmd as (md & bytes & Hbuild & Hbytes & Hhash).
    rewrite Hbuild in H. simpl in H. injection H as Ha' <-.
    apply (Hdone a'). by exists md, bytes.
  - injection H as Ha' <-. by apply (Hdone a').
Qed.

Lemma finished_tx lib a5 t a' :
  finished lib a5 t a' ->
  exists t',
    tx a' = Some t' /\ Body t' = Body t /\
    utxos a' = utxos a5 /\ payments a' = payments a5.
Proof.
  unfold finished.
  destruct (auxiliaryData a5); [intros (md & bytes & _ & _ & ->) | intros [_ ->]].
  - exists (withMetadata t md). by destruct a5.
  - exists t. by destruct a5.
Qed.

(** X18: [Complete] builds the transaction or leaves none.  When it
    fails, at whatever step, the builder holds the transaction it held
    before the call: none, for a builder that was not completed.  When
    it succeeds, the builder held none before and holds one after. *)
Theorem Complete_all_or_nothing (lib : Library) (a : Apollo) :
  match Complete lib a with
  | (a', Ok _) => tx a = None /\ is_Some (tx a')
  | (a', Err _) => tx a' = tx a
  end.
Proof.
  destruct (Complete lib a) as [a' [[] | e]] eqn:H; apply Complete_stages in H; [| done].
  destruct H as (w & a3 & a5 & selected & base & t & Htx & _ & _ & _ & _ & _ & _ & _ & _
                 & _ & Ha').
  split; [done |]. apply finished_tx in Ha' as (t' & -> & _). by eexists.
Qed.

(** X19: the inputs and the fee of the transaction [Complete] builds.
    The inputs are the preselected UTxOs followed by the selected ones,
    in the order of [SortInputs]; every preselected UTxO is an input;
    every selected UTxO is taken from the pool of the builder and was
    not preselected; and a positive fee set by the caller, with the
    padding added, is the fee of the transaction. *)
Theorem Complete_inputs_and_fee (lib : Library) (a a' : Apollo) :
  Complete lib a = (a', Ok tt) ->
  exists t selected,
    tx a' = Some t /\
    TxInputs (Body t) = inputOf <$> SortInputs (preselectedUtxos a ++ selected) /\
    (forall u, u ∈ preselectedUtxos a -> inputOf u ∈ TxInputs (Body t)) /\
    (forall u, u ∈ selected ->
               u ∈ utxos a' /\ utxoRef u ∉ utxoRef <$> preselectedUtxos a) /\
    (0 < Fee a -> TxFee (Body t) = uint64 (padFee a (Fee a))).
Proof.
  intros H. apply Complete_stages in H.
  destruct H as (w & a3 & a5 & selected & base & t & _ & _ & S13 & S35 & _ & Hsel & Hin
                 & _ & Hfee & _ & Ha').
  apply finished_tx in Ha' as (t' & Htx & Hbody & Hutxos & _).
  exists t', selected. rewrite Hbody, Hin, Hutxos. split; [done |]. split; [done |].
  split; [| split; [| done]].
  - intros u Hu. apply list_elem_of_fmap_2. unfold SortInputs.
    rewrite sortSlice_Permutation. apply elem_of_app. by left.
  - intros u Hu. destruct (Hsel u Hu) as [Hpool Hunused].
    destruct S35 as (_ & -> & _). split; [done |].
    apply isUsed_false_preselected in Hunused.
    by destruct S13 as (_ & _ & <- & _).
Qed.

Lemma Complete_inputs_and_fee_witness :
  exists t selected,
    tx (Complete exampleLibrary Example.simpleTransfer).1 = Some t /\
    TxInputs (Body t)
    = inputOf <$> SortInputs (preselectedUtxos Example.simpleTransfer ++ selected) /\
    (forall u, u ∈ preselectedUtxos Example.simpleTransfer ->
               inputOf u ∈ TxInputs (Body t)) /\
    (forall u, u ∈ selected ->
               u ∈ utxos (Complete exampleLibrary Example.simpleTransfer).1 /\
               utxoRef u ∉ utxoRef <$> preselectedUtxos Example.simpleTransfer) /\
    (0 < Fee Example.simpleTransfer ->
     TxFee (Body t)
     = uint64 (padFee Example.simpleTransfer (Fee Example.simpleTransfer))).
Proof.
  apply (Complete_inputs_and_fee exampleLibrary Example.simpleTransfer).
  vm_compute. reflexivity.
Defined.

(** X20: the outputs of the transaction [Complete] builds are the
    outputs of the payments of the builder, in order, followed by at
    most one change output; the change output goes to the change
    address, or to the wallet when none was set, and carries neither
    datum nor script. *)
Theorem Complete_outputs (lib : Library) (a a' : Apollo) :
  Complete lib a = (a', Ok tt) ->
  exists t w base,
    tx a' = Some t /\ wallet a = Some w /\
    Forall2 (fun p txOut => PaymentOps.ToTxOut p = Ok txOut) (payments a') base /\
    (TxOutputs (Body t) = base \/
     exists changeValue,
       TxOutputs (Body t)
       = base ++ [NewBabbageOutput (default (WalletAddress w) (changeAddress a))
                                   changeValue None None]).
Proof.
  intros H. apply Complete_stages in H.
  destruct H as (w & a3 & a5 & selected & base & t & _ & Hw & _ & S35 & Hbase & _ & _
                 & Hshape & _ & _ & Ha').
  apply finished_tx in Ha' as (t' & Htx & Hbody & _ & Hpayments).
  exists t', w, base. rewrite Hbody, Hpayments.
  destruct S35 as (_ & _ & ->). split; [done |]. split; [done |]. split; [done |].
  unfold withChange, getChangeAddress in Hshape. rewrite Hw in Hshape.
  by destruct (changeAddress a).
Qed.

Lemma Complete_outputs_witness :
  exists t w base,
    tx (Complete exampleLibrary Example.simpleTransfer).1 = Some t /\
    wallet Example.simpleTransfer = Some w /\
    Forall2 (fun p txOut => PaymentOps.ToTxOut p = Ok txOut)
            (payments (Complete exampleLibrary Example.simpleTransfer).1) base /\
    (TxOutputs (Body t) = base \/
     exists changeValue,
       TxOutputs (Body t)
       = base ++ [NewBabbageOutput
                    (default (WalletAddress w) (changeAddress Example.simpleTransfer))
                    changeValue None None]).
Proof.
  apply (Complete_outputs exampleLibrary Example.simpleTransfer).
  vm_compute. reflexivity.
Defined.

(** X21: the auxiliary data hash of the body is the hash of the metadata
    of the transaction.  When [Complete] succeeds on a builder with
    metadata, the transaction carries the metadata map and its body
    carries the hash of the encoding of that very map; without metadata
    the transaction has neither. *)
Theorem Complete_metadata_hash (lib : Library) (a a' : Apollo) :
  Complete lib a = (a', Ok tt) ->
  exists t,
    tx a' = Some t /\
    match auxiliaryData a with
    | Some _ =>
        exists md bytes,
          TxMetadata t = Some md /\ encodeMetadata lib md = Ok bytes /\
          TxAuxDataHash (Body t) = Some (Blake2b256Hash lib bytes)
    | None => TxMetadata t = None /\ TxAuxDataHash (Body t) = None
    end.
Proof.
  intros H. apply Complete_stages in H.
  destruct H as (w & a3 & a5 & selected & base & t & _ & _ & S13 & S35 & _ & _ & _ & _
                 & _ & Hnone & Ha').
  assert (Hsame : auxiliaryData a5 = auxiliaryData a).
  { destruct S13 as (_ & _ & _ & _ & _ & _ & H13 & _).
    destruct S35 as [(_ & _ & _ & _ & _ & _ & H35 & _) _]. congruence. }
  rewrite <- Hsame. unfold finished in Ha'.
  destruct (auxiliaryData a5).
  - destruct Ha' as (md & bytes & Hbytes & Hhash & ->).
    exists (withMetadata t md). rewrite tx_set_tx. split; [done |].
    by exists md, bytes.
  - destruct Ha' as [Hhash ->]. exists t. rewrite tx_set_tx. done.
Qed.

Module MetadataExample.

(** The simple transfer with a text message under label 674. *)
Definition withMessage : Apollo :=
  SetShelleyMetadata Example.simpleTransfer {[ 674 := AnyString "hello" ]}.

End MetadataExample.

Lemma Complete_metadata_hash_witness :
  exists t,
    tx (Complete exampleLibrary MetadataExample.withMessage).1 = Some t /\
    match auxiliaryData MetadataExample.withMessage with
    | Some _ =>
        exists md bytes,
          TxMetadata t = Some md /\ encodeMetadata exampleLibrary md = Ok bytes /\
          TxAuxDataHash (Body t) = Some (Blake2b256Hash exampleLibrary bytes)
    | None => TxMetadata t = None /\ TxAuxDataHash (Body t) = None
    end.
Proof.
  apply (Complete_metadata_hash exampleLibrary MetadataExample.withMessage).
  vm_compute. reflexivity.
Defined.

(* ===================================================================== *)
(** * Payments made from values and outputs *)
(* ===================================================================== *)

(** [q := qty.Int64(); if !qty.IsInt64() { q = math.MaxInt64 }] *)
Definition saturatedInt64 (qty : Z) : Z :=
  if (MinInt64 <=? qty) && (qty <=? MaxInt64) then qty else MaxInt64.

(** The nested loop of [NewPaymentFromValue] and [PaymentFromTxOut] over
    the policies and the asset names of a bundle: one unit per entry,
    with hex-encoded policy id and name.  Go walks the two map levels
    in an unspecified order; the model takes the order of
    [map_to_list]. *)
Definition unitsOfAssets (assets : option common.MultiAsset) : list Unit :=
  match assets with
  | Some m =>
      flat_map
        (fun policyId =>
           (fun assetName =>
              let qty := default 0 (common.Asset m policyId assetName) in
              let q := saturatedInt64 qty in
              mkUnit (hex.EncodeToString policyId) (hex.EncodeToString assetName) q)
             <$> common.Assets m policyId)
        (common.Policies m)
  | None => []
  end.

Definition NewPaymentFromValue (receiver : Address) (value : Value) : Payment :=
  mkPayment (int64 (Coin value)) receiver (unitsOfAssets (Assets value))
            None "" false None.

Definition PaymentFromTxOut (txOut : BabbageTransactionOutput) : Payment :=
  mkPayment (int64 (Amount (OutputAmount txOut))) (OutputAddress txOut)
            (unitsOfAssets (MaryAssets (OutputAmount txOut)))
            None "" false None.

(** Sums over lists. *)
Definition sumZ {A} (f : A -> Z) (l : list A) : Z :=
  foldr (fun x acc => f x + acc) 0 l.

Lemma sumZ_app {A} (f : A -> Z) l1 l2 : sumZ f (l1 ++ l2) = sumZ f l1 + sumZ f l2.
Proof. unfold sumZ. induction l1 as [| x l1 IH]; simpl; [done |]. rewrite IH. lia. Qed.

Lemma sumZ_flat_map {A B} (f : B -> Z) (h : A -> list B) l :
  sumZ f (flat_map h l) = sumZ (fun x => sumZ f (h x)) l.
Proof.
  induction l as [| x l IH]; [done |].
  cbn [flat_map]. rewrite sumZ_app, IH. done.
Qed.

Lemma sumZ_fmap {A B} (f : B -> Z) (h : A -> B) (l : list A) :
  sumZ f (h <$> l) = sumZ (fun x => f (h x)) l.
Proof.
  unfold sumZ. induction l as [| x l IH]; [done |].
  rewrite fmap_cons. cbn [foldr]. by rewrite IH.
Qed.

Lemma sumZ_ext_in {A} (f g : A -> Z) l :
  (forall x, x ∈ l -> f x = g x) -> sumZ f l = sumZ g l.
Proof.
  unfold sumZ. induction l as [| x l IH]; intros H; simpl; [done |].
  rewrite (H x) by apply list_elem_of_here. rewrite IH; [done |].
  intros y Hy. apply H. by apply list_elem_of_further.
Qed.

Lemma sumZ_zero {A} (l : list A) : sumZ (fun _ => 0) l = 0.
Proof. unfold sumZ. induction l; simpl; [done | lia]. Qed.

Lemma sumZ_indicator {A} `{EqDecision A} (x0 : A) (c : Z) (l : list A) :
  NoDup l ->
  sumZ (fun x => if decide (x = x0) then c else 0) l
  = if decide (x0 ∈ l) then c else 0.
Proof.
  unfold sumZ. induction 1 as [| x l Hx Hnd IH]; simpl.
  - done.
  - rewrite IH. destruct (decide (x = x0)) as [-> | Hne].
    + rewrite (decide_True (P := x0 ∈ x0 :: l)) by apply list_elem_of_here.
      rewrite decide_False by done. lia.
    + destruct (decide (x0 ∈ l)) as [Hin | Hout].
      * rewrite decide_True by (by apply list_elem_of_further). lia.
      * rewrite decide_False; [lia |]. rewrite elem_of_cons. intros [? | ?]; congruence.
Qed.

Lemma length_EncodeToString (bytes : string) :
  String.length (hex.EncodeToString bytes) = (2 * String.length bytes)%nat.
Proof. induction bytes as [| c rest IH]; simpl; [done |]. rewrite IH. lia. Qed.

(** A unit as the loop above builds it, from a policy id of 28 bytes. *)
Definition encodedUnit (u : Unit) : Prop :=
  exists p n,
    PolicyId u = hex.EncodeToString p /\ Name u = hex.EncodeToString n /\
    len p = common.Blake2b224Size /\ 0 <= Quantity u.

Lemma encodedUnit_ToValue (u : Unit) (p n : string) :
  PolicyId u = hex.EncodeToString p -> Name u = hex.EncodeToString n ->
  len p = common.Blake2b224Size ->
  UnitOps.ToValue u = Ok (NewValue 0 (Some {[ p := {[ n := Quantity u ]} ]})).
Proof.
  intros Hp Hn Hlen. unfold UnitOps.ToValue. rewrite Hp, Hn.
  assert (Hsize : String.length (hex.EncodeToString p) = 56%nat).
  { rewrite length_EncodeToString. unfold len, common.Blake2b224Size in Hlen. lia. }
  rewrite !bool_decide_eq_false_2.
  - simpl. rewrite !DecodeString_EncodeToString. simpl. rewrite Hlen. done.
  - intros Heq. by rewrite Heq in Hsize.
  - intros Heq. by rewrite Heq in Hsize.
Qed.

Lemma addUnits_encoded (units : list Unit) :
  forall v0,
    wfValue v0 -> Forall encodedUnit units ->
    exists v,
      PaymentOps.addUnits v0 units = Ok v /\ Coin v = Coin v0 /\
      forall p n,
        quantityOf v p n
        = quantityOf v0 p n
          + sumZ (fun u => if decide (PolicyId u = hex.EncodeToString p /\
                                      Name u = hex.EncodeToString n)
                           then Quantity u else 0) units.
Proof.
  induction units as [| unit rest IH]; intros v0 Hwf Hall; simpl.
  - exists v0. split; [done |]. split; [done |]. intros p n. lia.
  - apply Forall_cons in Hall as [(p0 & n0 & Hp & Hn & Hlen & Hpos) Hall].
    destruct (Z.ltb_spec (Quantity unit) 0); [lia |].
    rewrite (encodedUnit_ToValue unit p0 n0 Hp Hn Hlen).
    cbn [wrapErr mbind result_bind].
    set (uv := NewValue 0 (Some {[ p0 := {[ n0 := Quantity unit ]} ]})).
    assert (Hwfu : wfValue uv) by (unfold wfValue, is_uint64, two64; simpl; lia).
    destruct (ValueOps.Add v0 uv) as [v1 | e] eqn:Hadd.
    2: { exfalso. unfold ValueOps.Add in Hadd.
         rewrite uint64_add_overflow in Hadd by done. simpl in Hadd.
         unfold wfValue, is_uint64 in Hwf.
         by destruct (Z.leb_spec two64 (Coin v0 + 0)); [lia |]. }
    destruct (Add_Ok_inv v0 uv v1 Hwf Hwfu Hadd) as (Hcoin & Hfit & Hassets).
    simpl in Hcoin. cbn [mbind result_bind].
    assert (Hwf1 : wfValue v1) by (unfold wfValue, is_uint64 in *; lia).
    destruct (IH v1 Hwf1 Hall) as (v & Hv & Hcoinv & Hq).
    exists v. split; [done |]. split; [lia |]. intros p n.
    rewrite Hq, (quantityOf_assetOf v1), Hassets, (quantityOf_assetOf v0).
    unfold uv, assetOf at 2. simpl. rewrite Asset_singleton. rewrite Hp, Hn.
    destruct (decide (p = p0 /\ n = n0)) as [[-> ->] | Hne].
    + rewrite decide_True by done. destruct (assetOf v0 p0 n0); simpl; lia.
    + rewrite decide_False.
      * destruct (assetOf v0 p n); simpl; lia.
      * intros [H1%EncodeToString_inj H2%EncodeToString_inj]. by apply Hne.
Qed.

(** A bundle as the ledger holds it in an output: policy ids of 28
    bytes, quantities that are not negative and fit an [int64]. *)
Definition ledgerAssets (assets : option common.MultiAsset) : Prop :=
  forall m p n q,
    assets = Some m -> common.Asset m p n = Some q ->
    len p = common.Blake2b224Size /\ 0 <= q < two63.

Lemma unitsOfAssets_encoded (assets : option common.MultiAsset) :
  ledgerAssets assets -> Forall encodedUnit (unitsOfAssets assets).
Proof.
  intros Hledger. destruct assets as [m |]; [| constructor].
  apply Forall_forall. intros u Hu. apply list_elem_of_In in Hu.
  unfold unitsOfAssets in Hu. apply in_flat_map in Hu as (p & _ & Hu).
  apply list_elem_of_In, list_elem_of_fmap in Hu as (n & -> & Hn).
  apply common.elem_of_Assets in Hn as [q Hq].
  destruct (Hledger m p n q eq_refl Hq) as [Hlen Hrange].
  exists p, n. simpl. do 3 (split; [done |]).
  rewrite Hq. simpl. unfold saturatedInt64, MinInt64, MaxInt64, two63 in *.
  destruct (_ && _); lia.
Qed.

Lemma unitsOfAssets_sum (m : common.MultiAsset) (p n : string) :
  ledgerAssets (Some m) ->
  sumZ (fun u => if decide (PolicyId u = hex.EncodeToString p /\
                            Name u = hex.EncodeToString n)
                 then Quantity u else 0) (unitsOfAssets (Some m))
  = default 0 (common.Asset m p n).
Proof.
  intros Hledger. unfold unitsOfAssets. rewrite sumZ_flat_map.
  rewrite (sumZ_ext_in _ (fun pol => if decide (pol = p)
                                     then default 0 (common.Asset m p n) else 0)).
  - rewrite sumZ_indicator by apply NoDup_fst_map_to_list.
    destruct (decide (p ∈ common.Policies m)) as [_ | Hout]; [done |].
    rewrite common.elem_of_Policies in Hout. unfold common.Asset.
    destruct (m !! p); [| done]. exfalso. by apply Hout.
  - intros pol _. rewrite sumZ_fmap. simpl.
    destruct (decide (pol = p)) as [-> | Hne].
    + rewrite (sumZ_ext_in _ (fun name => if decide (name = n)
                                          then default 0 (common.Asset m p n) else 0)).
      * assert (Hnd : NoDup (common.Assets m p)).
        { unfold common.Assets. destruct (m !! p); [| constructor].
          apply NoDup_fst_map_to_list. }
        rewrite sumZ_indicator by done.
        destruct (decide (n ∈ common.Assets m p)) as [_ | Hout]; [done |].
        rewrite common.elem_of_Assets in Hout.
        destruct (common.Asset m p n); [| done]. exfalso. by apply Hout.
      * intros name Hname. destruct (decide (name = n)) as [-> | Hne].
        -- rewrite decide_True by done.
           apply common.elem_of_Assets in Hname as [q Hq]. rewrite Hq. simpl.
           destruct (Hledger m p n q eq_refl Hq) as [_ Hrange].
           unfold saturatedInt64, MinInt64, MaxInt64, two63 in *.
           destruct (Z.leb_spec (- 2 ^ 63) q), (Z.leb_spec q (2 ^ 63 - 1));
             simpl; lia.
        -- rewrite decide_False; [done |].
           intros [_ H%EncodeToString_inj]. by apply Hne.
    + rewrite (sumZ_ext_in _ (fun _ => 0)); [apply sumZ_zero |].
      intros name _. rewrite decide_False; [done |].
      intros [H%EncodeToString_inj _]. by apply Hne.
Qed.

(** The value of a payment whose lovelace is [coin] and whose units are
    those of [assets]. *)
Lemma unitsOfAssets_ToValue (coin : Z) (receiver : Address)
  (assets : option common.MultiAsset) :
  0 <= coin < two63 -> ledgerAssets assets ->
  exists v,
    PaymentOps.ToValue (mkPayment (int64 coin) receiver (unitsOfAssets assets)
                                  None "" false None) = Ok v /\
    Coin v = coin /\
    forall p n, quantityOf v p n = quantityOf (mkValue coin assets) p n.
Proof.
  intros Hcoin Hledger. unfold PaymentOps.ToValue. simpl.
  rewrite int64_id by (unfold is_int64, two63 in *; lia).
  destruct (Z.ltb_spec coin 0); [lia |].
  rewrite uint64_id by (unfold is_uint64, two64, two63 in *; lia).
  destruct (addUnits_encoded (unitsOfAssets assets) (NewSimpleValue coin))
    as (v & Hv & Hcoinv & Hq).
  { unfold wfValue, is_uint64, two64, two63 in *. simpl. lia. }
  { by apply unitsOfAssets_encoded. }
  exists v. split; [done |]. split; [done |]. intros p n. rewrite Hq.
  destruct assets as [m |].
  - rewrite unitsOfAssets_sum by done. unfold quantityOf. simpl. lia.
  - done.
Qed.

(** X22: a payment made from a value gives the value back.  For a value
    with a coin below 2^63 and a bundle as the ledger holds it,
    [NewPaymentFromValue(receiver, value).ToValue()] succeeds with the
    coin and every asset quantity of the value. *)
Theorem NewPaymentFromValue_round_trip (receiver : Address) (value : Value) :
  0 <= Coin value < two63 -> ledgerAssets (Assets value) ->
  exists v,
    PaymentOps.ToValue (NewPaymentFromValue receiver value) = Ok v /\
    Coin v = Coin value /\
    forall p n, quantityOf v p n = quantityOf value p n.
Proof.
  intros Hcoin Hledger.
  destruct (unitsOfAssets_ToValue (Coin value) receiver (Assets value) Hcoin Hledger)
    as (v & Hv & Hcoinv & Hq).
  exists v. split; [done |]. split; [done |]. intros p n. rewrite Hq. by destruct value.
Qed.

Module RoundTripExample.

(** 28 bytes. *)
Definition policyB : string := "bbbbbbbbbbbbbbbbbbbbbbbbbbbb".

(** 3 ADA, fifty tokens of one policy and two kinds of another. *)
Definition bundle : common.MultiAsset :=
  {[ policyA := {[ tokenName := 50 ]};
     policyB := {[ "gold"%string := 1; "silver"%string := 20 ]} ]}.

Definition value : Value := mkValue 3000000 (Some bundle).

(** An output with that value, an inline datum and no script. *)
Definition output : BabbageTransactionOutput :=
  mkBabbageOutput Example.walletAddress (mkMaryValue 3000000 (Some bundle))
                  (Some (DatumOptionInline (mkDatum "datum"))) None.

Lemma bundle_ledgerAssets : ledgerAssets (Some bundle).
Proof.
  intros m p n q [= <-] Hq.
  assert (Hall : common.allAssets
                   (fun p _ q => (len p =? common.Blake2b224Size)
                                 && (0 <=? q) && (q <? two63)) bundle = true)
    by (vm_compute; reflexivity).
  rewrite common.allAssets_true in Hall. specialize (Hall p n q Hq).
  apply andb_prop in Hall as [Hall Hlt%Z.ltb_lt].
  apply andb_prop in Hall as [Hlen%Z.eqb_eq Hle%Z.leb_le]. lia.
Qed.

End RoundTripExample.

Lemma NewPaymentFromValue_round_trip_witness :
  exists v,
    PaymentOps.ToValue (NewPaymentFromValue Example.walletAddress RoundTripExample.value)
    = Ok v /\
    Coin v = Coin RoundTripExample.value /\
    forall p n, quantityOf v p n = quantityOf RoundTripExample.value p n.
Proof.
  apply NewPaymentFromValue_round_trip.
  - unfold two63. simpl. lia.
  - apply RoundTripExample.bundle_ledgerAssets.
Defined.

(** X23: a payment made from an output pays the same value to the same
    address, but carries neither the datum nor the script reference of
    the output: for an output with an amount below 2^63 and a bundle as
    the ledger holds it, [PaymentFromTxOut(txOut).ToTxOut()] succeeds
    with the address, the amount and every asset quantity of [txOut],
    and with no datum option and no script reference. *)
Theorem PaymentFromTxOut_round_trip (txOut : BabbageTransactionOutput) :
  0 <= Amount (OutputAmount txOut) < two63 ->
  ledgerAssets (MaryAssets (OutputAmount txOut)) ->
  exists out,
    PaymentOps.ToTxOut (PaymentFromTxOut txOut) = Ok out /\
    OutputAddress out = OutputAddress txOut /\
    Amount (OutputAmount out) = Amount (OutputAmount txOut) /\
    (forall p n,
        quantityOf (ValueFromMaryValue (OutputAmount out)) p n
        = quantityOf (ValueFromMaryValue (OutputAmount txOut)) p n) /\
    OutputDatumOption out = None /\ TxOutScriptRef out = None.
Proof.
  intros Hcoin Hledger.
  destruct (unitsOfAssets_ToValue (Amount (OutputAmount txOut)) (OutputAddress txOut)
              (MaryAssets (OutputAmount txOut)) Hcoin Hledger)
    as (v & Hv & Hcoinv & Hq).
  unfold PaymentOps.ToTxOut, PaymentFromTxOut. rewrite Hv. simpl.
  eexists. split; [reflexivity |]. simpl. split; [done |]. split; [done |].
  split; [| done]. intros p n.
  unfold ValueFromMaryValue, quantityOf in *. simpl in *.
  rewrite !CloneMultiAsset_id. apply Hq.
Qed.

Lemma PaymentFromTxOut_round_trip_witness :
  exists out,
    PaymentOps.ToTxOut (PaymentFromTxOut RoundTripExample.output) = Ok out /\
    OutputAddress out = OutputAddress RoundTripExample.output /\
    Amount (OutputAmount out) = Amount (OutputAmount RoundTripExample.output) /\
    (forall p n,
        quantityOf (ValueFromMaryValue (OutputAmount out)) p n
        = quantityOf (ValueFromMaryValue (OutputAmount RoundTripExample.output)) p n) /\
    OutputDatumOption out = None /\ TxOutScriptRef out = None.
Proof.
  apply PaymentFromTxOut_round_trip.
  - unfold two63. simpl. lia.
  - apply RoundTripExample.bundle_ledgerAssets.
Defined.

(* ===================================================================== *)
(** * Further properties of coin selection, metadata and [Clone] *)
(* ===================================================================== *)

(** The test that ends the loop of [selectCoins]. *)
Definition covered (remaining : Value) : bool :=
  (Coin remaining =? 0) && negb (ValueOps.HasAssets remaining).

Lemma selectLoop_prefix a sorted :
  forall remaining selected selectedRefs a' s,
    selectLoop a sorted remaining selected selectedRefs = (a', Ok s) ->
    exists extra,
      s = selected ++ extra /\
      extra `prefix_of` filter (fun u => isUsed a (utxoRef u) = false) sorted /\
      forall k, (0 < k < length extra)%nat ->
                covered (foldl consume remaining (take k extra)) = false.
Proof.
  induction sorted as [| utxo rest IH]; intros remaining selected selectedRefs a' s; simpl.
  - destruct (_ || _); intros [= <- <-].
    exists []. rewrite app_nil_r. split; [done |]. split; [done |].
    intros k Hk. simpl in Hk. lia.
  - destruct (isUsed a (utxoRef utxo)) eqn:Hused.
    + intros H. destruct (IH _ _ _ _ _ H) as (extra & -> & Hpre & Hmin).
      exists extra. split; [done |]. split; [| done].
      rewrite filter_cons_False; [done |]. by rewrite Hused.
    + rewrite filter_cons_True by done.
      destruct (_ && _) eqn:Hdone.
      * intros [= <- <-]. exists [utxo]. split; [done |].
        split; [apply prefix_cons, prefix_nil |].
        intros k Hk. simpl in Hk. lia.
      * intros H. destruct (IH _ _ _ _ _ H) as (extra & -> & Hpre & Hmin).
        exists (utxo :: extra). rewrite <- app_assoc. split; [done |].
        split; [by apply prefix_cons |].
        intros k Hk. destruct k as [| k]; [lia |]. simpl in Hk |- *.
        destruct k as [| k]; [exact Hdone |].
        apply Hmin. lia.
Qed.

(** X24: coin selection takes the first UTxOs that do, and no more.
    When [selectCoins] succeeds, the selected UTxOs are the first unused
    UTxOs of the pool in the order of [SortUtxos], in that order, and
    the loop stops at the first of them that covers what is left of the
    requirement: after any smaller number of them, at least one,
    something was still left to cover. *)
Theorem selectCoins_takes_first (a a' : Apollo) (required currentInput : Value)
  (selected : list Utxo) :
  selectCoins a required currentInput = (a', Ok selected) ->
  selected `prefix_of`
    filter (fun u => isUsed a (utxoRef u) = false) (SortUtxos (utxos a)) /\
  forall k, (0 < k < length selected)%nat ->
            covered (foldl consume (initialRemaining required currentInput)
                           (take k selected)) = false.
Proof.
  unfold selectCoins. destruct (ValueOps.GreaterOrEqual currentInput required).
  - intros [= <- <-]. split; [apply prefix_nil |]. intros k Hk. simpl in Hk. lia.
  - intros H. apply selectLoop_prefix in H as (extra & -> & Hpre & Hmin). done.
Qed.

Lemma selectCoins_takes_first_witness :
  [Example.adaUtxo 2 1 10000000; Example.adaUtxo 1 0 3000000; SelectionExample.tokenUtxo]
    `prefix_of`
    filter (fun u => isUsed SelectionExample.builder (utxoRef u) = false)
           (SortUtxos (utxos SelectionExample.builder)) /\
  forall k,
    (0 < k < length [Example.adaUtxo 2 1 10000000; Example.adaUtxo 1 0 3000000;
                     SelectionExample.tokenUtxo])%nat ->
    covered (foldl consume
                   (initialRemaining SelectionExample.required emptyValue)
                   (take k [Example.adaUtxo 2 1 10000000; Example.adaUtxo 1 0 3000000;
                            SelectionExample.tokenUtxo]))
    = false.
Proof.
  apply (selectCoins_takes_first SelectionExample.builder
           (selectCoins SelectionExample.builder SelectionExample.required emptyValue).1
           SelectionExample.required emptyValue).
  vm_compute. reflexivity.
Defined.

(** ** Metadata *)

(** The loop of [buildMetadata] over the sorted labels. *)
Lemma buildMetadata_pairs (m : gmap Z any) (keys : list Z) :
  forall pairs,
    (forall k, k ∈ keys -> is_Some (m !! k)) ->
    foldr (fun (k : Z) (acc : result (list (TransactionMetadatum * TransactionMetadatum))) =>
             match m !! k with
             | Some v =>
                 val ← wrapErr "metadata key" (toMetadatum v);
                 rest ← acc;
                 Ok ((MetaInt k, val) :: rest)
             | None => acc
             end) (Ok []) keys = Ok pairs ->
    Forall2 (fun k (pair : TransactionMetadatum * TransactionMetadatum) =>
               pair.1 = MetaInt k /\
               exists v, m !! k = Some v /\ toMetadatum v = Ok pair.2)
            keys pairs.
Proof.
  induction keys as [| k keys IH]; intros pairs Hkeys; simpl.
  - intros [= <-]. constructor.
  - destruct (Hkeys k) as [v Hv]; [apply list_elem_of_here |]. rewrite Hv.
    intros H. apply bind_Ok_inv in H as (val & Hval%wrapErr_Ok_inv & H).
    apply bind_Ok_inv in H as (rest & Hrest & [= <-]).
    constructor.
    + split; [done |]. by exists v.
    + apply IH; [| done]. intros k' Hk'. apply Hkeys. by apply list_elem_of_further.
Qed.

(** X25: the metadata of the transaction lists the labels in ascending
    order.  When [buildMetadata] succeeds on a builder with metadata, the
    map it returns has one pair per label of the builder, the labels
    strictly ascending, each with the converted value of that label. *)
Theorem buildMetadata_sorted (a : Apollo) (aux : auxData) (md : MetaMap) :
  auxiliaryData a = Some aux -> buildMetadata a = Ok (Some md) ->
  exists labels,
    StronglySorted (fun x y => (x <? y) = true) labels /\
    (forall k, k ∈ labels <-> is_Some (metadata aux !! k)) /\
    Forall2 (fun k (pair : TransactionMetadatum * TransactionMetadatum) =>
               pair.1 = MetaInt k /\
               exists v, metadata aux !! k = Some v /\ toMetadatum v = Ok pair.2)
            labels (Pairs md).
Proof.
  intros Haux. unfold buildMetadata. rewrite Haux. intros H.
  apply bind_Ok_inv in H as (pairs & Hpairs & [= <-]).
  exists (sortUint64 (map_to_list (metadata aux)).*1).
  assert (Hkeys : forall k, k ∈ sortUint64 (map_to_list (metadata aux)).*1
                            <-> is_Some (metadata aux !! k)).
  { intros k. unfold sortUint64. rewrite elem_of_sortSlice, list_elem_of_fmap. split.
    - intros [[k' v] [-> Hin]]. apply elem_of_map_to_list in Hin. by exists v.
    - intros [v Hv]. exists (k, v). split; [done |]. by apply elem_of_map_to_list. }
  split; [| split; [done |]].
  - apply sortSlice_strictly_sorted.
    + apply Z.ltb_irrefl.
    + intros x y z Hxy%Z.ltb_lt Hyz%Z.ltb_lt. apply Z.ltb_lt. lia.
    + intros x y. destruct (Z.lt_trichotomy x y) as [? | [? | ?]];
        [left; by apply Z.ltb_lt | by right; left | right; right; by apply Z.ltb_lt].
    + apply NoDup_fst_map_to_list.
  - simpl. apply buildMetadata_pairs; [| done]. intros k Hk. by apply Hkeys.
Qed.

Module LabelExample.

(** Two labels, given in descending order. *)
Definition twoLabels : Apollo :=
  SetShelleyMetadata Example.simpleTransfer
    (<[ 674 := AnyString "hello" ]> {[ 1000 := AnyInt64 7 ]}).

End LabelExample.

Lemma buildMetadata_sorted_witness :
  exists labels,
    StronglySorted (fun x y => (x <? y) = true) labels /\
    (forall k, k ∈ labels
               <-> is_Some (metadata (mkAuxData (<[ 674 := AnyString "hello" ]>
                                                   {[ 1000 := AnyInt64 7 ]})) !! k)) /\
    Forall2 (fun k (pair : TransactionMetadatum * TransactionMetadatum) =>
               pair.1 = MetaInt k /\
               exists v,
                 metadata (mkAuxData (<[ 674 := AnyString "hello" ]>
                                        {[ 1000 := AnyInt64 7 ]})) !! k = Some v /\
                 toMetadatum v = Ok pair.2)
            labels
            (Pairs (mkMetaMap [(MetaInt 674, MetaText "hello"); (MetaInt 1000, MetaInt 7)])).
Proof.
  apply (buildMetadata_sorted LabelExample.twoLabels).
  - reflexivity.
  - vm_compute. reflexivity.
Defined.

(** ** [Clone]: what the copy does not share *)

(** X26: the lists of the clone are its own.  After [Clone], every
    slice, map and pointer of the clone lies outside the memory of the
    original, and setting an element of such a slice, in or out of
    range, leaves every object of the original as it was. *)
Theorem Clone_lists_are_independent (lib : Library)
  (decodeTransaction : string -> result ConwayTransaction)
  (a : Memory.Apollo) (h : Memory.Heap) :
  let clone := (Memory.Clone lib decodeTransaction a h).2 in
  let h' := (Memory.Clone lib decodeTransaction a h).1 in
  Memory.topLevelFresh (length h) clone /\
  forall (s : Memory.slice) (i : nat) (e : Memory.elem),
    Memory.freshSlice (length h) s ->
    Memory.agrees h (Memory.setElement s i e h').1.
Proof.
  intros clone h'.
  destruct (Memory.Clone_copies_top_level lib decodeTransaction a h)
    as (Hagrees & Hfresh & _ & _).
  split; [done |]. intros s i e Hs l c Hl.
  unfold Memory.setElement, Memory.freshSlice in *.
  destruct (Memory.array s) as [ls |]; [| by apply Hagrees].
  fold h'. destruct (h' !! ls) as [c' |] eqn:Hls; [| by apply Hagrees].
  destruct c'; try (by apply Hagrees).
  destruct (decide _); simpl; [| by apply Hagrees].
  rewrite list_lookup_insert_ne; [by apply Hagrees |].
  apply lookup_lt_Some in Hl. lia.
Qed.
